(** * Apptainer build engine: recipe parser, build orchestration, metadata
      labels and the squashfuse image driver

    A shallow embedding of the Go sources
      - [pkg/build/types/parser] (the definition-file parser),
      - [internal/pkg/build/build.go] and [metadata.go],
      - [internal/pkg/image/driver/squashfuse/driver.go],
    followed by the properties established about them.

    Conventions.  A Go [string] or [[]byte] is a [string] of bytes.  Go maps
    are [gmap]s; a map that the code compares with [nil] is an
    [option (gmap _ _)] whose [None] is the nil map.  A function that can
    return an [error] or panic returns an [outcome].  Character classes
    (white space, letter case, digits) are the ASCII ones: a byte above 127
    is neither white space nor a cased letter.  [strings.TrimSpace],
    [strings.ToLower] and [bufio.ScanWords] are therefore Go's functions on
    texts of ASCII bytes; on other texts Go's functions also know the white
    space and the letters of Unicode (U+0085, U+00A0, ...).  A property that
    depends on a byte being no white space is stated for ASCII bytes. *)

From stdpp Require Import gmap strings list.
From Stdlib Require Import ZArith Ascii DecimalString DecimalN.

Local Open Scope Z_scope.

(** ** Characters that are awkward inside a literal *)

Definition NL : ascii := "010"%char.
Definition backslash : ascii := "092"%char.
Definition dquote : ascii := "034"%char.
Definition squote : ascii := "039"%char.

(** The one-byte string holding [c]. *)
Definition str1 (c : ascii) : string := String c "".

(** Every line of [ls] followed by a newline. *)
Fixpoint unlines (ls : list string) : string :=
  match ls with
  | [] => ""
  | l :: ls' => l +:+ str1 NL +:+ unlines ls'
  end.

(** ** Outcomes of fallible Go code *)

Inductive error : Type :=
  | InvalidSectionError (Sections : list string)
      (* errInvalidSection wrapped with the offending section keys *)
  | errEmptyDefinition
      (* "empty definition file" *)
  | errorString (msg : string).
      (* errors.New / fmt.Errorf *)

Inductive outcome (A : Type) : Type :=
  | Ok (a : A)
  | Err (e : error)
  | Panic (msg : string).
Arguments Ok {A} a.
Arguments Err {A} e.
Arguments Panic {A} msg.

Definition obind {A B} (x : outcome A) (f : A → outcome B) : outcome B :=
  match x with
  | Ok a => f a
  | Err e => Err e
  | Panic m => Panic m
  end.

Notation "x ← y ;;; z" := (obind y (fun x => z))
  (at level 20, y at level 100, z at level 200, right associativity,
   format "x  ←  y  ;;;  '/' z").

Notation "' p ← y ;;; z" := (obind y (fun p => z))
  (at level 20, p pattern, y at level 100, z at level 200,
   right associativity, format "' p  ←  y  ;;;  '/' z").

Definition isOk {A} (x : outcome A) : bool :=
  match x with Ok _ => true | _ => false end.

(** ** Package [strings] *)

Module gostrings.

Definition isSpace (c : ascii) : bool := Ascii.is_space c.

Definition isDigit (c : ascii) : bool :=
  let n := nat_of_ascii c in (48 <=? n)%nat && (n <=? 57)%nat.

Definition isUpper (c : ascii) : bool :=
  let n := nat_of_ascii c in (65 <=? n)%nat && (n <=? 90)%nat.

Definition isLower (c : ascii) : bool :=
  let n := nat_of_ascii c in (97 <=? n)%nat && (n <=? 122)%nat.

Definition toLowerByte (c : ascii) : ascii :=
  if isUpper c then ascii_of_nat (nat_of_ascii c + 32) else c.

Fixpoint ToLower (s : string) : string :=
  match s with
  | "" => ""
  | String c s' => String (toLowerByte c) (ToLower s')
  end.

Fixpoint take (n : nat) (s : string) : string :=
  match n, s with
  | S n', String c s' => String c (take n' s')
  | _, _ => ""
  end.

Fixpoint drop (n : nat) (s : string) : string :=
  match n, s with
  | S n', String _ s' => drop n' s'
  | _, _ => s
  end.

Fixpoint HasPrefix (s prefix : string) : bool :=
  match prefix, s with
  | "", _ => true
  | String a p', String b s' => Ascii.eqb a b && HasPrefix s' p'
  | String _ _, "" => false
  end.

Definition HasSuffix (s suffix : string) : bool :=
  let n := String.length s in
  let m := String.length suffix in
  (m <=? n)%nat && String.eqb (drop (n - m) s) suffix.

Definition TrimSuffix (s suffix : string) : string :=
  if HasSuffix s suffix
  then take (String.length s - String.length suffix) s
  else s.

(** [strings.Index]: the byte offset of the first occurrence, or -1. *)
Fixpoint Index (s substr : string) : Z :=
  match s with
  | "" => if HasPrefix "" substr then 0 else -1
  | String _ s' =>
      if HasPrefix s substr then 0
      else let i := Index s' substr in
           if i <? 0 then -1 else i + 1
  end.

Definition Contains (s substr : string) : bool := 0 <=? Index s substr.

Fixpoint TrimLeftFunc (f : ascii → bool) (s : string) : string :=
  match s with
  | "" => ""
  | String c s' => if f c then TrimLeftFunc f s' else s
  end.

Fixpoint TrimRightFunc (f : ascii → bool) (s : string) : string :=
  match s with
  | "" => ""
  | String c s' =>
      match TrimRightFunc f s' with
      | "" => if f c then "" else str1 c
      | r => String c r
      end
  end.

Definition TrimSpace (s : string) : string :=
  TrimRightFunc isSpace (TrimLeftFunc isSpace s).

(** [strings.TrimLeft] and [strings.Trim]; every call site passes a
    one-byte cutset, here the byte itself. *)
Definition TrimLeft (s : string) (cutset : ascii) : string :=
  TrimLeftFunc (Ascii.eqb cutset) s.

Definition Trim (s : string) (cutset : ascii) : string :=
  TrimRightFunc (Ascii.eqb cutset) (TrimLeftFunc (Ascii.eqb cutset) s).

(** [strings.Split]; every call site passes a one-byte separator, here
    the byte itself.  The result always has at least one element. *)
Fixpoint Split (s : string) (sep : ascii) : list string :=
  match s with
  | "" => [""]
  | String c s' =>
      if Ascii.eqb c sep then "" :: Split s' sep
      else match Split s' sep with
           | h :: t => String c h :: t
           | [] => [str1 c]
           end
  end.

(** Cut [s] around the first [sep]. *)
Fixpoint cut (s : string) (sep : ascii) : option (string * string) :=
  match s with
  | "" => None
  | String c s' =>
      if Ascii.eqb c sep then Some ("", s')
      else match cut s' sep with
           | Some (a, b) => Some (String c a, b)
           | None => None
           end
  end.

(** [strings.SplitN] for [n >= 0]. *)
Fixpoint SplitN (s : string) (sep : ascii) (n : nat) : list string :=
  match n with
  | O => []
  | S O => [s]
  | S n' =>
      match cut s sep with
      | Some (a, b) => a :: SplitN b sep n'
      | None => [s]
      end
  end.

(** Every byte of [s] satisfies [f]. *)
Fixpoint allBytes (f : ascii → bool) (s : string) : bool :=
  match s with
  | "" => true
  | String c s' => f c && allBytes f s'
  end.

(** Some byte of [s] is [c]: [strings.IndexByte(s, c) >= 0]. *)
Fixpoint hasByte (c : ascii) (s : string) : bool :=
  match s with
  | "" => false
  | String a s' => Ascii.eqb a c || hasByte c s'
  end.

Fixpoint Join (elems : list string) (sep : string) : string :=
  match elems with
  | [] => ""
  | [e] => e
  | e :: rest => e +:+ sep +:+ Join rest sep
  end.

End gostrings.

(** ** Package [regexp]: a backtracking matcher

    Go's [regexp] returns the leftmost match and, among those, the one a
    backtracking search finds first.  [m r k s] runs that search: it
    matches [r] at the start of [s] and hands the rest of the input to the
    continuation [k]; alternation tries its left branch first and a star is
    greedy. *)

Module regexp.

Inductive re : Type :=
  | Eps
  | Cls (f : ascii → bool)
  | Cat (a b : re)
  | Alt (a b : re)
  | Star (a : re).

Definition Lit (c : ascii) : re := Cls (Ascii.eqb c).
Definition Plus (a : re) : re := Cat a (Star a).

Fixpoint m (r : re) (k : string → option string) (s : string)
  {struct r} : option string :=
  match r with
  | Eps => k s
  | Cls f =>
      match s with
      | String c s' => if f c then k s' else None
      | "" => None
      end
  | Cat a b => m a (m b k) s
  | Alt a b =>
      match m a k s with
      | Some x => Some x
      | None => m b k s
      end
  | Star a =>
      (fix loop (n : nat) (s : string) {struct n} : option string :=
         match n with
         | O => k s
         | S n' =>
             match m a (fun s1 =>
                          if (String.length s1 <? String.length s)%nat
                          then loop n' s1 else None) s with
             | Some x => Some x
             | None => k s
             end
         end) (S (String.length s)) s
  end.

(** The text matched at the start of [s], if any. *)
Definition matchPrefix (r : re) (s : string) : option string :=
  match m r Some s with
  | Some rest => Some (gostrings.take (String.length s - String.length rest) s)
  | None => None
  end.

(** [FindAllString(s, -1)] for an expression that matches no empty
    string: successive leftmost matches, each search resuming where the
    previous match ended.  [skip] counts the bytes of the current match
    still to be passed over. *)
Fixpoint findAllFrom (r : re) (skip : nat) (s : string) : list string :=
  match s with
  | "" => []
  | String _ s' =>
      match skip with
      | S skip' => findAllFrom r skip' s'
      | O =>
          match matchPrefix r s with
          | Some (String c w) =>
              String c w :: findAllFrom r (String.length w) s'
          | _ => findAllFrom r O s'
          end
      end
  end.

Definition FindAllString (r : re) (s : string) : list string :=
  findAllFrom r O s.

(** Perl classes as Go defines them: [\s] is [[\t\n\f\r ]], [\w] is
    [[0-9A-Za-z_]], [\d] is [[0-9]]. *)
Definition cls_s (c : ascii) : bool :=
  match nat_of_ascii c with
  | 9%nat | 10%nat | 12%nat | 13%nat | 32%nat => true
  | _ => false
  end.

Definition cls_w (c : ascii) : bool :=
  gostrings.isDigit c || gostrings.isUpper c || gostrings.isLower c
  || Ascii.eqb c "_"%char.

Definition cls_d (c : ascii) : bool := gostrings.isDigit c.

(** [rgx.ReplaceAllString(key, "&n")] for [rgx = `\d+$`]: the leftmost
    match is the whole trailing run of digits, and the template holds no
    [$], so it is copied as it is. *)
Definition replaceTrailingDigits (key : string) : string :=
  let base := gostrings.TrimRightFunc cls_d key in
  if String.eqb base key then key else base +:+ "&n".

End regexp.

(** ** Packages [path] and [strconv] *)

Module path.

Definition slash : ascii := "/"%char.

(** One step of [Clean] over the path elements: [stk] is the output so
    far, last element first. *)
Definition cleanStep (rooted : bool) (stk : list string) (e : string)
  : list string :=
  if String.eqb e "" || String.eqb e "." then stk
  else if String.eqb e ".." then
    match stk with
    | top :: stk' =>
        if String.eqb top ".." then e :: stk else stk'
    | [] => if rooted then [] else [e]
    end
  else e :: stk.

Definition Clean (p : string) : string :=
  if String.eqb p "" then "."
  else
    let rooted := gostrings.HasPrefix p "/" in
    let out := rev (fold_left (cleanStep rooted) (gostrings.Split p slash) []) in
    let body := gostrings.Join out "/" in
    if rooted then "/" +:+ body
    else if String.eqb body "" then "." else body.

(** The text up to and including the last slash, and the text after it. *)
Fixpoint Split (p : string) : string * string :=
  match p with
  | "" => ("", "")
  | String c p' =>
      let '(d, f) := Split p' in
      if String.eqb d "" then
        if Ascii.eqb c slash then (str1 c, f) else ("", String c f)
      else (String c d, f)
  end.

Definition Dir (p : string) : string := Clean (fst (Split p)).

Definition Base (p : string) : string :=
  if String.eqb p "" then "."
  else
    let p1 := gostrings.TrimRightFunc (Ascii.eqb slash) p in
    let p2 := snd (Split p1) in
    if String.eqb p2 "" then "/" else p2.

End path.

(** [path/filepath] on Unix, where [Clean] is the cleaning of [path]. *)
Module filepath.

(** [Join]: the elements from the first that is not empty, joined with
    slashes and cleaned. *)
Fixpoint Join (elem : list string) : string :=
  match elem with
  | [] => ""
  | e :: rest =>
      if String.eqb e "" then Join rest
      else path.Clean (gostrings.Join elem "/")
  end.

End filepath.

Module strconv.

Definition maxInt64 : Z := 9223372036854775807.
Definition minInt64 : Z := -9223372036854775808.

(** [FormatUint(n, 10)]. *)
Definition FormatUint (n : N) : string :=
  NilZero.string_of_uint (N.to_uint n).

Definition digitVal (c : ascii) : Z := Z.of_nat (nat_of_ascii c) - 48.

Definition allDigits (s : string) : bool :=
  gostrings.allBytes gostrings.isDigit s.

Fixpoint digitsVal (acc : Z) (s : string) : Z :=
  match s with
  | "" => acc
  | String c s' => digitsVal (10 * acc + digitVal c) s'
  end.

(** [Atoi]: the value and whether the conversion succeeded.  On a syntax
    error the value is 0, on a range error the nearest bound. *)
Definition Atoi (s : string) : Z * bool :=
  let '(neg, ds) :=
    match s with
    | String c s' =>
        if Ascii.eqb c "+"%char then (false, s')
        else if Ascii.eqb c "-"%char then (true, s')
        else (false, s)
    | "" => (false, "")
    end in
  if String.eqb ds "" || negb (allDigits ds) then (0, false)
  else
    let v := digitsVal 0 ds in
    let v := if neg then - v else v in
    if v <? minInt64 then (minInt64, false)
    else if maxInt64 <? v then (maxInt64, false)
    else (v, true).

End strconv.

(** ** Package [pkg/build/types]: the definition model

    Fields of different Go structs that share a name carry their struct's
    name as a prefix.  [Header] and [CustomData] are compared with [nil] by
    the code, so [None] is the nil map; [Labels], [Files] and [AppOrder]
    are always allocated by the parser before they are read. *)

Module types.

Record Script : Type := mkScript {
  Script_Args : string;
  Script_Script : string
}.

Record FileTransport : Type := mkFileTransport {
  Src : string;
  Dst : string
}.

Record Files : Type := mkFiles {
  Files_Args : string;
  Files_Files : list FileTransport
}.

Record ImageScripts : Type := mkImageScripts {
  Help : Script;
  Environment : Script;
  Runscript : Script;
  ImageScripts_Test : Script;
  Startscript : Script
}.

Record Scripts : Type := mkScripts {
  Arguments : Script;
  Pre : Script;
  Setup : Script;
  Post : Script;
  Scripts_Test : Script
}.

(** [types.Definition]. *)
Record Def : Type := mkDef {
  Header : option (gmap string string);
  Labels : gmap string string;
  ImageData_Scripts : ImageScripts;
  BuildData_Files : list Files;
  BuildData_Scripts : Scripts;
  CustomData : option (gmap string string);
  Raw : string;
  FullRaw : string;
  AppOrder : list string
}.

#[global] Instance Script_eq_dec : EqDecision Script.
Proof. solve_decision. Defined.
#[global] Instance FileTransport_eq_dec : EqDecision FileTransport.
Proof. solve_decision. Defined.
#[global] Instance Files_eq_dec : EqDecision Files.
Proof. solve_decision. Defined.
#[global] Instance ImageScripts_eq_dec : EqDecision ImageScripts.
Proof. solve_decision. Defined.
#[global] Instance Scripts_eq_dec : EqDecision Scripts.
Proof. solve_decision. Defined.
#[global] Instance Def_eq_dec : EqDecision Def.
Proof. solve_decision. Defined.

(** The zero value [types.Script{}]. *)
Definition zeroScript : Script := mkScript "" "".

(** The zero value [types.Definition{}] with the given raw bytes. *)
Definition zeroDef (raw fullRaw : string) : Def :=
  mkDef None ∅
        (mkImageScripts zeroScript zeroScript zeroScript zeroScript zeroScript)
        []
        (mkScripts zeroScript zeroScript zeroScript zeroScript zeroScript)
        None raw fullRaw [].

Definition setHeader (h : option (gmap string string)) (d : Def) : Def :=
  mkDef h (Labels d) (ImageData_Scripts d) (BuildData_Files d)
        (BuildData_Scripts d) (CustomData d) (Raw d) (FullRaw d) (AppOrder d).

Definition setRaw (raw fullRaw : string) (d : Def) : Def :=
  mkDef (Header d) (Labels d) (ImageData_Scripts d) (BuildData_Files d)
        (BuildData_Scripts d) (CustomData d) raw fullRaw (AppOrder d).

Definition setFullRaw (fullRaw : string) (d : Def) : Def :=
  setRaw (Raw d) fullRaw d.

End types.

(** ** Package [bufio]: the line and word scanners the parser relies on *)

Module bufio.

(** [dropCR]: a line loses one trailing carriage return. *)
Definition dropCR (line : string) : string :=
  gostrings.TrimSuffix line (str1 "013"%char).

(** The lines [ScanLines] finds in [data] when called again and again at end
    of input, each paired with the input that starts at that line
    ([data[advance:]] in the caller).  A final line needs no newline. *)
Fixpoint lines (data : string) : list (string * string) :=
  match data with
  | "" => []
  | String c data' =>
      if Ascii.eqb c NL then ("", data) :: lines data'
      else match lines data' with
           | (l, _) :: t => (String c l, data) :: t
           | [] => [(str1 c, data)]
           end
  end.

(** [MaxScanTokenSize]: the largest buffer a [Scanner] allocates. *)
Definition MaxScanTokenSize : N := 65536.

Definition ErrTooLong : error := errorString "bufio.Scanner: token too long".

(** The first word [ScanWords(line, true)] returns; [None] is the nil token
    of a line of white space. *)
Fixpoint wordEnd (s : string) : string :=
  match s with
  | "" => ""
  | String c s' => if gostrings.isSpace c then "" else String c (wordEnd s')
  end.

Definition ScanWords (line : string) : option string :=
  match gostrings.TrimLeftFunc gostrings.isSpace line with
  | "" => None
  | w => Some (wordEnd w)
  end.

End bufio.

(** ** Package [pkg/build/types/parser] *)

Module parser.
Import types.

(** [fileSplitter], an alternation of two groups.  The first is one or
    more repetitions of: bytes that are neither white space nor a quote,
    then two opening braces, white space, one or more word bytes, white
    space, a closing brace, any number of closing braces, and bytes that are
    neither white space, a brace nor a quote.  (A brace that opens no
    repetition count is a literal.)  The second group is a run of bytes that
    are neither white space nor a quote, or a double-quoted text with its
    closing quote, or a single quote followed by bytes other than a single
    quote. *)
Definition notSpaceQuote (c : ascii) : bool :=
  negb (regexp.cls_s c || Ascii.eqb c dquote || Ascii.eqb c squote).

Definition notSpaceBraceQuote (c : ascii) : bool :=
  notSpaceQuote c && negb (Ascii.eqb c "{"%char || Ascii.eqb c "}"%char).

Definition fileSplitter : regexp.re :=
  let open := regexp.Lit "{"%char in
  let close := regexp.Lit "}"%char in
  let braced :=
    regexp.Cat (regexp.Star (regexp.Cls notSpaceQuote))
   (regexp.Cat open
   (regexp.Cat open
   (regexp.Cat (regexp.Star (regexp.Cls regexp.cls_s))
   (regexp.Cat (regexp.Plus (regexp.Cls regexp.cls_w))
   (regexp.Cat (regexp.Star (regexp.Cls regexp.cls_s))
   (regexp.Cat close
   (regexp.Cat (regexp.Star close)
               (regexp.Star (regexp.Cls notSpaceBraceQuote))))))))) in
  let plain := regexp.Plus (regexp.Cls notSpaceQuote) in
  let dq :=
    regexp.Cat (regexp.Lit dquote)
   (regexp.Cat (regexp.Star (regexp.Cls (fun c => negb (Ascii.eqb c dquote))))
               (regexp.Lit dquote)) in
  let sq :=
    regexp.Cat (regexp.Lit squote)
               (regexp.Star (regexp.Cls (fun c => negb (Ascii.eqb c squote)))) in
  regexp.Alt (regexp.Plus braced) (regexp.Alt plain (regexp.Alt dq sq)).

(** The three package-level tables.  Every entry of the Go maps is [true],
    so each is the set of its keys. *)
Definition validSections : list string :=
  ["help"; "setup"; "files"; "labels"; "environment"; "pre"; "post";
   "runscript"; "test"; "startscript"; "arguments"].

Definition appSections : gset string :=
  list_to_set ["appinstall"; "applabels"; "appfiles"; "appenv"; "apptest";
               "apphelp"; "apprun"; "appstart"].

Definition validHeaderList : list string :=
  ["bootstrap"; "from"; "includecmd"; "mirrorurl"; "updateurl";
   "osversion"; "include"; "library"; "registry"; "namespace";
   "stage"; "product"; "user"; "regcode"; "productpgp";
   "registerurl"; "modules"; "otherurl&n"; "fingerprints";
   "confurl"; "setopt"; "target"; "frontend"; "filename";
   "buildargs"].

Definition validHeaders : gset string := list_to_set validHeaderList.

(** Is the first word of [line] a section identifier, [word[0] == '%']? *)
Definition startsSection (line : string) : bool :=
  match bufio.ScanWords line with
  | Some (String c _) => Ascii.eqb c "%"%char
  | _ => false
  end.

(** The loop of [scanDefinitionFile] at end of input.  [first] is
    [advance == 0]; the result is the unread input [data[advance:]] and the
    token. *)
Fixpoint scanLoop (ls : list (string * string)) (inSection first : bool)
    (retbuf : string) : string * string :=
  match ls with
  | [] => ("", retbuf)
  | (line0, here) :: ls' =>
      let line := bufio.dropCR line0 in
      if startsSection line then
        if inSection then (here, retbuf)
        else if first then
          scanLoop ls' true false (retbuf +:+ line +:+ str1 NL)
        else (here, retbuf)
      else scanLoop ls' inSection false (retbuf +:+ line +:+ str1 NL)
  end.

(** [scanDefinitionFile(data, true)]. *)
Definition scanDefinitionFile (data : string) : string * string :=
  scanLoop (bufio.lines data) false true "".

(** The bytes a [Scanner] must hold, counted from the start of the token,
    before the split function can return it: when the token stops at a
    section line, everything up to the newline of that line; when no
    newline follows, everything and one byte more, since the end of the
    input shows only on a read into free buffer space. *)
Definition bufferNeeded (input rest : string) : N :=
  match gostrings.cut rest NL with
  | Some (line, _) =>
      N.of_nat (String.length input - String.length rest)
      + N.of_nat (String.length line) + 1
  | None => N.of_nat (String.length input) + 1
  end.

(** The tokens a [bufio.Scanner] with this split function delivers, one per
    successful [Scan], over the whole input, and the error [s.Err()] holds
    once [Scan] has returned false: [ErrTooLong] when a token does not fit
    the buffer. *)
Fixpoint scanTokens (fuel : nat) (input : string)
  : list string * option error :=
  match fuel with
  | O => ([], None)
  | S fuel' =>
      if String.eqb input "" then ([], None)
      else
        let '(rest, tok) := scanDefinitionFile input in
        if (bufferNeeded input rest <=? bufio.MaxScanTokenSize)%N then
          let '(toks, err) := scanTokens fuel' rest in (tok :: toks, err)
        else ([], Some bufio.ErrTooLong)
  end.

Definition getSectionName (line : string) : string :=
  let line := gostrings.TrimLeft line "%"%char in
  hd "" (gostrings.SplitN (gostrings.ToLower line) " "%char 2).

Definition isCommentOrBlank (line : string) : bool :=
  String.eqb line "" || (gostrings.Index line "#" =? 0).

(** One line of a [%files] body; the panic is the index expression
    [lineSubs[0]] on an empty slice. *)
Definition parseFileLine (line : string) : outcome FileTransport :=
  let lineSubs := regexp.FindAllString fileSplitter line in
  '(src, dst) ←
    match lineSubs with
    | [] => Panic "index out of range [0] with length 0"
    | [s0] => Ok (gostrings.TrimSpace s0, "")
    | s0 :: s1 :: _ => Ok (gostrings.TrimSpace s0, gostrings.TrimSpace s1)
    end ;;;
  Ok (mkFileTransport (gostrings.Trim src dquote) (gostrings.Trim dst dquote)).

Fixpoint parseFileLines (subs : list string) (acc : list FileTransport)
  : outcome (list FileTransport) :=
  match subs with
  | [] => Ok acc
  | line0 :: subs' =>
      let line := gostrings.TrimSpace line0 in
      if isCommentOrBlank line then parseFileLines subs' acc
      else
        ft ← parseFileLine line ;;;
        parseFileLines subs' (acc ++ [ft])
  end.

(** Append to the first files block with the same arguments, or add the
    block at the end. *)
Fixpoint mergeFiles (files : list Files) (f : Files) : list Files :=
  match files with
  | [] => [f]
  | ef :: rest =>
      if String.eqb (Files_Args ef) (Files_Args f)
      then mkFiles (Files_Args ef) (Files_Files ef ++ Files_Files f) :: rest
      else ef :: mergeFiles rest f
  end.

(** The parser's working state: [sectionsMap], [files] and [appOrder]. *)
Record pstate : Type := mkPstate {
  sections : gmap string Script;
  files : list Files;
  appOrder : list string
}.

Definition ensureSection (key : string) (secs : gmap string Script)
  : gmap string Script :=
  match secs !! key with
  | Some _ => secs
  | None => <[key := zeroScript]> secs
  end.

Definition setArgs (key args : string) (secs : gmap string Script)
  : gmap string Script :=
  alter (fun sc => mkScript args (Script_Script sc)) key secs.

Definition appendScript (key body : string) (secs : gmap string Script)
  : gmap string Script :=
  alter (fun sc => mkScript (Script_Args sc) (Script_Script sc +:+ body))
        key secs.

Definition parseTokenSection (tok : string) (st : pstate) : outcome pstate :=
  match gostrings.SplitN tok NL 2 with
  | [split0; split1] =>
      let key := getSectionName split0 in
      if String.eqb key "files" then
        let sectionSplit :=
          gostrings.SplitN (gostrings.TrimLeft split0 "%"%char) " "%char 2 in
        let args := match sectionSplit with [_; a] => a | _ => "" end in
        let filesSections := gostrings.TrimSpace split1 in
        let subs := gostrings.Split filesSections NL in
        fs ← parseFileLines subs [] ;;;
        Ok (mkPstate (sections st) (mergeFiles (files st) (mkFiles args fs))
                     (appOrder st))
      else if bool_decide (key ∈ appSections) then
        let sectionSplit :=
          gostrings.SplitN (gostrings.TrimLeft split0 "%"%char) " "%char 3 in
        match sectionSplit with
        | name :: appName :: _ =>
            let key := gostrings.Join [name; appName] " " in
            let secs := ensureSection key (sections st) in
            let order :=
              if bool_decide (appName ∈ appOrder st) then appOrder st
              else appOrder st ++ [appName] in
            Ok (mkPstate (appendScript key split1 secs) (files st) order)
        | _ =>
            Err (errorString ("app section " +:+ hd "" sectionSplit +:+
                   ": could not be split into section name and app name"))
        end
      else
        let secs := ensureSection key (sections st) in
        let sectionSplit :=
          gostrings.SplitN (gostrings.TrimLeft split0 "%"%char) " "%char 2 in
        let secs := match sectionSplit with
                    | [_; a] => setArgs key a secs
                    | _ => secs
                    end in
        Ok (mkPstate (appendScript key split1 secs) (files st) (appOrder st))
  | split =>
      Err (errorString ("section " +:+ hd "" split +:+
             ": could not be split into section name and body"))
  end.

Fixpoint getLabelLines (subs : list string) (labels : gmap string string)
  : gmap string string :=
  match subs with
  | [] => labels
  | line0 :: subs' =>
      let line := gostrings.TrimSpace line0 in
      if isCommentOrBlank line then getLabelLines subs' labels
      else
        let '(key, val) :=
          match gostrings.SplitN line " "%char 2 with
          | k :: v :: _ => (gostrings.TrimSpace k, gostrings.TrimSpace v)
          | lineSubs => (gostrings.TrimSpace (hd "" lineSubs), "")
          end in
        getLabelLines subs' (<[key := val]> labels)
  end.

Definition GetLabels (content : string) : gmap string string :=
  getLabelLines (gostrings.Split (gostrings.TrimSpace content) NL) ∅.

(** [isEmpty]: deep equality with the freshly initialised definition, raw
    bytes cleared. *)
Definition isEmpty (d : Def) : bool :=
  bool_decide (setRaw "" "" d = zeroDef "" "").

Definition section (secs : gmap string Script) (name : string) : Script :=
  default zeroScript (secs !! name).

Definition firstWordOfKey (k : string) : string :=
  hd "" (gostrings.Split k " "%char).

(** The keys left in the map whose first word is no app section name. *)
Definition invalidKeys (secs : gmap string Script) : list string :=
  filter (fun k => firstWordOfKey k ∉ appSections) (map_to_list secs).*1.

(** The first loop of [populateDefinition]: every standard section gets an
    entry. *)
Definition initSections (secs : gmap string Script) : gmap string Script :=
  foldr ensureSection secs validSections.

(** Its second loop: the standard sections leave the map. *)
Definition removeStandard (secs : gmap string Script) : gmap string Script :=
  foldr delete secs validSections.

Definition populateDefinition (st : pstate) (d : Def) : outcome Def :=
  let secs := initSections (sections st) in
  let img := mkImageScripts (section secs "help") (section secs "environment")
               (section secs "runscript") (section secs "test")
               (section secs "startscript") in
  let labels := GetLabels (Script_Script (section secs "labels")) in
  let scr := mkScripts (section secs "arguments") (section secs "pre")
               (section secs "setup") (section secs "post")
               (section secs "test") in
  let secs := removeStandard secs in
  let d := mkDef (Header d) labels img (files st) scr (CustomData d)
                 (Raw d) (FullRaw d) (AppOrder d) in
  d ←
    (if bool_decide (size secs ≠ 0%nat) then
       let d := mkDef (Header d) (Labels d) (ImageData_Scripts d)
                  (BuildData_Files d) (BuildData_Scripts d)
                  (Some (Script_Script <$> secs))
                  (Raw d) (FullRaw d) (AppOrder d) in
       let keys := invalidKeys secs in
       if bool_decide (keys ≠ []) then Err (InvalidSectionError keys)
       else Ok d
     else Ok d) ;;;
  let d := mkDef (Header d) (Labels d) (ImageData_Scripts d)
             (BuildData_Files d) (BuildData_Scripts d) (CustomData d)
             (Raw d) (FullRaw d) (appOrder st) in
  if isEmpty d then Err errEmptyDefinition else Ok d.

(** The keyword check of [doHeader]: the key itself, or the key with its
    trailing digits replaced by [&n] when that changes it. *)
Definition headerKeyOK (key : string) : bool :=
  bool_decide (key ∈ validHeaders)
  || (let tmpKey := regexp.replaceTrailingDigits key in
      negb (String.eqb tmpKey key) && bool_decide (tmpKey ∈ validHeaders)).

(** The loop state of [doHeader]: the local [header] map, the pending
    continuation and the definition being filled. *)
Record hstate : Type := mkHstate {
  header : gmap string string;
  keyCont : string;
  valCont : string;
  hdef : Def
}.

(** The value kept when [val] ends in a backslash: [val] without it, and
    with a final backslash-n turned into a newline. *)
Definition contValue (val : string) : string :=
  let vc := gostrings.TrimSuffix val (str1 backslash) in
  if gostrings.HasSuffix vc (String backslash "n")
  then gostrings.TrimSuffix vc (String backslash "n") +:+ str1 NL
  else vc.

(** [strings.Split(line, "#")[0]]. *)
Definition trimComment (line : string) : string :=
  hd "" (gostrings.Split line "#"%char).

Definition doHeaderLine (st : hstate) (line0 : string) : outcome hstate :=
  let line := gostrings.TrimSpace line0 in
  if isCommentOrBlank line then
    if (0 <? String.length (keyCont st))%nat then
      match Header (hdef st) with
      | None => Panic "assignment to entry in nil map"
      | Some h =>
          Ok (mkHstate (header st) "" ""
                (setHeader (Some (<[keyCont st := valCont st]> h)) (hdef st)))
      end
    else Ok st
  else
    let trimLine := trimComment line in
    '(key, val, kc, vc) ←
      (if (String.length (valCont st) =? 0)%nat then
         match gostrings.SplitN trimLine ":"%char 2 with
         | [k; v] =>
             Ok (gostrings.ToLower (gostrings.TrimSpace k),
                 gostrings.TrimSpace v, keyCont st, valCont st)
         | linetoks =>
             Err (errorString ("header key " +:+ hd "" linetoks +:+
                               " had no val"))
         end
       else
         Ok (keyCont st, valCont st +:+ gostrings.TrimSpace trimLine, "", "")) ;;;
    if gostrings.HasSuffix val (str1 backslash) then
      Ok (mkHstate (header st) key (contValue val) (hdef st))
    else if headerKeyOK key then
      Ok (mkHstate (<[key := val]> (header st)) kc vc (hdef st))
    else Err (errorString ("invalid header keyword found: " +:+ key)).

Fixpoint doHeaderLines (toks : list string) (st : hstate) : outcome hstate :=
  match toks with
  | [] => Ok st
  | line :: toks' =>
      st' ← doHeaderLine st line ;;;
      doHeaderLines toks' st'
  end.

Definition doHeader (h : string) (d : Def) : outcome Def :=
  let h := gostrings.TrimSpace h in
  let toks := gostrings.Split h NL in
  st ← doHeaderLines toks (mkHstate ∅ "" "" d) ;;;
  if bool_decide (size (header st) ≠ 0%nat)
  then Ok (setHeader (Some (header st)) (hdef st))
  else Ok (hdef st).

Definition wrapErr {A} (pre : string) (x : outcome A) : outcome A :=
  match x with
  | Err (errorString msg) => Err (errorString (pre +:+ msg))
  | other => other
  end.

Fixpoint parseTokens (toks : list string) (st : pstate) : outcome pstate :=
  match toks with
  | [] => Ok st
  | tok :: toks' =>
      st' ← parseTokenSection tok st ;;;
      parseTokens toks' st'
  end.

(** [doSections]: [text] is the scanner's current token, [more] the tokens
    its later [Scan] calls deliver and [serr] the error it ends with. *)
Definition doSections (text : string) (more : list string)
    (serr : option error) (d : Def) : outcome Def :=
  let st := mkPstate ∅ [] [] in
  let tok := gostrings.TrimSpace text in
  '(st, d) ←
    (match tok with
     | "" => Ok (st, d)
     | String c _ =>
         if negb (Ascii.eqb c "%"%char) then
           d' ← wrapErr "failed to parse deffile header: " (doHeader tok d) ;;;
           Ok (st, d')
         else
           st' ← parseTokenSection tok st ;;;
           Ok (st', d)
     end) ;;;
  st ← parseTokens more st ;;;
  match serr with
  | Some e => Err e
  | None => populateDefinition st d
  end.

Fixpoint skipEmptyTokens (toks : list string) : list string :=
  match toks with
  | "" :: toks' => skipEmptyTokens toks'
  | _ => toks
  end.

Definition ParseDefinitionFile (raw : string) : outcome Def :=
  let d := zeroDef raw raw in
  let '(toks, serr) := scanTokens (S (String.length raw)) raw in
  match skipEmptyTokens toks with
  | [] =>
      match serr with
      | Some e => Err e
      | None => Err errEmptyDefinition
      end
  | text :: more => doSections text more serr d
  end.

(** The [(?mi)^bootstrap:] expression: at a line start, the ten bytes of
    [bootstrap:] in either case.  Case folding also lets the letter s stand
    for U+017F, the two bytes 197 191. *)
Fixpoint matchFold (pat s : string) : bool :=
  match pat with
  | "" => true
  | String p pat' =>
      match s with
      | "" => false
      | String c s' =>
          (Ascii.eqb (gostrings.toLowerByte c) p && matchFold pat' s')
          || (Ascii.eqb p "s"%char && Ascii.eqb c "197"%char &&
              match s' with
              | String c2 s'' => Ascii.eqb c2 "191"%char && matchFold pat' s''
              | "" => false
              end)
      end
  end.

Definition matchBootstrap (s : string) : bool := matchFold "bootstrap:" s.

(** The start offsets [rgx.FindAllIndex(buf, -1)] returns.  No match holds a
    newline, so none starts inside another and every line-anchored
    occurrence is reported.  [bol] tells whether offset [pos] starts a
    line. *)
Fixpoint findAllIndexFrom (bol : bool) (pos : nat) (buf : string) : list nat :=
  match buf with
  | "" => []
  | String c buf' =>
      (if bol && matchBootstrap buf then [pos] else [])
      ++ findAllIndexFrom (Ascii.eqb c NL) (S pos) buf'
  end.

Definition FindAllIndex (buf : string) : list nat :=
  findAllIndexFrom true O buf.

(** The splitting loop of [All]: [irev] lists the remaining match offsets,
    last first. *)
Fixpoint splitLoop (irev : list nat) (buf : string) (splitBuf : list string)
  : list string :=
  match irev with
  | [] => buf :: splitBuf
  | index :: irev' =>
      splitLoop irev' (gostrings.take index buf)
                (gostrings.drop index buf :: splitBuf)
  end.

Definition splitStages (raw : string) : list string :=
  splitLoop (rev (FindAllIndex raw)) raw [].

Fixpoint parseStages (raw : string) (splitBuf : list string)
    (stages : list Def) : outcome (list Def) :=
  match splitBuf with
  | [] => Ok stages
  | stage :: rest =>
      if (String.length stage =? 0)%nat then parseStages raw rest stages
      else
        match ParseDefinitionFile stage with
        | Err errEmptyDefinition => parseStages raw rest stages
        | Err e => Err e
        | Panic msg => Panic msg
        | Ok d => parseStages raw rest (stages ++ [setFullRaw raw d])
        end
  end.

Definition errNoStages : error :=
  errorString "no stages found in definition file".

Definition All (raw : string) : outcome (list Def) :=
  let splitBuf := splitStages raw in
  if bool_decide (length splitBuf = 0%nat) then Err errEmptyDefinition
  else
    stages ← parseStages raw splitBuf [] ;;;
    if bool_decide (length stages = 0%nat) then Err errNoStages
    else Ok stages.

End parser.

(** [err.Error()]. *)
Definition Error (e : error) : string :=
  match e with
  | InvalidSectionError secs =>
      "invalid section(s) specified: " +:+ gostrings.Join secs ", "
  | errEmptyDefinition => "empty definition file"
  | errorString msg => msg
  end.

(** [fmt.Errorf(pre + "%v", err)]. *)
Definition Errorf {A} (pre : string) (e : error) : outcome A :=
  Err (errorString (pre +:+ Error e)).

(** Rewrap the error of [x], as in [if err != nil { return fmt.Errorf(...) }]. *)
Definition orErrorf {A} (pre : string) (x : outcome A) : outcome A :=
  match x with
  | Err e => Errorf pre e
  | other => other
  end.

(** ** Definitions from an [io.Reader]

    A reader is known by what [io.ReadAll] gets from it.  [All] and
    [ParseDefinitionFile] start by reading their argument to its end; the
    definitions of those names above are what they do with the bytes. *)

Definition Reader : Type := outcome string.

Definition readAll {A} (r : Reader) (k : string → outcome A) : outcome A :=
  match r with
  | Ok raw => k raw
  | Err e => Errorf "while attempting to read definition file: " e
  | Panic msg => Panic msg
  end.

Definition ParseDefinitionFileFrom (r : Reader) : outcome types.Def :=
  readAll r parser.ParseDefinitionFile.

Definition AllFrom (r : Reader) : outcome (list types.Def) :=
  readAll r parser.All.

(** ** Bundles and build options ([pkg/build/types]) *)

Module bundle.
Import types.

(** The fields of [types.Options] the build reads.  [EncryptionKeyInfo] and
    [ImgCache] are pointers the code only compares with [nil]: [true] is
    non-nil. *)
Record Options : Type := mkOptions {
  Update : bool;
  Force : bool;
  TmpDir : string;
  Binds : list string;
  Sections : list string;
  EncryptionKeyInfo : bool;
  ImgCache : bool;
  Unprivilege : bool;
  MksquashfsArgs : list string;
  Arch : string;
  Tag : string;
  Digest : string
}.

Record Bundle : Type := mkBundle {
  RootfsPath : string;
  Bundle_TmpDir : string;
  Recipe : Def;
  Opts : Options
}.

Definition setOpts (o : Options) (b : Bundle) : Bundle :=
  mkBundle (RootfsPath b) (Bundle_TmpDir b) (Recipe b) o.

Definition setRecipe (d : Def) (b : Bundle) : Bundle :=
  mkBundle (RootfsPath b) (Bundle_TmpDir b) d (Opts b).

Definition setUnprivilege (u : bool) (o : Options) : Options :=
  mkOptions (Update o) (Force o) (TmpDir o) (Binds o) (Sections o)
            (EncryptionKeyInfo o) (ImgCache o) u (MksquashfsArgs o)
            (Arch o) (Tag o) (Digest o).

(** Modelled from the spec: [Bundle.RunSection], whose source is not among
    the files at hand.  The [sections] option is [all], [none] or a list of
    section names; the first entry that decides wins. *)
Fixpoint runSectionIn (sections : list string) (s : string) : bool :=
  match sections with
  | [] => false
  | section :: rest =>
      if String.eqb section "none" then false
      else if String.eqb section "all" || String.eqb section s then true
      else runSectionIn rest s
  end.

Definition RunSection (b : Bundle) (s : string) : bool :=
  runSectionIn (Sections (Opts b)) s.

End bundle.

(** ** Package [internal/pkg/build]: metadata labels ([metadata.go]) *)

Module metadata.
Import types bundle.

(** What [time.Now()] reports, already split into the parts the label is
    built from. *)
Record BuildTime : Type := mkBuildTime {
  Weekday : string;
  Day : N;
  Month : string;
  Year : N;
  Hours : N;
  Minutes : N;
  Secs : N;
  Zone : string
}.

(** The surroundings of the label writer: the decoded [labels.json] of the
    rootfs when the file exists, the text of the [.build.labels] file when
    it exists, the clock, the package version and [oci.ArchMap]. *)
Record LabelEnv : Type := mkLabelEnv {
  existingLabels : outcome (option (gmap string string));
  buildLabelsFile : outcome (option string);
  removeBuildLabels : outcome unit;
  now : BuildTime;
  PACKAGE_VERSION : string;
  ArchMap : gmap string string
}.

(** [json.Unmarshal] into a map adds the decoded entries to it. *)
Definition getExistingLabels (env : LabelEnv) (labels : gmap string string)
  : outcome (gmap string string) :=
  ex ← existingLabels env ;;;
  match ex with
  | Some decoded => Ok (decoded ∪ labels)
  | None => Ok labels
  end.

Definition insertAll (kvs : list (string * string)) (labels : gmap string string)
  : gmap string string :=
  foldr (fun kv acc => <[kv.1 := kv.2]> acc) labels kvs.

Definition deffilePrefix : string := "org.label-schema.usage.singularity.deffile.".

Definition timeString (t : BuildTime) : string :=
  let date := strconv.FormatUint (Day t) +:+ "_" +:+ Month t +:+ "_" +:+
              strconv.FormatUint (Year t) in
  let time := strconv.FormatUint (Hours t) +:+ ":" +:+
              strconv.FormatUint (Minutes t) +:+ ":" +:+
              strconv.FormatUint (Secs t) in
  Weekday t +:+ "_" +:+ date +:+ "_" +:+ time +:+ "_" +:+ Zone t.

Definition addBuildLabels (env : LabelEnv) (b : Bundle)
    (labels : gmap string string) : gmap string string :=
  let labels := <["org.label-schema.schema-version" := "1.0"]> labels in
  let labels := <["org.label-schema.build-date" := timeString (now env)]> labels in
  let labels :=
    <["org.label-schema.usage.apptainer.version" := PACKAGE_VERSION env]> labels in
  let labels :=
    if RunSection b "help" &&
       negb (String.eqb (Script_Script (Help (ImageData_Scripts (Recipe b)))) "")
    then
      <["org.label-schema.usage.apptainer.runscript.help" :=
          "/.singularity.d/runscript.help"]>
        (<["org.label-schema.usage" := "/.singularity.d/runscript.help"]> labels)
    else labels in
  let labels :=
    if negb (Update (Opts b)) || Force (Opts b) then
      insertAll
        (prod_map (fun k => deffilePrefix +:+ k) id <$>
           map_to_list (default ∅ (Header (Recipe b))))
        labels
    else labels in
  let labels :=
    if negb (String.eqb (Tag (Opts b)) "") &&
       negb (String.eqb (Digest (Opts b)) "")
    then
      <["org.opencontainers.image.base.digest" := Digest (Opts b)]>
        (<["org.opencontainers.image.base.name" := Tag (Opts b)]> labels)
    else labels in
  <["org.label-schema.build-arch" := default "" (ArchMap env !! Arch (Opts b))]>
    labels.

(** One round of the collision loop over the recipe's labels. *)
Definition insertRecipeLabel (force : bool) (kv : string * string)
    (labels : gmap string string) : gmap string string :=
  match labels !! kv.1 with
  | Some _ => if force then <[kv.1 := kv.2]> labels else labels
  | None => <[kv.1 := kv.2]> labels
  end.

(** The map [insertLabelsJSON] has before it reads the recipe: the existing
    labels, overlaid by the [.build.labels] file, overlaid by the build's
    own labels. *)
Definition mergedLabels (env : LabelEnv) (b : Bundle)
  : outcome (gmap string string) :=
  labels ← getExistingLabels env ∅ ;;;
  content ← orErrorf "while reading .build.labels: " (buildLabelsFile env) ;;;
  labels ←
    (match content with
     | Some text =>
         _ ← removeBuildLabels env ;;;
         Ok (insertAll (map_to_list (parser.GetLabels text)) labels)
     | None => Ok labels
     end) ;;;
  Ok (addBuildLabels env b labels).

(** [insertLabelsJSON]: the map that is marshalled into [labels.json]. *)
Definition insertLabelsJSON (env : LabelEnv) (b : Bundle)
  : outcome (gmap string string) :=
  labels ← mergedLabels env b ;;;
  if RunSection b "labels" &&
     (0 <? size (Labels (Recipe b)))%nat
  then
    Ok (foldr (insertRecipeLabel (Force (Opts b))) labels
              (map_to_list (Labels (Recipe b))))
  else Ok labels.

(** [handleShebangScript]: the interpreter line and the text of a run,
    start or test script. *)
Definition handleShebangScript (s : Script) : string * string :=
  let '(shebang, script) :=
    if gostrings.HasPrefix (gostrings.TrimSpace (Script_Script s)) "#!" then
      match gostrings.SplitN (Script_Script s) NL 2 with
      | [split0; split1] => (gostrings.TrimSpace split0, split1)
      | split => (gostrings.TrimSpace (hd "" split), "")
      end
    else ("#!/bin/sh", Script_Script s) in
  let shebang :=
    if negb (String.eqb (Script_Args s) "") then
      shebang +:+ " " +:+ hd "" (gostrings.Split (Script_Args s) "#"%char)
    else shebang in
  (shebang, script).

(** A call of [os.WriteFile]. *)
Record fileWrite : Type := mkFileWrite {
  wname : string;
  wdata : string;
  wperm : Z
}.

(** The call of [os.WriteFile] that puts a script into the rootfs. *)
Definition writeScript (b : Bundle) (file : string) (s : Script) : fileWrite :=
  let '(shebang, script) := handleShebangScript s in
  mkFileWrite (filepath.Join [RootfsPath b; file])
              (shebang +:+ str1 NL +:+ str1 NL +:+ script +:+ str1 NL)
              493.  (* 0o755 *)

(** [insertRunScript], [insertStartScript] and [insertTestScript]: the one
    call of [os.WriteFile] each makes, none when the section is not run or
    is empty.  The error they return is the error of that call. *)
Definition insertRunScript (b : Bundle) : option fileWrite :=
  let s := Runscript (ImageData_Scripts (Recipe b)) in
  if RunSection b "runscript" && negb (String.eqb (Script_Script s) "")
  then Some (writeScript b "/.singularity.d/runscript" s)
  else None.

Definition insertStartScript (b : Bundle) : option fileWrite :=
  let s := Startscript (ImageData_Scripts (Recipe b)) in
  if RunSection b "startscript" && negb (String.eqb (Script_Script s) "")
  then Some (writeScript b "/.singularity.d/startscript" s)
  else None.

Definition insertTestScript (b : Bundle) : option fileWrite :=
  let s := ImageScripts_Test (ImageData_Scripts (Recipe b)) in
  if RunSection b "test" && negb (String.eqb (Script_Script s) "")
  then Some (writeScript b "/.singularity.d/test" s)
  else None.

End metadata.

(** ** Package [internal/pkg/build]: the orchestrator ([build.go]) *)

Module build.
Import types bundle.

(** The process state the build touches: the umask, and a log of the
    observable steps in the order they happen. *)
Inductive event : Type :=
  | EvGet (stage attempt : nat)
  | EvPack (stage : nat)
  | EvRemove (file : string)
  | EvCleanUp
  | EvAssemble (dest : string).

Record World : Type := mkWorld {
  umask : Z;
  events : list event
}.

(** [syscall.Umask]: install [mask], return the previous one. *)
Definition Umask (mask : Z) (w : World) : World * Z :=
  (mkWorld mask (events w), umask w).

Definition emit (e : event) (w : World) : World :=
  mkWorld (umask w) (events w ++ [e]).

Definition buildUmask : Z := 2.  (* 0o002 *)

Inductive Assembler : Type :=
  | SandboxAssembler (Copy : bool)
  | SIFAssembler (MksquashfsExtraArgs : list string) (MksquashfsProcs : N)
                 (MksquashfsMem MksquashfsPath : string).

(** A conveyor-packer is known by the bootstrap agent it stands for. *)
Definition ConveyorPacker : Type := string.

Record stage : Type := mkStage {
  name : string;
  b : Bundle;
  c : option ConveyorPacker;
  a : option Assembler
}.

Record Config : Type := mkConfig {
  Dest : string;
  Format : string;
  NoCleanUp : bool;
  Conf_Opts : Options
}.

Record Build : Type := mkBuild {
  stages : list stage;
  Conf : Config
}.

Record MountEntry : Type := mkMountEntry {
  Point : string;
  MountOptions : list string
}.

(** What [newBuild] asks of its surroundings.  The bundle constructors
    return a bundle and an error side by side, as the Go functions do. *)
Record NewEnv : Type := mkNewEnv {
  Abs : string → outcome string;
  GetMountInfoEntry : outcome (list MountEntry);
  MkdirTemp : nat → string → outcome string;
  NewBundle : string → string → option Bundle * option error;
  NewEncryptedBundle : string → string → option Bundle * option error;
  FindParentMountEntry : string → list MountEntry → outcome MountEntry;
  conveyorPacker : Def → outcome ConveyorPacker;
  squashfs_GetPath : outcome string;
  squashfs_GetProcs : outcome N;
  squashfs_GetMem : outcome string
}.

Definition headersError : error :=
  errorString "multiple stages detected, all must have headers".

(** [d.Header["stage"]]: a missing key, or a nil map, reads as the empty
    string. *)
Definition headerStage (d : Def) : string :=
  default "" (default ∅ (Header d) !! "stage").

(** The body of the stage-creating loop for definition [d] at index [i]. *)
Definition newStage (env : NewEnv) (conf : Config) (entries : list MountEntry)
    (lastStageIndex : Z) (i : nat) (d : Def) (sandboxCopy : bool)
  : outcome (stage * bool) :=
  if bool_decide (Header d = None) then Err headersError
  else
    let rootfsParent :=
      if String.eqb (Format conf) "sandbox" then path.Dir (Dest conf)
      else TmpDir (Conf_Opts conf) in
    parentPath ← orErrorf "failed to create build parent dir: "
                   (MkdirTemp env i rootfsParent) ;;;
    sb ←
      (if EncryptionKeyInfo (Conf_Opts conf) then
         let '(ob, oerr) :=
           NewEncryptedBundle env parentPath (TmpDir (Conf_Opts conf)) in
         match ob with
         | None => Panic "invalid memory address or nil pointer dereference"
         | Some b0 =>
             let b1 := setOpts (setUnprivilege (Unprivilege (Conf_Opts conf))
                                               (Opts b0)) b0 in
             match oerr with Some e => Err e | None => Ok b1 end
         end
       else
         let '(ob, oerr) := NewBundle env parentPath (TmpDir (Conf_Opts conf)) in
         match oerr, ob with
         | Some e, _ => Err e
         | None, Some b0 => Ok b0
         | None, None => Panic "invalid memory address or nil pointer dereference"
         end) ;;;
    let sname := headerStage d in
    let sb := setRecipe d sb in
    let isLast := bool_decide (lastStageIndex = Z.of_nat i) in
    sandboxCopy ←
      (if String.eqb (Format conf) "sandbox" && isLast then
         if negb (gostrings.HasPrefix (RootfsPath sb) parentPath) then Ok true
         else
           destEntry ← orErrorf ("failed to find mount point for " +:+
                                  rootfsParent +:+ ": ")
                         (FindParentMountEntry env rootfsParent entries) ;;;
           if bool_decide ("noexec" ∈ MountOptions destEntry) then
             Err (errorString ("'noexec' mount option set on " +:+
                    Point destEntry +:+ ", sandbox " +:+ Dest conf +:+
                    " won't be usable at this location"))
           else Ok sandboxCopy
       else Ok sandboxCopy) ;;;
    _ ←
      (if isLast then
         tmpdirEntry ← orErrorf ("failed to find mount point for " +:+
                                  TmpDir (Conf_Opts conf) +:+ ": ")
                         (FindParentMountEntry env (TmpDir (Conf_Opts conf))
                                               entries) ;;;
         if bool_decide ("noexec" ∈ MountOptions tmpdirEntry) then
           Err (errorString ("'noexec' mount option set on " +:+
                  Point tmpdirEntry +:+
                  ", temporary root filesystem won't be usable at this location"))
         else Ok tt
       else Ok tt) ;;;
    let sb := setOpts (Conf_Opts conf) sb in
    sc ←
      (if negb (Update (Conf_Opts conf)) || Force (Conf_Opts conf) then
         cp ← orErrorf "unable to get conveyorpacker: " (conveyorPacker env d) ;;;
         Ok (Some cp)
       else Ok None) ;;;
    Ok (mkStage sname sb sc None, sandboxCopy).

Fixpoint newStages (env : NewEnv) (conf : Config) (entries : list MountEntry)
    (lastStageIndex : Z) (i : nat) (defs : list Def) (acc : list stage)
    (sandboxCopy : bool) : outcome (list stage * bool) :=
  match defs with
  | [] => Ok (acc, sandboxCopy)
  | d :: defs' =>
      '(s, sandboxCopy') ←
         newStage env conf entries lastStageIndex i d sandboxCopy ;;;
      newStages env conf entries lastStageIndex (S i) defs' (acc ++ [s])
                sandboxCopy'
  end.

(** [b.stages[lastStageIndex].a = asm]; the index is out of range when there
    is no stage. *)
Definition setLastAssembler (stgs : list stage) (asm : Assembler)
  : outcome (list stage) :=
  match reverse stgs with
  | [] => Panic "index out of range [-1]"
  | s :: before =>
      Ok (reverse before ++ [mkStage (name s) (b s) (c s) (Some asm)])
  end.

Definition setFormat (fmt : string) (conf : Config) : Config :=
  mkConfig (Dest conf) fmt (NoCleanUp conf) (Conf_Opts conf).

Definition setDest (dest : string) (conf : Config) : Config :=
  mkConfig dest (Format conf) (NoCleanUp conf) (Conf_Opts conf).

(** [newBuild] between the two [Umask] calls. *)
Definition newBuildBody (env : NewEnv) (defs : list Def) (conf : Config)
  : outcome Build :=
  dest ← orErrorf ("failed to determine absolute path for " +:+ Dest conf +:+
                   ": ") (Abs env (Dest conf)) ;;;
  let conf := setDest dest conf in
  let conf := if Update (Conf_Opts conf) then setFormat "sandbox" conf
              else conf in
  entries ← orErrorf "failed to retrieve mount information: "
              (GetMountInfoEntry env) ;;;
  let lastStageIndex := Z.of_nat (length defs) - 1 in
  '(stgs, sandboxCopy) ←
     newStages env conf entries lastStageIndex 0 defs [] false ;;;
  stgs ←
    (if String.eqb (Format conf) "sandbox" then
       setLastAssembler stgs (SandboxAssembler sandboxCopy)
     else if String.eqb (Format conf) "sif" then
       mksquashfsPath ← orErrorf "while searching for mksquashfs: "
                          (squashfs_GetPath env) ;;;
       mksquashfsProcs ←
         orErrorf "while searching for mksquashfs processor limits: "
                  (squashfs_GetProcs env) ;;;
       mksquashfsMem ← orErrorf "while searching for mksquashfs mem limits: "
                         (squashfs_GetMem env) ;;;
       setLastAssembler stgs
         (SIFAssembler (MksquashfsArgs (Conf_Opts conf)) mksquashfsProcs
                       mksquashfsMem mksquashfsPath)
     else Err (errorString ("unrecognized output format " +:+ Format conf))) ;;;
  Ok (mkBuild stgs conf).

(** [newBuild]: the umask is set on entry and the deferred call restores it
    on every return. *)
Definition newBuild (env : NewEnv) (defs : list Def) (conf : Config)
    (w : World) : World * outcome Build :=
  let '(w, oldumask) := Umask buildUmask w in
  let r := newBuildBody env defs conf in
  let '(w, _) := Umask oldumask w in
  (w, r).

(** [New]. *)
Definition New (env : NewEnv) (defs : list Def) (conf : Config) (w : World)
  : World * outcome Build :=
  newBuild env defs conf w.

Definition haveBindFor (binds : list string) (destination : string) : bool :=
  existsb (fun bindpath =>
             let splitted := gostrings.Split bindpath ":"%char in
             let src := hd "" splitted in
             let dst := match splitted with
                        | _ :: d :: _ => d
                        | _ => src
                        end in
             String.eqb destination dst) binds.

(** What one stage of [Full] asks of its surroundings: the error, if any,
    of each step, the [attempt]-th answer of the conveyor's [Get], the text
    [HandlePost] returns and the session files [createStageFile] makes (an
    empty name when it makes none). *)
Record StageEnv : Type := mkStageEnv {
  runPre : outcome unit;
  GetLocalPacker : outcome unit;
  localPack : outcome unit;
  Get : nat → option error;
  Pack : outcome unit;
  HandlePost : outcome string;
  copyFilesFrom : outcome unit;
  runSetup : outcome unit;
  copyFiles : outcome unit;
  createResolv : outcome string;
  createHosts : outcome string;
  runPostScript : outcome unit;
  insertMetadata : outcome unit;
  runTestScript : outcome unit
}.

Definition retryMarker : string := "no descriptor found for reference".

(** The retry loop around [stage.c.Get].  [fuel] bounds the number of
    rounds; [None] is a loop that has not left after [fuel] rounds. *)
Fixpoint getLoop (fuel : nat) (get : nat → option error) (i attempt : nat)
    (w : World) : option (World * outcome unit) :=
  match fuel with
  | O => None
  | S fuel' =>
      let w := emit (EvGet i attempt) w in
      match get attempt with
      | None => Some (w, Ok tt)
      | Some err =>
          let attempt := S attempt in
          if negb (gostrings.Contains (Error err) retryMarker)
             || (attempt =? 5)%nat
          then Some (w, Errorf "conveyor failed to get: " err)
          else getLoop fuel' get i attempt w
      end
  end.

Definition setPostScript (script : string) (bd : Bundle) : Bundle :=
  let d := Recipe bd in
  let s := BuildData_Scripts d in
  let post := mkScript (Script_Args (Post s)) script in
  setRecipe
    (mkDef (Header d) (Labels d) (ImageData_Scripts d) (BuildData_Files d)
       (mkScripts (Arguments s) (Pre s) (Setup s) post (Scripts_Test s))
       (CustomData d) (Raw d) (FullRaw d) (AppOrder d)) bd.

(** The state [Full] runs in: the world and the calls deferred so far, the
    latest first. *)
Record frame : Type := mkFrame {
  world : World;
  deferred : list event
}.

(** A step of [Full]: the new state and a value, or the error [Full]
    returns; [None] when the retry loop ran out of rounds. *)
Definition step (A : Type) : Type := frame → option (frame * outcome A).

Definition ret {A} (x : outcome A) : step A := fun f => Some (f, x).

Definition sbind {A B} (x : step A) (k : A → step B) : step B :=
  fun f =>
    match x f with
    | None => None
    | Some (f', Ok v) => k v f'
    | Some (f', Err e) => Some (f', Err e)
    | Some (f', Panic msg) => Some (f', Panic msg)
    end.

Notation "x ⇐ y ;;; z" := (sbind y (fun x => z))
  (at level 20, y at level 100, z at level 200, right associativity,
   format "x  ⇐  y  ;;;  '/' z").

Definition inWorld (g : World → World) : step unit :=
  fun f => Some (mkFrame (g (world f)) (deferred f), Ok tt).

Definition defer (e : event) : step unit :=
  fun f => Some (mkFrame (world f) (e :: deferred f), Ok tt).

Definition when (cond : bool) (x : step unit) : step unit :=
  if cond then x else ret (Ok tt).

(** [createStageFile] unless a bind covers [dest]; a file that was made is
    removed when [Full] returns. *)
Definition sessionFile (binds : list string) (dest : string)
    (create : outcome string) : step string :=
  if negb (haveBindFor binds dest) then
    file ⇐ ret create ;;;
    _ ⇐ when (negb (String.eqb file "")) (defer (EvRemove file)) ;;;
    ret (Ok file)
  else ret (Ok "").

(** The retry loop inside [Full]. *)
Definition conveyorGet (fuel : nat) (get : nat → option error) (i : nat)
  : step unit :=
  fun f =>
    match getLoop fuel get i O (world f) with
    | None => None
    | Some (w, r) => Some (mkFrame w (deferred f), r)
    end.

(** [update]: only the last stage is updated, and only when asked for and
    not forced. *)
Definition isUpdate (bd : Build) (i : nat) (s : stage) : bool :=
  Update (Opts (b s)) && negb (Force (Opts (b s)))
  && bool_decide (Z.of_nat i = Z.of_nat (length (stages bd)) - 1).

(** One round of the stage loop of [Full], for stage [s] at index [i]. *)
Definition runStage (fuel : nat) (bd : Build) (env : StageEnv) (i : nat)
    (s : stage) : step unit :=
  _ ⇐ ret (runPre env) ;;;
  _ ⇐ (if isUpdate bd i s then
         _ ⇐ ret (GetLocalPacker env) ;;;
         ret (localPack env)
       else if negb (ImgCache (Conf_Opts (Conf bd))) then
         ret (Err (errorString "undefined image cache"))
       else
         match c s with
         | None =>
             ret (Panic "invalid memory address or nil pointer dereference")
         | Some _ =>
             _ ⇐ conveyorGet fuel (Get env) i ;;;
             _ ⇐ inWorld (emit (EvPack i)) ;;;
             ret (orErrorf "packer failed to pack: " (Pack env))
         end) ;;;
  appPost ⇐ ret (orErrorf "unable to get app post information: "
                          (HandlePost env)) ;;;
  let post :=
    Script_Script (Post (BuildData_Scripts (Recipe (b s)))) +:+ appPost in
  _ ⇐ when (RunSection (b s) "files")
        (ret (orErrorf "unable to copy files from stage to container fs: "
                       (copyFilesFrom env))) ;;;
  _ ⇐ ret (runSetup env) ;;;
  _ ⇐ when (RunSection (b s) "files")
        (ret (orErrorf "unable to copy files from host to container fs: "
                       (copyFiles env))) ;;;
  sessionResolv ⇐ sessionFile (Binds (Opts (b s))) "/etc/resolv.conf"
                     (createResolv env) ;;;
  sessionHosts ⇐ sessionFile (Binds (Opts (b s))) "/etc/hosts"
                    (createHosts env) ;;;
  _ ⇐ when (negb (String.eqb post ""))
        (ret (orErrorf "while running engine: " (runPostScript env))) ;;;
  _ ⇐ ret (orErrorf "while inserting metadata to bundle: "
                    (insertMetadata env)) ;;;
  ret (orErrorf "failed to execute %test script: " (runTestScript env)).

Fixpoint runStages (fuel : nat) (bd : Build) (envs : nat → StageEnv) (i : nat)
    (stgs : list stage) : step unit :=
  match stgs with
  | [] => ret (Ok tt)
  | s :: rest =>
      _ ⇐ runStage fuel bd (envs i) i s ;;;
      runStages fuel bd envs (S i) rest
  end.

(** The body of [Full] after [defer b.cleanUp()]: set the umask, run every
    stage, restore the umask, call the assembler of the last stage. *)
Definition fullBody (fuel : nat) (bd : Build) (envs : nat → StageEnv)
    (Assemble : outcome unit) : step unit :=
  fun f =>
    let '(w, oldumask) := Umask buildUmask (world f) in
    (_ ⇐ runStages fuel bd envs O (stages bd) ;;;
     _ ⇐ inWorld (fun w => fst (Umask oldumask w)) ;;;
     match reverse (stages bd) with
     | [] => ret (Panic "index out of range [-1]")
     | _ :: _ =>
         _ ⇐ inWorld (emit (EvAssemble (Dest (Conf bd)))) ;;;
         ret Assemble
     end) (mkFrame w (deferred f)).

(** [Full]: the deferred calls run, latest first, whatever the body
    returned. *)
Definition Full (fuel : nat) (bd : Build) (envs : nat → StageEnv)
    (Assemble : outcome unit) (w : World) : option (World * outcome unit) :=
  match fullBody fuel bd envs Assemble (mkFrame w [EvCleanUp]) with
  | None => None
  | Some (f, r) =>
      Some (mkWorld (umask (world f)) (events (world f) ++ deferred f), r)
  end.

(** The world after [n] calls of [Get] for stage [i], the first of them
    attempt [a]. *)
Definition afterGets (i a n : nat) (w : World) : World :=
  mkWorld (umask w) (events w ++ (EvGet i <$> seq a n)).

(** Does the error carry the retry marker? *)
Definition retryable (e : error) : bool :=
  gostrings.Contains (Error e) retryMarker.

(** A step that leaves the umask as it found it. *)
Definition keepsUmask {A} (x : step A) : Prop :=
  ∀ f f' r, x f = Some (f', r) → umask (world f') = umask (world f).

(** [findStageIndex]: the index of the first stage of that name; -1 and an
    error when there is none.  [i] is the index of the head of [stgs]. *)
Fixpoint findStageIndexFrom (i : Z) (stgs : list stage) (name0 : string)
  : Z * option error :=
  match stgs with
  | [] => (-1, Some (errorString ("stage " +:+ name0 +:+ " was not found")))
  | s :: rest =>
      if String.eqb name0 (name s) then (i, None)
      else findStageIndexFrom (i + 1) rest name0
  end.

Definition findStageIndex (bd : Build) (name0 : string) : Z * option error :=
  findStageIndexFrom 0 (stages bd) name0.

(** The three functions of [samber/lo] that [MakeAllDefs] calls.  [Keys]
    lists the keys of a map in the order the map yields them, which Go
    leaves open. *)
Definition lo_Keys (m : gmap string string) : list string :=
  (map_to_list m).*1.

Fixpoint lo_Uniq (l : list string) : list string :=
  match l with
  | [] => []
  | x :: l' => x :: filter (fun y => y ≠ x) (lo_Uniq l')
  end.

Definition lo_Difference (list1 list2 : list string)
  : list string * list string :=
  (filter (fun x => x ∉ list2) list1, filter (fun x => x ∉ list1) list2).

(** What [MakeAllDefs] asks of its surroundings: whether the spec is a valid
    URI, whether it opens as an image, the definition made from a URI, the
    file of that name and, for the build arguments, the defaults of a
    definition and the reader that substitutes them.  The reader comes with
    the list of consumed arguments as it stands once the reader is read. *)
Record DefsEnv : Type := mkDefsEnv {
  uriIsValid : string → bool;
  imageInit : string → bool;
  NewDefinitionFromURI : string → Def * option error;
  osOpen : string → outcome Reader;
  ReadDefaults : Def → gmap string string;
  NewReader : string → gmap string string → gmap string string →
              list string → outcome (Reader * list string)
}.

(** What [MakeAllDefs] returns: the definitions, the unused arguments and
    the error, or a panic of the parser. *)
Inductive defsResult : Type :=
  | Returned (defs : list Def) (unusedArgs : list string) (err : option error)
  | Panicked (msg : string).

(** The loop that parses every definition again, its build arguments
    substituted. *)
Fixpoint reviseDefs (env : DefsEnv) (buildArgsMap : gmap string string)
    (defs revisedDefs : list Def) (overallConsumedArgs : list string)
  : outcome (list Def * list string) :=
  match defs with
  | [] => Ok (revisedDefs, overallConsumedArgs)
  | def :: rest =>
      let defaultArgsMap := ReadDefaults env def in
      '(reader, consumed) ←
        NewReader env (Raw def) buildArgsMap defaultArgsMap
                  overallConsumedArgs ;;;
      revisedDef ← ParseDefinitionFileFrom reader ;;;
      reviseDefs env buildArgsMap rest (revisedDefs ++ [revisedDef]) consumed
  end.

Definition MakeAllDefs (env : DefsEnv) (spec : string)
    (buildArgsMap : gmap string string) : defsResult :=
  if uriIsValid env spec then
    let '(d, err) := NewDefinitionFromURI env spec in
    Returned [d] [] err
  else if imageInit env spec then
    let '(d, err) := NewDefinitionFromURI env ("localimage://" +:+ spec) in
    Returned [d] [] err
  else
    match osOpen env spec with
    | Panic msg => Panicked msg
    | Err e =>
        Returned [] [] (Some (errorString ("unable to open file " +:+ spec +:+
                                           ": " +:+ Error e)))
    | Ok defFile =>
        match AllFrom defFile with
        | Panic msg => Panicked msg
        | Err e =>
            Returned [] [] (Some (errorString ("while parsing definition: " +:+
                                               spec +:+ ": " +:+ Error e)))
        | Ok defsPreBuildArgs =>
            match reviseDefs env buildArgsMap defsPreBuildArgs [] [] with
            | Panic msg => Panicked msg
            | Err e => Returned [] [] (Some e)
            | Ok (revisedDefs, overallConsumedArgs) =>
                let fullRaw :=
                  foldl (fun acc def => acc +:+ Raw def) "" revisedDefs in
                let unusedArgs :=
                  fst (lo_Difference (lo_Keys buildArgsMap)
                                     (lo_Uniq overallConsumedArgs)) in
                Returned (setFullRaw fullRaw <$> revisedDefs) unusedArgs None
            end
        end
    end.

End build.

(** ** Package [internal/pkg/image/driver/squashfuse] *)

Module squashfuse.

(** [image.MountParams], the fields the driver reads. *)
Record MountParams : Type := mkMountParams {
  Source : string;
  Target : string;
  Filesystem : string;
  Offset : N
}.

(** [exec.Cmd]: [Args] starts with the command itself; [ExtraFiles] lists
    the files handed to the child beyond its three standard ones.  A file
    is the number of its descriptor, and [None] is the nil file. *)
Record Cmd : Type := mkCmd {
  Cmd_Path : string;
  Args : list string;
  ExtraFiles : list (option Z);
  AmbientCaps : list string
}.

(** [exec.Command(name, arg...)]. *)
Definition Command (cmdname : string) (arg : list string) : Cmd :=
  mkCmd cmdname (cmdname :: arg) [] [].

(** Descriptor [n] of the child: entry [i] of [ExtraFiles] becomes
    descriptor [3 + i], which stays closed when the entry is nil. *)
Definition childFd (cmd : Cmd) (n : nat) : option Z :=
  if (n <? 3)%nat then None
  else match ExtraFiles cmd !! (n - 3)%nat with
       | Some f => f
       | None => None
       end.

(** [uintptr(n)] and [int(fd)] on a 64-bit machine. *)
Definition uintptr (n : Z) : Z := n mod 2 ^ 64.

Definition int_of_uintptr (fd : Z) : Z :=
  if fd <? 2 ^ 63 then fd else fd - 2 ^ 64.

(** [os.NewFile(fd, name)]: nil when [int(fd)] is negative. *)
Definition NewFile (fd : Z) : option Z :=
  let fdi := int_of_uintptr fd in
  if fdi <? 0 then None else Some fdi.

Definition procFd : string := "/proc/self/fd".

(** The command [Mount] builds and starts. *)
Definition mountCmd (cmdpath : string) (params : MountParams) : Cmd :=
  let optsStr := "offset=" +:+ strconv.FormatUint (Offset params) in
  let srcPath :=
    if String.eqb (path.Dir (Source params)) procFd then "/proc/self/fd/3"
    else Source params in
  let cmd := Command cmdpath ["-f"; "-o"; optsStr; srcPath; Target params] in
  let extra :=
    if String.eqb (path.Dir (Source params)) procFd then
      let targetFd := fst (strconv.Atoi (path.Base (Source params))) in
      [NewFile (uintptr targetFd)]
    else ExtraFiles cmd in
  mkCmd (Cmd_Path cmd) (Args cmd) extra ["CAP_SYS_ADMIN"].

(** What the driver sees of the helper after starting it: whether [Start]
    failed, and at each 25 ms poll whether the process has died (with its
    exit error and standard error), whether reading the mount table failed,
    or the mount points found. *)
Inductive poll : Type :=
  | Died (waitErr stderr : string)
  | MountInfoError (msg : string)
  | MountPoints (points : list string).

Record HelperEnv : Type := mkHelperEnv {
  StartErr : option (string * string);
  polls : nat → poll
}.

Inductive mountResult : Type :=
  | Mounted (rounds : nat)
  | MountFailed (msg : string) (killed : bool).

(** The polling loop: [n] rounds are left of the eighty that fit in two
    seconds, [i] have been made. *)
Fixpoint pollLoop (env : HelperEnv) (target : string) (n i : nat) : mountResult :=
  match n with
  | O => MountFailed ("squashfuse failed to mount " +:+ target +:+ " in 2s") true
  | S n' =>
      match polls env i with
      | Died waitErr stderr =>
          MountFailed ("squashfuse failed: " +:+ waitErr +:+ ": " +:+ stderr)
                      false
      | MountInfoError msg =>
          MountFailed ("squashfuse failure to get mount info: " +:+ msg) true
      | MountPoints points =>
          if bool_decide (target ∈ points) then Mounted (S i)
          else pollLoop env target n' (S i)
      end
  end.

(** [Mount]: the command given to [Start] and what came of it.  (After a
    [Start] without error the process is never nil, so that test of the
    source has no counterpart here.) *)
Definition Mount (cmdpath : string) (params : MountParams) (env : HelperEnv)
  : Cmd * mountResult :=
  let cmd := mountCmd cmdpath params in
  match StartErr env with
  | Some (err, stderr) =>
      (cmd, MountFailed ("squashfuse Start failed: " +:+ err +:+ ": " +:+ stderr)
                        false)
  | None => (cmd, pollLoop env (Target params) 80 0)
  end.

(** What registering drivers leaves behind: the names given to
    [image.RegisterDriver], and the messages logged at the info level. *)
Inductive initEvent : Type :=
  | Registered (driverName : string)
  | Infof (msg : string).

(** What [Init] asks of its surroundings: the helper [bin.FindBin] finds,
    none when it fails; the error of [image.RegisterDriver] for a name; and
    the bits of the two features of [pkg/image]. *)
Record InitEnv : Type := mkInitEnv {
  FindBin : string → option string;
  RegisterDriver : string → option error;
  ImageFeature : Z;
  OverlayFeature : Z
}.

(** [Init]: whether the driver is active, the error, and what was
    registered and logged. *)
Definition Init (env : InitEnv) (register : bool) (desiredFeatures : Z)
  : bool * option error * list initEvent :=
  match FindBin env "squashfuse" with
  | Some binPath =>
      if negb register then (true, None, [])
      else (true, RegisterDriver env "squashfuse", [Registered "squashfuse"])
  | None =>
      (false, None,
       if negb (Z.land desiredFeatures (ImageFeature env) =? 0)
       then [Infof "squashfuse not found, will not be able to mount SIF"]
       else [])
  end.

(** [Features]. *)
Definition Features (env : InitEnv) : Z := ImageFeature env.

End squashfuse.

(** ** Package [internal/pkg/image/driver/overlayfsfuse] *)

Module overlayfsfuse.
Import squashfuse.

(** [image.MountParams], the fields this driver reads. *)
Record MountParams : Type := mkMountParams {
  Target : string;
  FSOptions : list string
}.

(** The command [Mount] builds and starts: the options joined with commas
    and the mount point; no source and no extra file. *)
Definition mountCmd (cmdpath : string) (params : MountParams) : Cmd :=
  let optsStr := gostrings.Join (FSOptions params) "," in
  let cmd := Command cmdpath ["-f"; "-o"; optsStr; Target params] in
  mkCmd (Cmd_Path cmd) (Args cmd) (ExtraFiles cmd) ["CAP_SYS_ADMIN"].

(** The polling loop, as in the squashfuse driver. *)
Fixpoint pollLoop (env : HelperEnv) (target : string) (n i : nat) : mountResult :=
  match n with
  | O => MountFailed ("fuse-overlayfs failed to mount " +:+ target +:+ " in 2s")
                     true
  | S n' =>
      match polls env i with
      | Died waitErr stderr =>
          MountFailed ("fuse-overlayfs failed: " +:+ waitErr +:+ ": " +:+ stderr)
                      false
      | MountInfoError msg =>
          MountFailed ("fuse-overlayfs failure to get mount info: " +:+ msg) true
      | MountPoints points =>
          if bool_decide (target ∈ points) then Mounted (S i)
          else pollLoop env target n' (S i)
      end
  end.

Definition Mount (cmdpath : string) (params : MountParams) (env : HelperEnv)
  : Cmd * mountResult :=
  let cmd := mountCmd cmdpath params in
  match StartErr env with
  | Some (err, stderr) =>
      (cmd, MountFailed ("fuse-overlayfs Start failed: " +:+ err +:+ ": " +:+
                         stderr) false)
  | None => (cmd, pollLoop env (Target params) 80 0)
  end.

Definition Init (env : InitEnv) (register : bool) (desiredFeatures : Z)
  : bool * option error * list initEvent :=
  match FindBin env "fuse-overlayfs" with
  | Some binPath =>
      if negb register then (true, None, [])
      else (true, RegisterDriver env "overlayfsfuse",
            [Registered "overlayfsfuse"])
  | None =>
      (false, None,
       if negb (Z.land desiredFeatures (OverlayFeature env) =? 0)
       then [Infof "fuse-overlayfs not found"]
       else [])
  end.

Definition Features (env : InitEnv) : Z := OverlayFeature env.

End overlayfsfuse.

(** ** Package [internal/pkg/image/driver]: the fuseapps driver *)

Module fuseapps.
Import squashfuse.

Definition driverName : string := "fuseapps".

(** [image.MountParams] as this driver hands it on. *)
Record MountParams : Type := mkMountParams {
  Source : string;
  Target : string;
  Filesystem : string;
  Offset : N;
  FSOptions : list string
}.

(** An [image.Driver], known by what its methods return. *)
Record Driver : Type := mkDriver {
  Driver_Features : Z;
  Driver_Mount : MountParams → option error;
  Driver_Start : option error;
  Driver_Stop : option error
}.

Record fuseappsDriver : Type := mkFuseappsDriver {
  squashImageDriver : option Driver;
  overlayfsImageDriver : option Driver
}.

(** [InitImageDrivers]: the image driver the configuration names
    afterwards, the error, and what was registered and logged.  The driver
    it registers is [&fuseappsDriver{}], with both fields nil. *)
Definition InitImageDrivers (env : InitEnv) (register unprivileged : bool)
    (ImageDriver : string) (desiredFeatures : Z)
  : string * option error * list initEvent :=
  if negb (String.eqb ImageDriver "") && negb (String.eqb ImageDriver driverName)
  then (ImageDriver, None, [])
  else if negb unprivileged then
    ((if String.eqb ImageDriver driverName then "" else ImageDriver), None, [])
  else
    let '(squashactive, err, evs1) := squashfuse.Init env register desiredFeatures in
    match err with
    | Some e =>
        (ImageDriver,
         Some (errorString ("error initializing squashfuse driver: " +:+
                            Error e)), evs1)
    | None =>
        let '(overlayactive, err, evs2) :=
          overlayfsfuse.Init env register desiredFeatures in
        match err with
        | Some e =>
            (ImageDriver,
             Some (errorString ("error initializing overlayfsfuse driver: " +:+
                                Error e)), evs1 ++ evs2)
        | None =>
            if squashactive || overlayactive then
              (driverName, RegisterDriver env driverName,
               evs1 ++ evs2 ++ [Registered driverName])
            else (ImageDriver, None, evs1 ++ evs2)
        end
    end.

(** [Features]: the driver looks its two helpers up, keeps them, and offers
    what they offer.  [GetDriver] is [image.GetDriver]. *)
Definition Features (GetDriver : string → option Driver) (d : fuseappsDriver)
  : fuseappsDriver * Z :=
  let features := 0 in
  let sq := GetDriver "squashfuse" in
  let features :=
    match sq with
    | Some drv => Z.lor features (Driver_Features drv)
    | None => features
    end in
  let ov := GetDriver "overlayfsfuse" in
  let features :=
    match ov with
    | Some drv => Z.lor features (Driver_Features drv)
    | None => features
    end in
  (mkFuseappsDriver sq ov, features).

(** [Mount]. *)
Definition Mount (d : fuseappsDriver) (params : MountParams) : option error :=
  let unregistered :=
    Some (errorString ("No image driver registered for type " +:+
                       Filesystem params)) in
  if String.eqb (Filesystem params) "overlay" then
    match overlayfsImageDriver d with
    | Some drv => Driver_Mount drv params
    | None => unregistered
    end
  else
    match squashImageDriver d with
    | Some drv => Driver_Mount drv params
    | None => unregistered
    end.

(** [Start] and [Stop]: the helper drivers called, in order, and the
    error. *)
Definition Start (d : fuseappsDriver) : list string * option error :=
  let '(calls, err) :=
    match squashImageDriver d with
    | Some drv => (["squashfuse"], Driver_Start drv)
    | None => ([], None)
    end in
  match err with
  | Some e => (calls, Some e)
  | None =>
      match overlayfsImageDriver d with
      | Some drv => (calls ++ ["overlayfsfuse"], Driver_Start drv)
      | None => (calls, None)
      end
  end.

Definition Stop (d : fuseappsDriver) : list string * option error :=
  let '(calls, err) :=
    match squashImageDriver d with
    | Some drv => (["squashfuse"], Driver_Stop drv)
    | None => ([], None)
    end in
  match err with
  | Some e => (calls, Some e)
  | None =>
      match overlayfsImageDriver d with
      | Some drv => (calls ++ ["overlayfsfuse"], Driver_Stop drv)
      | None => (calls, None)
      end
  end.

End fuseapps.

(** * The vocabulary of the properties *)

Section vocabulary.
Import types parser gostrings bundle metadata build.

(** The concatenation of the texts [ss]. *)
Definition concatS (ss : list string) : string := foldr String.append "" ss.

(** A stage text: the text of one stage as [All] cuts it.  It starts with
    the only line-anchored [bootstrap:] it holds, ends with a newline, and
    parses to a definition. *)
Definition stageText (s : string) : Prop :=
  FindAllIndex s = [0%nat]
  ∧ HasSuffix s (str1 NL) = true
  ∧ isOk (ParseDefinitionFile s) = true.

(** The offsets at which the texts [ss] start when laid end to end from
    offset [pos]. *)
Fixpoint offsets (pos : nat) (ss : list string) : list nat :=
  match ss with
  | [] => []
  | s :: ss' => pos :: offsets (pos + String.length s) ss'
  end.

(** [d] is the definition [All] returns for the stage text [s] of the
    buffer [raw]. *)
Definition stageOf (raw s : string) (d : Def) : Prop :=
  ∃ d0, ParseDefinitionFile s = Ok d0 ∧ d = setFullRaw raw d0.

(** The sections left once the standard ones are taken out. *)
Definition remaining (st : pstate) : gmap string Script :=
  removeStandard (initSections (sections st)).

(** A key that begins with a known app prefix: the prefix alone, or the
    prefix, a space and more. *)
Definition appPrefixed (k : string) : Prop :=
  ∃ p, p ∈ appSections ∧ (k = p ∨ ∃ more, k = p +:+ " " +:+ more).

(** The labels the build adds by itself. *)
Definition autoLabels (env : LabelEnv) (b : Bundle) : gmap string string :=
  addBuildLabels env b ∅.

(** The labels of the rootfs's [labels.json], none when there is no file. *)
Definition existingOf (env : LabelEnv) : gmap string string :=
  match existingLabels env with
  | Ok (Some m) => m
  | _ => ∅
  end.

(** The labels of the [.build.labels] file, none when there is no file. *)
Definition buildFileLabels (env : LabelEnv) : gmap string string :=
  match buildLabelsFile env with
  | Ok (Some text) => GetLabels text
  | _ => ∅
  end.

(** The map the recipe's labels are checked against. *)
Definition mergedOf (env : LabelEnv) (b : Bundle) : gmap string string :=
  autoLabels env b ∪ (buildFileLabels env ∪ existingOf env).

(** The recipe's labels that are read: none unless the section is run. *)
Definition recipeLabels (b : Bundle) : gmap string string :=
  if RunSection b "labels" then Labels (Recipe b) else ∅.

Definition schemaVersionKey : string := "org.label-schema.schema-version".
Definition buildDateKey : string := "org.label-schema.build-date".
Definition versionKey : string := "org.label-schema.usage.apptainer.version".
Definition buildArchKey : string := "org.label-schema.build-arch".

(** The configuration the stage loop of [newBuild] runs with. *)
Definition stageConf (dest : string) (conf : Config) : Config :=
  let conf := setDest dest conf in
  if Update (Conf_Opts conf) then setFormat "sandbox" conf else conf.

(** ** Lines and tokens *)

(** A line: a text that holds no newline. *)
Definition isLine (l : string) : Prop := hasByte NL l = false.

(** Does the scanner take [l] for the first line of a section? *)
Definition sectionLine (l : string) : bool := startsSection (bufio.dropCR l).

(** The lines at the head of [ls] that start no section, and the lines from
    the first one that does. *)
Fixpoint tokenLines (ls : list string) : list string :=
  match ls with
  | [] => []
  | l :: ls' => if sectionLine l then [] else l :: tokenLines ls'
  end.

Fixpoint afterToken (ls : list string) : list string :=
  match ls with
  | [] => []
  | l :: ls' => if sectionLine l then ls else afterToken ls'
  end.

(** The token the scanner makes of the lines [g]. *)
Definition tokenOf (g : list string) : string := unlines (bufio.dropCR <$> g).

(** The lines of one token: a first line and lines that start no section. *)
Definition tokenGroup (g : list string) : Prop :=
  ∃ l t, g = l :: t ∧ Forall (fun x => sectionLine x = false) t.

(** The lines of a token that opens with a section line. *)
Definition sectionGroup (g : list string) : Prop :=
  ∃ l t, g = l :: t ∧ sectionLine l = true.

(** A line that is blank or a comment once trimmed. *)
Definition blankOrComment (l : string) : Prop :=
  isCommentOrBlank (TrimSpace l) = true.

(** The first line of a section: the sign, the name as written and the
    arguments, if any, after a space. *)
Definition sectionHead (name : string) (args : option string) : string :=
  "%" +:+ name +:+ match args with Some a => " " +:+ a | None => "" end.

(** ** The stages of a build *)

(** [s] is the stage [newBuild] makes for the definition [d] under the
    options [opts]: it carries the definition and the options, is named by
    the [stage] entry of the header, and has a conveyor unless the build
    updates an image without force. *)
Definition stageFor (opts : Options) (d : Def) (s : stage) : Prop :=
  Recipe (b s) = d
  ∧ Opts (b s) = opts
  ∧ name s = headerStage d
  ∧ (is_Some (c s) ↔ Update opts = false ∨ Force opts = true).

(** The error of a call through a nil interface or pointer. *)
Definition nilDereference : string :=
  "invalid memory address or nil pointer dereference".

(** ** The log of a build *)

(** An event of the stage loop or the assembler. *)
Definition stageEvent (e : event) : bool :=
  match e with
  | EvGet _ _ | EvPack _ | EvAssemble _ => true
  | _ => false
  end.

(** The removal of a session file. *)
Definition removal (e : event) : bool :=
  match e with
  | EvRemove _ => true
  | _ => false
  end.

(** A step that adds stage events to the log and defers removals only. *)
Definition logsStage {A} (x : step A) : Prop :=
  ∀ f f' r, x f = Some (f', r) →
    ∃ evs ds, events (world f') = events (world f) ++ evs
              ∧ deferred f' = ds ++ deferred f
              ∧ forallb stageEvent evs = true
              ∧ forallb removal ds = true.

(** ** Labels *)

(** A label as [GetLabels] reads it: the key is not empty, holds no space
    and does not start with a comment sign; the value has no white space at
    either end. *)
Definition labelEntry (k v : string) : Prop :=
  k ≠ "" ∧ hasByte " " k = false ∧ HasPrefix k "#" = false ∧ TrimSpace v = v.

(** ** The parser's working state *)

(** The state is in order: every app and every arguments text of a files
    block is listed once, and every app listed has a section of its own,
    under a key made of a word, a space and the app's name. *)
Definition pstateOK (st : pstate) : Prop :=
  NoDup (appOrder st)
  ∧ NoDup (Files_Args <$> files st)
  ∧ ∀ a, a ∈ appOrder st →
         ∃ name, hasByte " " name = false
                 ∧ is_Some (sections st !! (name +:+ " " +:+ a)).

(** A byte of ASCII. *)
Definition asciiByte (c : ascii) : bool := (nat_of_ascii c <? 128)%nat.

(** A byte of a word: a byte of ASCII that is no white space. *)
Definition inWord (c : ascii) : bool := asciiByte c && negb (isSpace c).

(** A byte of a plain word of a files line: a byte of a word that is no
    quote and no opening brace. *)
Definition wordByte (c : ascii) : bool :=
  inWord c && notSpaceQuote c && negb (Ascii.eqb c "{").

(** What the matcher does for a star over a class of bytes: it passes the
    bytes of the class and hands the rest to the continuation, giving back
    a byte at a time while the continuation fails. *)
Fixpoint starCls (f : ascii → bool) (k : string → option string)
    (s : string) : option string :=
  match s with
  | String c s' =>
      if f c then
        match starCls f k s' with
        | Some x => Some x
        | None => k s
        end
      else k s
  | "" => k ""
  end.

(** A text that is empty or starts with white space, as the expression of
    a files line sees it. *)
Definition wordEnds (tail : string) : Prop :=
  tail = "" ∨ ∃ c t, tail = String c t ∧ regexp.cls_s c = true.

(** The files to copy that the blocks [fs] list under the arguments
    [args], in their order. *)
Definition filesFor (args : string) (fs : list Files) : list FileTransport :=
  concat (Files_Files <$> filter (fun f => Files_Args f = args) fs).

(** The header of a definition is nil, or holds an entry and only valid
    keywords. *)
Definition headerOK (d : Def) : Prop :=
  ∀ hm, Header d = Some hm →
        hm ≠ ∅ ∧ ∀ k, is_Some (hm !! k) → headerKeyOK k = true.

(** ** Definitions with build arguments *)

(** [revs] are the definitions made of the stages [found], one after the
    other: each is parsed from the text that the reader of the build
    arguments gives for the raw text of its stage, and each reader takes
    the list of consumed arguments from the one before it, the first one
    [c], and the last one leaves [consumed]. *)
Fixpoint revisedFrom (env : DefsEnv) (args : gmap string string)
    (found revs : list Def) (c consumed : list string) : Prop :=
  match found, revs with
  | [], [] => consumed = c
  | def :: found', rev :: revs' =>
      ∃ c', NewReader env (Raw def) args (ReadDefaults env def) c
            = Ok (Ok (Raw rev), c')
            ∧ ParseDefinitionFile (Raw rev) = Ok (setFullRaw (Raw rev) rev)
            ∧ revisedFrom env args found' revs' c' consumed
  | _, _ => False
  end.

(** ** Scripts *)

(** An interpreter line with the arguments of its section, up to a comment
    sign. *)
Definition withArgs (args shebang : string) : string :=
  if String.eqb args "" then shebang
  else shebang +:+ " " +:+ trimComment args.

(** ** Polling a helper *)

(** At poll [j] the helper is alive and the mount table does not yet list
    [target]. *)
Definition notYetMounted (env : squashfuse.HelperEnv) (target : string)
    (j : nat) : Prop :=
  ∃ ps, squashfuse.polls env j = squashfuse.MountPoints ps ∧ target ∉ ps.

(** At poll [j] the helper is alive and the mount table lists [target]. *)
Definition mountedAt (env : squashfuse.HelperEnv) (target : string)
    (j : nat) : Prop :=
  ∃ ps, squashfuse.polls env j = squashfuse.MountPoints ps ∧ target ∈ ps.

End vocabulary.

(** * Sample inputs *)

Section samples.
Import types parser gostrings bundle metadata build squashfuse.

Definition recipeExtra : string :=
  unlines ["Bootstrap: docker"; "From: busybox"; "%extra"; "echo hi"].

(** An app section, its keyword in lower case and with a capital. *)
Definition recipeApp : string :=
  unlines ["Bootstrap: docker"; "From: busybox"; "%appinstall foo"; "make"].

Definition recipeAppCapital : string :=
  unlines ["Bootstrap: docker"; "From: busybox"; "%AppInstall foo"; "make"].

Definition recipeContinued : string :=
  unlines ["Bootstrap: docker"; "From: busy" +:+ str1 backslash; "box"].

Definition recipeBlankInContinuation : string :=
  unlines ["Bootstrap: docker"; "From: busy" +:+ str1 backslash; ""; "box"].

Definition recipeCommentInContinuation : string :=
  unlines ["Bootstrap: docker"; "From: busy" +:+ str1 backslash; "# tag";
           "box"].

Definition recipeQuoteOnly : string :=
  unlines ["Bootstrap: docker"; "From: busybox"; "%files"; str1 dquote].

Definition stageBuild : string :=
  unlines ["Bootstrap: docker"; "From: golang"; "Stage: build"; "%post"; "make"].

Definition stageFinal : string :=
  unlines ["Bootstrap: docker"; "From: alpine"; "Stage: final";
           "%files from build"; "/out/app /usr/bin/app"].

Definition sampleOpts : Options :=
  mkOptions false false "/tmp" [] ["all"] false true false [] "amd64" "" "".

(** The same options without an image cache. *)
Definition noCacheOpts : Options :=
  mkOptions false false "/tmp" [] ["all"] false false false [] "amd64" "" "".

Definition dockerHeader : gmap string string :=
  <["from" := "busybox"]> {["bootstrap" := "docker"]}.

(** A definition with a header that has no [stage] entry. *)
Definition defNoStage : Def := setHeader (Some dockerHeader) (zeroDef "" "").

(** A definition with the labels [A 3] and a build-arch label of its own. *)
Definition defLabelled : Def :=
  mkDef (Some dockerHeader)
        (<["org.label-schema.build-arch" := "mine"]> {["A" := "3"]})
        (ImageData_Scripts defNoStage) [] (BuildData_Scripts defNoStage)
        None "" "" [].

Definition sampleTime : BuildTime :=
  mkBuildTime "Friday" 30 "October" 2026 18 50 7 "UTC".

(** A rootfs whose [labels.json] holds [A = 1] and whose [.build.labels]
    file holds the line [A 2]. *)
Definition sampleLabelEnv : LabelEnv :=
  mkLabelEnv (Ok (Some {["A" := "1"]})) (Ok (Some "A 2")) (Ok tt)
             sampleTime "1.4.0" {["amd64" := "amd64"]}.

Definition sampleBundle : Bundle :=
  mkBundle "/tmp/build-temp-0/rootfs" "/tmp" defLabelled sampleOpts.

(** What [insertLabelsJSON] writes for them. *)
Definition sampleLabels : gmap string string :=
  Eval vm_compute in
    match insertLabelsJSON sampleLabelEnv sampleBundle with
    | Ok labels => labels
    | _ => ∅
    end.

Definition rootEntry : MountEntry := mkMountEntry "/" ["rw"; "relatime"].

(** Surroundings in which every step of [newBuild] succeeds. *)
Definition sampleNewEnv : NewEnv :=
  mkNewEnv (fun p => Ok p) (Ok [rootEntry])
           (fun i parent => Ok (parent +:+ "/build-temp-" +:+
                                strconv.FormatUint (N.of_nat i)))
           (fun parent tmp =>
              (Some (mkBundle (parent +:+ "/rootfs") tmp (zeroDef "" "")
                              sampleOpts), None))
           (fun parent tmp => (None, Some (errorString "no key")))
           (fun _ _ => Ok rootEntry)
           (fun _ => Ok "docker")
           (Ok "/usr/bin/mksquashfs") (Ok 4%N) (Ok "1G").

Definition sampleConf : Config :=
  mkConfig "/out/image.sif" "sif" false sampleOpts.

Definition sampleStage : stage :=
  mkStage "" (mkBundle "/tmp/build-temp-0/rootfs" "/tmp" defNoStage sampleOpts)
          (Some "docker") (Some (SIFAssembler [] 4 "1G" "/usr/bin/mksquashfs")).

Definition sampleBuild : Build := mkBuild [sampleStage] sampleConf.

(** The same build without an image cache. *)
Definition noCacheBuild : Build :=
  mkBuild [mkStage "" (mkBundle "/tmp/build-temp-0/rootfs" "/tmp" defNoStage
                                noCacheOpts)
                   (Some "docker")
                   (Some (SIFAssembler [] 4 "1G" "/usr/bin/mksquashfs"))]
          (mkConfig "/out/image.sif" "sif" false noCacheOpts).

(** Surroundings in which every step of a stage succeeds. *)
Definition okStageEnv : StageEnv :=
  mkStageEnv (Ok tt) (Ok tt) (Ok tt) (fun _ => None) (Ok tt) (Ok "") (Ok tt)
             (Ok tt) (Ok tt) (Ok "") (Ok "") (Ok tt) (Ok tt) (Ok tt).

Definition missingDescriptor : error :=
  errorString "GET manifest: no descriptor found for reference latest".

(** A conveyor that fails twice with the retry marker and then with another
    error. *)
Definition flakyStageEnv : StageEnv :=
  mkStageEnv (Ok tt) (Ok tt) (Ok tt)
             (fun attempt => if (attempt <? 2)%nat then Some missingDescriptor
                             else Some (errorString "unauthorized"))
             (Ok tt) (Ok "") (Ok tt)
             (Ok tt) (Ok tt) (Ok "") (Ok "") (Ok tt) (Ok tt) (Ok tt).

(** The umask 0o022 and an empty log. *)
Definition sampleWorld : World := mkWorld 18 [].

Definition sampleFrame : frame := mkFrame sampleWorld [EvCleanUp].

(** The mount request of scenario S6. *)
Definition fdMount : MountParams :=
  mkMountParams "/proc/self/fd/7" "/mnt/x" "squashfs" 1024.

(** A request whose source names no descriptor. *)
Definition noFdMount : MountParams :=
  mkMountParams "/proc/self/fd/-1" "/mnt/x" "squashfs" 1024.

Definition helperMounts : HelperEnv :=
  mkHelperEnv None (fun _ => MountPoints ["/mnt/x"]).

Definition squashfusePath : string := "/usr/libexec/apptainer/bin/squashfuse_ll".

(** A recipe that names an app and a files block more than once. *)
Definition recipeRepeats : string :=
  unlines ["Bootstrap: docker"; "%appinstall foo"; "make"; "%files"; "/a";
           "%apprun foo"; "run"; "%files"; "/b /c"].

(** What the parser makes of it. *)
Definition parsedRepeats : Def :=
  Eval vm_compute in
    match ParseDefinitionFile recipeRepeats with
    | Ok d => d
    | _ => zeroDef "" ""
    end.

(** A post section of 16384 lines, more than a scanner buffer holds. *)
Definition longPost : list string :=
  "%post" :: replicate (N.to_nat 16384) "true".

(** The options of an update without force, and surroundings in which the
    definition is read from a file named by the spec. *)
Definition updateOpts : Options :=
  mkOptions true false "/tmp" [] ["all"] false true false [] "amd64" "" "".

Definition updateConf : Config :=
  mkConfig "/out/sandbox" "sif" false updateOpts.

(** Surroundings of [MakeAllDefs] in which the spec names a file that holds
    the two sample stages, and the reader for the build arguments hands the
    text on as it is and consumes the argument VERSION. *)
Definition sampleDefsEnv : DefsEnv :=
  mkDefsEnv (fun _ => false) (fun _ => false)
            (fun _ => (zeroDef "" "", None))
            (fun _ => Ok (Ok (concatS [stageBuild; stageFinal])))
            (fun _ => ∅)
            (fun raw _ _ consumed => Ok (Ok raw, consumed ++ ["VERSION"])).

Definition sampleBuildArgs : gmap string string :=
  <["UNUSED" := "x"]> {["VERSION" := "1.0"]}.

(** A helper that shows the mount at its third poll. *)
Definition slowHelper : HelperEnv :=
  mkHelperEnv None (fun j => if (j <? 2)%nat then MountPoints ["/"]
                             else MountPoints ["/"; "/mnt/x"]).

(** Surroundings in which only the squashfuse helper is installed and every
    registration succeeds. *)
Definition squashOnlyEnv : InitEnv :=
  mkInitEnv (fun name => if String.eqb name "squashfuse"
                         then Some "/usr/libexec/apptainer/bin/squashfuse"
                         else None)
            (fun _ => None) 1 2.

(** A bundle whose run script names its interpreter. *)
Definition runBundle : Bundle :=
  mkBundle "/tmp/build-temp-0/rootfs" "/tmp"
    (mkDef (Some dockerHeader) ∅
       (mkImageScripts zeroScript zeroScript
          (mkScript "" ("#!/bin/bash" +:+ str1 NL +:+ "make"))
          zeroScript zeroScript)
       [] (BuildData_Scripts defNoStage) None "" "" [])
    sampleOpts.

End samples.

(** * Properties *)

(** ** Facts about byte strings *)

(** Split the conjunctions of a closed goal and evaluate each part. *)
Ltac by_computation :=
  repeat match goal with |- _ ∧ _ => split end; vm_compute; reflexivity.

Section string_facts.
Import gostrings.

Lemma str_app_cons (c : ascii) (s t : string) :
  String c s +:+ t = String c (s +:+ t).
Proof. reflexivity. Qed.

Lemma str_app_nil_l (s : string) : "" +:+ s = s.
Proof. reflexivity. Qed.

Lemma str_app_nil_r (s : string) : s +:+ "" = s.
Proof. induction s as [|c s IH]; [reflexivity|]. now rewrite str_app_cons, IH. Qed.

Lemma str_app_assoc (a b c : string) : (a +:+ b) +:+ c = a +:+ (b +:+ c).
Proof. induction a as [|x a IH]; [reflexivity|]. now rewrite !str_app_cons, IH. Qed.

Lemma str_length_app (s t : string) :
  String.length (s +:+ t) = (String.length s + String.length t)%nat.
Proof. induction s as [|c s IH]; [reflexivity|]. rewrite str_app_cons. cbn. now rewrite IH. Qed.

Lemma str_app_eq_nil (s t : string) : s +:+ t = "" → s = "" ∧ t = "".
Proof. destruct s; [auto|discriminate]. Qed.

Lemma str_take_app_length (s t : string) : take (String.length s) (s +:+ t) = s.
Proof. induction s as [|c s IH]; [destruct t; reflexivity|]. rewrite str_app_cons. cbn. now rewrite IH. Qed.

Lemma str_drop_app_length (s t : string) : drop (String.length s) (s +:+ t) = t.
Proof. induction s as [|c s IH]; [destruct t; reflexivity|]. rewrite str_app_cons. cbn. exact IH. Qed.

Lemma str_take_drop (n : nat) (s : string) : take n s +:+ drop n s = s.
Proof.
  revert s; induction n as [|n IH]; intros [|c s]; try reflexivity.
  cbn [take drop]. now rewrite str_app_cons, IH.
Qed.

Lemma allBytes_app f s t : allBytes f (s +:+ t) = allBytes f s && allBytes f t.
Proof.
  induction s as [|c s IH]; [reflexivity|].
  rewrite str_app_cons. cbn. rewrite IH. apply andb_assoc.
Qed.

Lemma TrimRightFunc_all f t : allBytes f t = true → TrimRightFunc f t = "".
Proof.
  induction t as [|c t IH]; [reflexivity|]. cbn.
  intros [Hc Ht]%andb_true_iff. now rewrite (IH Ht), Hc.
Qed.

Lemma TrimRightFunc_app_all f s t :
  allBytes f t = true → TrimRightFunc f (s +:+ t) = TrimRightFunc f s.
Proof.
  intros Ht. induction s as [|c s IH].
  - rewrite str_app_nil_l. now apply TrimRightFunc_all.
  - rewrite str_app_cons. cbn [TrimRightFunc]. now rewrite IH.
Qed.

Lemma TrimRightFunc_split f s :
  ∃ t, s = TrimRightFunc f s +:+ t ∧ allBytes f t = true.
Proof.
  induction s as [|c s (t & Hs & Ht)]; [exists ""; split; reflexivity|].
  cbn [TrimRightFunc]. destruct (TrimRightFunc f s) as [|c' r] eqn:E.
  - rewrite str_app_nil_l in Hs. subst t. destruct (f c) eqn:Hc.
    + exists (String c s). split; [reflexivity|]. cbn. now rewrite Hc.
    + exists s. split; [reflexivity|exact Ht].
  - exists t. rewrite str_app_cons, <- Hs. auto.
Qed.

Lemma str_app_inv_length (s t u : string) :
  s +:+ t = u →
  s = take (String.length u - String.length t) u
  ∧ t = drop (String.length u - String.length t) u.
Proof.
  intros <-. rewrite str_length_app.
  replace (String.length s + String.length t - String.length t)%nat
    with (String.length s) by lia.
  now rewrite str_take_app_length, str_drop_app_length.
Qed.

Lemma hasByte_app (c : ascii) (s t : string) :
  hasByte c (s +:+ t) = hasByte c s || hasByte c t.
Proof.
  induction s as [|a s IH]; [reflexivity|].
  rewrite str_app_cons. cbn [hasByte]. now rewrite IH, orb_assoc.
Qed.

Lemma cut_app (c : ascii) (a b : string) :
  hasByte c a = false → cut (a +:+ String c b) c = Some (a, b).
Proof.
  induction a as [|x a IH]; intros H.
  - rewrite str_app_nil_l. cbn [cut]. now rewrite Ascii.eqb_refl.
  - cbn [hasByte] in H. apply orb_false_iff in H as [Hx Ha].
    rewrite str_app_cons. cbn [cut]. now rewrite Hx, (IH Ha).
Qed.

Lemma cut_Some (c : ascii) (s a b : string) :
  cut s c = Some (a, b) → s = a +:+ String c b ∧ hasByte c a = false.
Proof.
  revert a; induction s as [|x s IH]; intros a; [discriminate|].
  cbn [cut]. destruct (Ascii.eqb_spec x c) as [->|Hx].
  - intros [= <- <-]. split; reflexivity.
  - destruct (cut s c) as [[a' b']|]; [|discriminate].
    intros [= <- <-]. destruct (IH a' eq_refl) as [-> Ha].
    split; [reflexivity|]. cbn [hasByte].
    rewrite Ha, orb_false_r. now apply Ascii.eqb_neq.
Qed.

Lemma cut_None (c : ascii) (s : string) :
  cut s c = None → hasByte c s = false.
Proof.
  induction s as [|x s IH]; [reflexivity|]. cbn [cut hasByte].
  destruct (Ascii.eqb x c); [discriminate|].
  destruct (cut s c) as [[a b]|]; [discriminate|]. auto.
Qed.

Lemma Split_app (c : ascii) (a b : string) :
  hasByte c a = false → Split (a +:+ String c b) c = a :: Split b c.
Proof.
  induction a as [|x a IH]; intros H.
  - rewrite str_app_nil_l. cbn [Split]. now rewrite Ascii.eqb_refl.
  - cbn [hasByte] in H. apply orb_false_iff in H as [Hx Ha].
    rewrite str_app_cons. cbn [Split]. now rewrite Hx, (IH Ha).
Qed.

Lemma Split_none (c : ascii) (s : string) :
  hasByte c s = false → Split s c = [s].
Proof.
  induction s as [|a s IH]; [reflexivity|]. cbn [hasByte Split].
  intros [Ha Hs]%orb_false_iff. now rewrite Ha, (IH Hs).
Qed.

Lemma allBytes_impl (f g : ascii → bool) (s : string) :
  (∀ c, f c = true → g c = true) → allBytes f s = true → allBytes g s = true.
Proof.
  intros Hfg. induction s as [|c s IH]; [reflexivity|]. cbn [allBytes].
  intros [Hc Hs]%andb_true_iff. now rewrite (Hfg _ Hc), (IH Hs).
Qed.

Lemma hasByte_cut (c : ascii) (s : string) :
  hasByte c s = false → cut s c = None.
Proof.
  induction s as [|a s IH]; [reflexivity|]. cbn.
  intros [Ha Hs]%orb_false_iff. rewrite Ha, (IH Hs). reflexivity.
Qed.

End string_facts.

(** ** The scanner makes progress *)

Section scanner.
Import types parser gostrings.

(** Every entry of [bufio.lines data] but the first starts strictly inside
    [data]. *)
Lemma lines_here (data : string) :
  match bufio.lines data with
  | [] => data = ""
  | (_, here) :: rest =>
      here = data
      ∧ Forall (fun lh => (String.length lh.2 < String.length data)%nat) rest
  end.
Proof.
  induction data as [|c data IH]; [reflexivity|].
  cbn [bufio.lines]. destruct (Ascii.eqb c NL).
  - split; [reflexivity|]. destruct (bufio.lines data) as [|[l h] rest].
    + constructor.
    + destruct IH as [-> IH]. constructor; [cbn; lia|].
      eapply Forall_impl; [exact IH|]. intros [? ?] ?. cbn in *. lia.
  - destruct (bufio.lines data) as [|[l h] rest].
    + split; [reflexivity|constructor].
    + destruct IH as [_ IH]. split; [reflexivity|].
      eapply Forall_impl; [exact IH|]. intros [? ?] ?. cbn in *. lia.
Qed.

Lemma scanLoop_rest (n : nat) (ls : list (string * string)) :
  Forall (fun lh => (String.length lh.2 < n)%nat) ls →
  ∀ inSection first retbuf,
    (String.length (scanLoop ls inSection first retbuf).1 < n
     ∨ (scanLoop ls inSection first retbuf).1 = "")%nat.
Proof.
  induction 1 as [|[l h] ls Hh _ IH]; intros inSection first retbuf.
  - right. reflexivity.
  - cbn [scanLoop]. destruct (startsSection _).
    + destruct inSection; [left; exact Hh|].
      destruct first; [apply IH|left; exact Hh].
    + apply IH.
Qed.

(** A call of the split function on a non-empty input consumes some of
    it. *)
Lemma scanDefinitionFile_progress (data : string) :
  data ≠ "" →
  (String.length (scanDefinitionFile data).1 < String.length data)%nat.
Proof.
  intros Hne. unfold scanDefinitionFile.
  pose proof (lines_here data) as H.
  destruct (bufio.lines data) as [|[l h] rest]; [contradiction|].
  destruct H as [-> Hrest]. cbn [scanLoop].
  assert (Hpos : (0 < String.length data)%nat)
    by (destruct data; [contradiction|cbn; lia]).
  destruct (startsSection _);
    match goal with
    | |- context [scanLoop rest ?a ?b ?c] =>
        destruct (scanLoop_rest _ rest Hrest a b c) as [H|H];
          [exact H|rewrite H; exact Hpos]
    end.
Qed.

(** The fuel [ParseDefinitionFile] gives the scanner is enough: more fuel
    yields the same tokens. *)
Lemma scanTokens_fuel :
  ∀ (fuel : nat) (input : string),
    (String.length input < fuel)%nat →
    scanTokens fuel input = scanTokens (S (String.length input)) input.
Proof.
  assert (H : ∀ n fuel input,
            (String.length input < n)%nat → (String.length input < fuel)%nat →
            scanTokens fuel input = scanTokens n input).
  { induction n as [|n IH]; intros fuel input Hn Hf; [lia|].
    destruct fuel as [|fuel]; [lia|]. cbn [scanTokens].
    destruct (String.eqb_spec input "") as [->|Hne]; [reflexivity|].
    pose proof (scanDefinitionFile_progress input Hne) as Hp.
    destruct (scanDefinitionFile input) as [rest tok]. cbn [fst] in Hp.
    destruct (_ <=? _)%N; [|reflexivity].
    rewrite (IH fuel rest) by lia. reflexivity. }
  intros fuel input Hf. apply H; [lia|exact Hf].
Qed.

Lemma scanLoop_token (ls : list (string * string)) :
  ∀ inSection first retbuf,
    retbuf ≠ "" → (scanLoop ls inSection first retbuf).2 ≠ "".
Proof.
  induction ls as [|[l h] ls IH]; intros inSection first retbuf Hne; [exact Hne|].
  assert (Hgrow : retbuf +:+ bufio.dropCR l +:+ str1 NL ≠ "").
  { intros [? _]%str_app_eq_nil. contradiction. }
  cbn [scanLoop]. destruct (startsSection _).
  - destruct inSection; [exact Hne|]. destruct first; [apply IH, Hgrow|exact Hne].
  - apply IH, Hgrow.
Qed.

(** Every token the scanner delivers is non-empty: a [Scan] never has a nil
    token to pass over. *)
Lemma scanDefinitionFile_token (data : string) :
  data ≠ "" → (scanDefinitionFile data).2 ≠ "".
Proof.
  intros Hne. unfold scanDefinitionFile.
  pose proof (lines_here data) as H.
  destruct (bufio.lines data) as [|[l h] rest]; [contradiction|].
  assert (Hgrow : ∀ x, "" +:+ x +:+ str1 NL ≠ "").
  { intros x E. rewrite str_app_nil_l in E.
    apply str_app_eq_nil in E as [_ [=]]. }
  cbn [scanLoop]. destruct (startsSection _); apply scanLoop_token, Hgrow.
Qed.

End scanner.

(** ** Decimal numerals *)

Section decimal.
Import strconv.

Lemma digits_of_uint (d : Decimal.uint) :
  allDigits (NilEmpty.string_of_uint d) = true.
Proof. induction d; simpl; auto. Qed.

Lemma digitsVal_of_uint_acc (d : Decimal.uint) (acc : positive) :
  digitsVal (Z.pos acc) (NilEmpty.string_of_uint d)
  = Z.pos (Pos.of_uint_acc d acc).
Proof.
  revert acc; induction d; intros acc; simpl; trivial;
    (etrans; [|apply IHd]); f_equal;
    match goal with
    | |- context [digitVal ?c] =>
        let v := eval vm_compute in (digitVal c) in
        change (digitVal c) with v
    end; lia.
Qed.

Lemma digitsVal_of_uint (d : Decimal.uint) :
  digitsVal 0 (NilEmpty.string_of_uint d) = Z.of_N (Pos.of_uint d).
Proof.
  induction d; simpl; trivial;
    match goal with
    | |- context [digitVal ?c] =>
        let v := eval vm_compute in (digitVal c) in
        change (digitVal c) with v
    end; apply digitsVal_of_uint_acc.
Qed.

Lemma FormatUint_digits (n : N) :
  ∃ c s, FormatUint n = String c s ∧ gostrings.isDigit c = true
         ∧ allDigits (FormatUint n) = true
         ∧ digitsVal 0 (FormatUint n) = Z.of_N n.
Proof.
  unfold FormatUint.
  assert (Hv : digitsVal 0 (NilZero.string_of_uint (N.to_uint n)) = Z.of_N n).
  { rewrite <- (DecimalN.Unsigned.of_to n) at 2. unfold N.of_uint.
    destruct (N.to_uint n) eqn:E; try apply digitsVal_of_uint. reflexivity. }
  assert (Hd : allDigits (NilZero.string_of_uint (N.to_uint n)) = true).
  { destruct (N.to_uint n); try apply digits_of_uint. reflexivity. }
  destruct (NilZero.string_of_uint (N.to_uint n)) as [|c s] eqn:E.
  - destruct (N.to_uint n); discriminate.
  - exists c, s. repeat split; trivial.
    simpl in Hd. apply andb_true_iff in Hd. tauto.
Qed.

Lemma Atoi_FormatUint (n : N) :
  (n < 2 ^ 63)%N → Atoi (FormatUint n) = (Z.of_N n, true).
Proof.
  intros Hn. destruct (FormatUint_digits n) as (c & s & E & Hc & Hd & Hv).
  unfold Atoi. rewrite E in *.
  assert (Hp : Ascii.eqb c "+" = false).
  { destruct (Ascii.eqb_spec c "+"%char); trivial. subst; discriminate. }
  assert (Hm : Ascii.eqb c "-" = false).
  { destruct (Ascii.eqb_spec c "-"%char); trivial. subst; discriminate. }
  rewrite Hp, Hm. cbn [String.eqb orb]. rewrite Hd. cbn [negb].
  rewrite Hv.
  assert (Z.of_N n < 2 ^ 63) by (change (2 ^ 63) with (Z.of_N (2 ^ 63)); lia).
  unfold minInt64, maxInt64.
  destruct (Z.ltb_spec (Z.of_N n) (-9223372036854775808)); [lia|].
  destruct (Z.ltb_spec 9223372036854775807 (Z.of_N n)); [lia|]. reflexivity.
Qed.

End decimal.

(** ** Paths under [/proc/self/fd] *)

Section squashfuse_mount.
Import squashfuse.

Lemma digit_not_slash (c : ascii) :
  gostrings.isDigit c = true → Ascii.eqb path.slash c = false.
Proof.
  intros H. destruct (Ascii.eqb_spec path.slash c) as [<-|]; [discriminate|trivial].
Qed.

Lemma digit_not_slash' (c : ascii) :
  gostrings.isDigit c = true → Ascii.eqb c path.slash = false.
Proof.
  intros H. destruct (Ascii.eqb_spec c path.slash) as [->|]; [discriminate|trivial].
Qed.

Lemma Split_digits (ds : string) :
  strconv.allDigits ds = true → path.Split ds = ("", ds).
Proof.
  induction ds as [|c ds IH]; simpl; trivial.
  intros [Hc Hd]%andb_true_iff. rewrite (IH Hd). simpl.
  rewrite (digit_not_slash' c Hc). reflexivity.
Qed.

Lemma TrimRight_slash_digits (ds : string) :
  strconv.allDigits ds = true →
  gostrings.TrimRightFunc (Ascii.eqb path.slash) ds = ds.
Proof.
  induction ds as [|c ds IH]; trivial.
  cbn [strconv.allDigits gostrings.TrimRightFunc].
  intros [Hc Hd]%andb_true_iff. rewrite (IH Hd).
  destruct ds; trivial. rewrite (digit_not_slash c Hc). reflexivity.
Qed.

Lemma TrimRightFunc_app (f : ascii → bool) (s t : string) :
  t ≠ "" → gostrings.TrimRightFunc f t = t →
  gostrings.TrimRightFunc f (s +:+ t) = s +:+ t.
Proof.
  intros Hne Ht. induction s as [|a s IH]; [exact Ht|].
  change (String a s +:+ t) with (String a (s +:+ t)).
  cbn [gostrings.TrimRightFunc]. rewrite IH.
  destruct (s +:+ t) eqn:E; trivial.
  destruct s; [|discriminate]. contradiction.
Qed.

Lemma procfd_Split (ds : string) :
  strconv.allDigits ds = true →
  path.Split ("/proc/self/fd/" +:+ ds) = ("/proc/self/fd/", ds).
Proof.
  intros Hd. cbv [String.append]. cbn [path.Split].
  rewrite (Split_digits ds Hd). reflexivity.
Qed.

Lemma procfd_Dir (ds : string) :
  strconv.allDigits ds = true →
  path.Dir ("/proc/self/fd/" +:+ ds) = procFd.
Proof. intros Hd. unfold path.Dir. rewrite (procfd_Split ds Hd). reflexivity. Qed.

Lemma procfd_Base (c : ascii) (ds : string) :
  strconv.allDigits (String c ds) = true →
  path.Base ("/proc/self/fd/" +:+ String c ds) = String c ds.
Proof.
  intros Hd. unfold path.Base.
  assert (Ht : gostrings.TrimRightFunc (Ascii.eqb path.slash)
                 ("/proc/self/fd/" +:+ String c ds)
               = "/proc/self/fd/" +:+ String c ds).
  { apply TrimRightFunc_app; [discriminate|].
    apply TrimRight_slash_digits, Hd. }
  rewrite Ht, (procfd_Split _ Hd). reflexivity.
Qed.

Lemma Atoi_range (s : string) :
  strconv.minInt64 ≤ fst (strconv.Atoi s) ≤ strconv.maxInt64.
Proof.
  unfold strconv.Atoi.
  destruct (match s with
            | String c s' =>
                if Ascii.eqb c "+" then (false, s')
                else if Ascii.eqb c "-" then (true, s') else (false, s)
            | "" => (false, "")
            end) as [neg ds].
  destruct (String.eqb ds "" || negb (strconv.allDigits ds));
    [unfold strconv.minInt64, strconv.maxInt64; cbn [fst]; lia|].
  generalize (if neg then - strconv.digitsVal 0 ds
              else strconv.digitsVal 0 ds) as v. intros v.
  destruct (Z.ltb_spec v strconv.minInt64) as [H1|H1];
    [unfold strconv.minInt64, strconv.maxInt64; cbn [fst]; lia|].
  destruct (Z.ltb_spec strconv.maxInt64 v) as [H2|H2]; cbn [fst];
    [unfold strconv.minInt64, strconv.maxInt64; lia|lia].
Qed.

(** The file made of a number of type [int]: nil when it is negative. *)
Lemma NewFile_uintptr (n : Z) :
  strconv.minInt64 ≤ n ≤ strconv.maxInt64 →
  NewFile (uintptr n) = if n <? 0 then None else Some n.
Proof.
  unfold strconv.minInt64, strconv.maxInt64, NewFile, uintptr, int_of_uintptr.
  intros Hn. destruct (Z.ltb_spec n 0) as [Hneg|Hpos].
  - assert (n mod 2 ^ 64 = n + 2 ^ 64) as ->.
    { symmetry. apply (Z.mod_unique n (2 ^ 64) (-1)); lia. }
    destruct (Z.ltb_spec (n + 2 ^ 64) (2 ^ 63)); [lia|].
    destruct (Z.ltb_spec (n + 2 ^ 64 - 2 ^ 64) 0); [reflexivity|lia].
  - rewrite Z.mod_small by lia.
    destruct (Z.ltb_spec n (2 ^ 63)); [|lia].
    destruct (Z.ltb_spec n 0); [lia|reflexivity].
Qed.

(** C8.  The command [Mount] starts.  When the directory of the source is
    [/proc/self/fd], the arguments are [-f -o offset=<N> /proc/self/fd/3
    <target>] and the child's descriptor 3 is the file made of the number
    the last path element reads as: for the source [/proc/self/fd/<k>] that
    is descriptor [k], and for a last element that reads as a negative
    number it is the nil file, which leaves descriptor 3 closed.  For any
    other source the source argument is the path itself and no descriptor
    is handed over. *)
Theorem C8_squashfuse_mount_command
    (cmdpath : string) (params : MountParams) (env : HelperEnv) :
  let cmd := fst (Mount cmdpath params env) in
  let opts := "offset=" +:+ strconv.FormatUint (Offset params) in
  (path.Dir (Source params) = procFd →
     Args cmd = [cmdpath; "-f"; "-o"; opts; "/proc/self/fd/3"; Target params]
     ∧ childFd cmd 3 =
         (let fd := fst (strconv.Atoi (path.Base (Source params))) in
          if fd <? 0 then None else Some fd))
  ∧ (∀ k : N, (k < 2 ^ 63)%N →
       Source params = "/proc/self/fd/" +:+ strconv.FormatUint k →
       Args cmd = [cmdpath; "-f"; "-o"; opts; "/proc/self/fd/3"; Target params]
       ∧ childFd cmd 3 = Some (Z.of_N k))
  ∧ (path.Dir (Source params) ≠ procFd →
       Args cmd = [cmdpath; "-f"; "-o"; opts; Source params; Target params]
       ∧ ExtraFiles cmd = []
       ∧ ∀ n, childFd cmd n = None).
Proof.
  assert (Hcmd : fst (Mount cmdpath params env) = mountCmd cmdpath params).
  { unfold Mount. destruct (StartErr env) as [[? ?]|]; reflexivity. }
  cbv zeta. rewrite Hcmd. clear Hcmd.
  assert (Hfd : path.Dir (Source params) = procFd →
     Args (mountCmd cmdpath params)
       = [cmdpath; "-f"; "-o";
          "offset=" +:+ strconv.FormatUint (Offset params);
          "/proc/self/fd/3"; Target params]
     ∧ childFd (mountCmd cmdpath params) 3 =
         (if fst (strconv.Atoi (path.Base (Source params))) <? 0 then None
          else Some (fst (strconv.Atoi (path.Base (Source params)))))).
  { intros Hdir. unfold mountCmd, childFd. rewrite Hdir.
    split; [reflexivity|]. cbn [String.eqb Ascii.eqb Bool.eqb procFd ExtraFiles
                                 Nat.ltb Nat.leb Nat.sub lookup].
    change (procFd =? procFd)%string with true. cbn [Nat.ltb Nat.leb Nat.sub].
    change ([NewFile (uintptr (fst (strconv.Atoi (path.Base (Source params)))))]
              !! 0%nat)
      with (Some (NewFile (uintptr
                    (fst (strconv.Atoi (path.Base (Source params))))))).
    apply NewFile_uintptr, Atoi_range. }
  split; [exact Hfd|]. split.
  - intros k Hk Hsrc.
    destruct (FormatUint_digits k) as (c & s & E & Hc & Hd & Hv).
    rewrite E in Hd.
    assert (Hdir : path.Dir (Source params) = procFd).
    { rewrite Hsrc, E. apply procfd_Dir, Hd. }
    destruct (Hfd Hdir) as [Ha Hf]. split; [exact Ha|].
    rewrite Hf, Hsrc, E, (procfd_Base c s Hd), <- E, (Atoi_FormatUint k Hk).
    cbn [fst]. destruct (Z.ltb_spec (Z.of_N k) 0); [lia|reflexivity].
  - intros Hdir. unfold mountCmd.
    destruct (String.eqb_spec (path.Dir (Source params)) procFd) as [?|_];
      [contradiction|]. split; [reflexivity|]. split; [reflexivity|].
    intros n. unfold childFd. cbn [ExtraFiles Command].
    destruct (n <? 3)%nat; [reflexivity|]. now rewrite lookup_nil.
Qed.

(** The request of scenario S6: source [/proc/self/fd/7], offset 1024,
    target [/mnt/x]; and the same request for the source
    [/proc/self/fd/-1], which names no descriptor. *)
Lemma C8_squashfuse_mount_command_witness :
  (let cmd := fst (Mount squashfusePath fdMount helperMounts) in
   Args cmd = [squashfusePath; "-f"; "-o"; "offset=1024"; "/proc/self/fd/3";
               "/mnt/x"]
   ∧ childFd cmd 3 = Some 7)
  ∧ (let cmd := fst (Mount squashfusePath noFdMount helperMounts) in
     Args cmd = [squashfusePath; "-f"; "-o"; "offset=1024"; "/proc/self/fd/3";
                 "/mnt/x"]
     ∧ childFd cmd 3 = None).
Proof.
  cbv zeta. split.
  - exact (proj1 (proj2 (C8_squashfuse_mount_command
                           squashfusePath fdMount helperMounts))
                 7%N eq_refl eq_refl).
  - exact (proj1 (C8_squashfuse_mount_command
                    squashfusePath noFdMount helperMounts) eq_refl).
Defined.

End squashfuse_mount.

(** ** The orchestrator *)

Section orchestrator.
Import types bundle build.

Lemma getLoop_spec (get : nat → option error) (i : nat) :
  ∀ (fuel a : nat) (w : World),
    (a < 5)%nat → (5 - a ≤ fuel)%nat →
    ∃ n : nat,
      (a < n ≤ 5)%nat
      ∧ (∀ k, (a ≤ k < n - 1)%nat →
           ∃ e, get k = Some e ∧ retryable e = true)
      ∧ getLoop fuel get i a w
        = Some (afterGets i a (n - a) w,
                match get (n - 1)%nat with
                | None => Ok tt
                | Some e => Errorf "conveyor failed to get: " e
                end)
      ∧ (∀ e, get (n - 1)%nat = Some e → retryable e = false ∨ n = 5%nat).
Proof.
  induction fuel as [|fuel IH]; intros a w Ha Hf; [lia|].
  cbn [getLoop]. destruct (get a) as [e|] eqn:Eg.
  - destruct (negb (gostrings.Contains (Error e) retryMarker)
              || (S a =? 5)%nat) eqn:Estop.
    + exists (S a). replace (S a - 1)%nat with a by lia.
      replace (S a - a)%nat with 1%nat by lia. rewrite Eg.
      split; [lia|]. split; [intros k Hk; lia|]. split; [reflexivity|].
      intros e' [= <-]. apply orb_true_iff in Estop as [Hn|Hn].
      * left. unfold retryable. now apply negb_true_iff.
      * right. apply Nat.eqb_eq in Hn. lia.
    + apply orb_false_iff in Estop as [Hn H5].
      apply negb_false_iff in Hn. apply Nat.eqb_neq in H5.
      destruct (IH (S a) (emit (EvGet i a) w)) as (n & Hn1 & Hret & Hres & Hlast);
        [lia|lia|].
      exists n. split; [lia|]. split.
      { intros k Hk. destruct (decide (k = a)) as [->|Hne].
        - exists e. split; trivial.
        - apply Hret. lia. }
      split; [|exact Hlast]. rewrite Hres. f_equal. f_equal.
      unfold afterGets, emit. cbn [umask events]. f_equal.
      replace (n - a)%nat with (S (n - S a)) by lia.
      cbn [seq fmap list_fmap]. rewrite <- app_assoc. reflexivity.
  - exists (S a). replace (S a - 1)%nat with a by lia.
    replace (S a - a)%nat with 1%nat by lia. rewrite Eg.
    split; [lia|]. split; [intros k Hk; lia|]. split; [reflexivity|].
    intros e' [=].
Qed.

(** C3.  In a stage that is not an update (or is forced), with an image
    cache and a conveyor, [Get] is called [n] times, [1 <= n <= 5]; every
    call but the last failed with an error holding the marker; the last
    call either succeeded, and the stage goes on, or failed, and then it
    lacked the marker or was the fifth, and the stage and the stage loop of
    the build return [conveyor failed to get: <error>]. *)
Theorem C3_conveyor_retry (fuel : nat) (bd : Build) (envs : nat → StageEnv)
    (i : nat) (s : stage) (rest : list stage) (f : frame) :
  (5 ≤ fuel)%nat →
  runPre (envs i) = Ok tt →
  isUpdate bd i s = false →
  ImgCache (Conf_Opts (Conf bd)) = true →
  is_Some (c s) →
  ∃ n : nat,
    (1 ≤ n ≤ 5)%nat
    ∧ (∀ k, (k < n - 1)%nat →
         ∃ e, Get (envs i) k = Some e ∧ retryable e = true)
    ∧ let f' := mkFrame (afterGets i 0 n (world f)) (deferred f) in
      match Get (envs i) (n - 1)%nat with
      | None => conveyorGet fuel (Get (envs i)) i f = Some (f', Ok tt)
      | Some e =>
          let failure :=
            Err (errorString ("conveyor failed to get: " +:+ Error e)) in
          (retryable e = false ∨ n = 5%nat)
          ∧ runStage fuel bd (envs i) i s f = Some (f', failure)
          ∧ runStages fuel bd envs i (s :: rest) f = Some (f', failure)
      end.
Proof.
  intros Hfuel Hpre Hupd Hcache [cp Hc].
  destruct (getLoop_spec (Get (envs i)) i fuel 0 (world f))
    as (n & Hn & Hret & Hres & Hlast); [lia|lia|].
  exists n. split; [lia|]. split; [intros k Hk; apply Hret; lia|].
  cbv zeta. rewrite Nat.sub_0_r in Hres.
  assert (Hcg : conveyorGet fuel (Get (envs i)) i f
                = Some (mkFrame (afterGets i 0 n (world f)) (deferred f),
                        match Get (envs i) (n - 1)%nat with
                        | None => Ok tt
                        | Some e => Errorf "conveyor failed to get: " e
                        end)).
  { unfold conveyorGet. rewrite Hres. reflexivity. }
  destruct (Get (envs i) (n - 1)%nat) as [e|] eqn:Eg; [|exact Hcg].
  split; [apply Hlast; reflexivity|].
  assert (Hrun : runStage fuel bd (envs i) i s f
                 = Some (mkFrame (afterGets i 0 n (world f)) (deferred f),
                         Err (errorString ("conveyor failed to get: "
                                           +:+ Error e)))).
  { unfold runStage. rewrite Hpre, Hupd, Hcache, Hc.
    unfold sbind at 1. cbn [ret negb]. unfold sbind at 1. unfold sbind at 1.
    rewrite Hcg. reflexivity. }
  split; [exact Hrun|]. cbn [runStages]. unfold sbind at 1. rewrite Hrun.
  reflexivity.
Qed.

(** A conveyor that fails twice with the marker and then with another
    error is called three times. *)
Lemma C3_conveyor_retry_witness :
  ∃ n : nat,
    (1 ≤ n ≤ 5)%nat
    ∧ (∀ k, (k < n - 1)%nat →
         ∃ e, Get flakyStageEnv k = Some e ∧ retryable e = true)
    ∧ let f' := mkFrame (afterGets 0 0 n (world sampleFrame))
                        (deferred sampleFrame) in
      match Get flakyStageEnv (n - 1)%nat with
      | None => conveyorGet 5 (Get flakyStageEnv) 0 sampleFrame = Some (f', Ok tt)
      | Some e =>
          let failure :=
            Err (errorString ("conveyor failed to get: " +:+ Error e)) in
          (retryable e = false ∨ n = 5%nat)
          ∧ runStage 5 sampleBuild flakyStageEnv 0 sampleStage sampleFrame
            = Some (f', failure)
          ∧ runStages 5 sampleBuild (fun _ => flakyStageEnv) 0 [sampleStage]
                      sampleFrame
            = Some (f', failure)
      end.
Proof.
  exact (C3_conveyor_retry 5 sampleBuild (fun _ => flakyStageEnv) 0 sampleStage
           [] sampleFrame
           (le_n 5) eq_refl eq_refl eq_refl (ex_intro _ _ eq_refl)).
Defined.

End orchestrator.

Section umask.
Import types bundle build.

Lemma keeps_ret {A} (r : outcome A) : keepsUmask (ret r).
Proof. intros f f' r' [= <- _]. reflexivity. Qed.

Lemma keeps_sbind {A B} (x : step A) (k : A → step B) :
  keepsUmask x → (∀ v, keepsUmask (k v)) → keepsUmask (sbind x k).
Proof.
  intros Hx Hk f f' r. unfold sbind.
  destruct (x f) as [[f1 [v|e|m]]|] eqn:E; try discriminate.
  - intros H. rewrite (Hk v _ _ _ H). eapply Hx, E.
  - intros [= <- _]. eapply Hx, E.
  - intros [= <- _]. eapply Hx, E.
Qed.

Lemma keeps_emit (e : event) : keepsUmask (inWorld (emit e)).
Proof. intros f f' r [= <- _]. reflexivity. Qed.

Lemma keeps_defer (e : event) : keepsUmask (defer e).
Proof. intros f f' r [= <- _]. reflexivity. Qed.

Lemma keeps_when (cond : bool) (x : step unit) :
  keepsUmask x → keepsUmask (when cond x).
Proof. destruct cond; [trivial|intros _; apply keeps_ret]. Qed.

Lemma getLoop_umask (get : nat → option error) (i : nat) :
  ∀ fuel a w w' r, getLoop fuel get i a w = Some (w', r) → umask w' = umask w.
Proof.
  induction fuel as [|fuel IH]; intros a w w' r; [discriminate|].
  cbn [getLoop]. destruct (get a) as [e|].
  - destruct (_ || _).
    + intros [= <- _]. reflexivity.
    + intros H. apply IH in H. exact H.
  - intros [= <- _]. reflexivity.
Qed.

Lemma keeps_conveyorGet fuel get i : keepsUmask (conveyorGet fuel get i).
Proof.
  intros f f' r. unfold conveyorGet.
  destruct (getLoop fuel get i 0 (world f)) as [[w r0]|] eqn:E; [|discriminate].
  intros [= <- _]. cbn. eapply getLoop_umask, E.
Qed.

Lemma keeps_sessionFile binds dest create :
  keepsUmask (sessionFile binds dest create).
Proof.
  unfold sessionFile. destruct (negb _); [|apply keeps_ret].
  apply keeps_sbind; [apply keeps_ret|intros file].
  apply keeps_sbind; [apply keeps_when, keeps_defer|intros _; apply keeps_ret].
Qed.

Create HintDb umask.
#[local] Hint Resolve keeps_ret keeps_emit keeps_defer keeps_when
  keeps_conveyorGet keeps_sessionFile : umask.

Lemma keeps_runStage fuel bd env i s : keepsUmask (runStage fuel bd env i s).
Proof.
  unfold runStage.
  repeat (apply keeps_sbind; [|intros ?]); auto with umask.
  destruct (isUpdate bd i s).
  - apply keeps_sbind; auto with umask.
  - destruct (negb _); auto with umask.
    destruct (c s); auto with umask.
    repeat (apply keeps_sbind; [|intros ?]); auto with umask.
Qed.

Lemma keeps_runStages fuel bd envs :
  ∀ stgs i, keepsUmask (runStages fuel bd envs i stgs).
Proof.
  induction stgs as [|s stgs IH]; intros i; cbn [runStages].
  - apply keeps_ret.
  - apply keeps_sbind; [apply keeps_runStage|intros _; apply IH].
Qed.

(** A failed stage loop returns with the build's umask still in force. *)
Lemma fullBody_failure fuel bd envs asm f f1 e :
  runStages fuel bd envs 0 (stages bd)
    (mkFrame (fst (Umask buildUmask (world f))) (deferred f)) = Some (f1, Err e) →
  ∃ f', fullBody fuel bd envs asm f = Some (f', Err e)
        ∧ umask (world f') = buildUmask.
Proof.
  intros H. unfold fullBody. cbn [Umask fst]. cbn [Umask fst] in H.
  unfold sbind at 1. rewrite H. eexists; split; [reflexivity|].
  apply keeps_runStages in H. exact H.
Qed.

Lemma Full_success_restores fuel bd envs asm w w' :
  Full fuel bd envs asm w = Some (w', Ok tt) → umask w' = umask w.
Proof.
  unfold Full, fullBody. cbn [Umask world deferred].
  unfold sbind at 1.
  destruct (runStages _ _ _ _ _ _) as [[f1 [[]|e|m]]|] eqn:E; try discriminate.
  unfold sbind at 1. cbn [inWorld Umask fst world deferred].
  destruct (reverse (stages bd)); [discriminate|].
  unfold sbind at 1. cbn [inWorld ret]. destruct asm as [[]|?|?]; try discriminate.
  intros [= <-]. reflexivity.
Qed.

Lemma newBuild_restores env defs conf w :
  umask (fst (newBuild env defs conf w)) = umask w.
Proof. reflexivity. Qed.

(** C9.  [newBuild] leaves the umask as it found it on every return, and
    [Full] does when it returns without error; but when a stage fails,
    [Full] returns with the build's umask 0o002 still in force, as for a
    build without an image cache started under umask 0o022. *)
Theorem C9_umask_restore :
  (∀ env defs conf w, umask (fst (newBuild env defs conf w)) = umask w)
  ∧ (∀ fuel bd envs asm w w',
       Full fuel bd envs asm w = Some (w', Ok tt) → umask w' = umask w)
  ∧ (∀ fuel bd envs asm w f1 e,
       runStages fuel bd envs 0 (stages bd)
         (mkFrame (mkWorld buildUmask (events w)) [EvCleanUp])
       = Some (f1, Err e) →
       ∃ w', Full fuel bd envs asm w = Some (w', Err e)
             ∧ umask w' = buildUmask)
  ∧ Full 5 noCacheBuild (fun _ => okStageEnv) (Ok tt) sampleWorld
    = Some (mkWorld buildUmask [EvCleanUp],
            Err (errorString "undefined image cache")).
Proof.
  split; [exact newBuild_restores|]. split; [exact Full_success_restores|].
  split; [|vm_compute; reflexivity].
  intros fuel bd envs asm w f1 e H.
  destruct (fullBody_failure fuel bd envs asm (mkFrame w [EvCleanUp]) f1 e H)
    as (f' & Hf & Hu).
  unfold Full. rewrite Hf. eexists. split; [reflexivity|exact Hu].
Qed.

(** A build that succeeds under umask 0o022 ends under umask 0o022. *)
Lemma C9_umask_restore_witness :
  ∃ w', Full 5 sampleBuild (fun _ => okStageEnv) (Ok tt) sampleWorld
        = Some (w', Ok tt)
        ∧ umask w' = umask sampleWorld.
Proof.
  exists (mkWorld 18 [EvGet 0 0; EvPack 0; EvAssemble "/out/image.sif";
                      EvCleanUp]).
  split; [vm_compute; reflexivity|].
  apply (proj1 (proj2 C9_umask_restore) 5%nat sampleBuild (fun _ => okStageEnv)
               (Ok tt) sampleWorld).
  vm_compute; reflexivity.
Defined.

End umask.

Section new_build.
Import types bundle build.

Lemma obind_Ok {A B} (x : outcome A) (k : A → outcome B) (v : B) :
  obind x k = Ok v → ∃ a, x = Ok a ∧ k a = Ok v.
Proof. destruct x; try discriminate. eauto. Qed.

Lemma newStage_Ok env conf entries last i d sc s sc' :
  newStage env conf entries last i d sc = Ok (s, sc') →
  Header d ≠ None ∧ name s = headerStage d.
Proof.
  unfold newStage. case_bool_decide as Hh; [discriminate|]. intros H.
  split; [exact Hh|].
  repeat (apply obind_Ok in H as (? & _ & H)).
  injection H as <- _. reflexivity.
Qed.

Lemma newStage_nil_header env conf entries last i d sc :
  Header d = None →
  newStage env conf entries last i d sc = Err headersError.
Proof. intros H. unfold newStage. rewrite bool_decide_eq_true_2; trivial. Qed.

Lemma newStages_Ok env conf entries last :
  ∀ defs i acc sc stgs sc',
    newStages env conf entries last i defs acc sc = Ok (stgs, sc') →
    (∀ d, d ∈ defs → Header d ≠ None)
    ∧ name <$> stgs = (name <$> acc) ++ (headerStage <$> defs).
Proof.
  induction defs as [|d defs IH]; intros i acc sc stgs sc'; cbn [newStages].
  - intros [= <- _]. split; [intros d Hd; inversion Hd|].
    rewrite app_nil_r. reflexivity.
  - intros H. apply obind_Ok in H as ([s sc1] & Hs & H).
    apply newStage_Ok in Hs as [Hh Hn].
    apply IH in H as [Hall Hnames]. split.
    + intros d' [->|Hd']%elem_of_cons; auto.
    + rewrite Hnames, fmap_app, <- app_assoc. cbn. rewrite Hn. reflexivity.
Qed.

Lemma newStages_nil_header env conf entries last :
  ∀ pre i acc sc acc' sc' d rest,
    newStages env conf entries last i pre acc sc = Ok (acc', sc') →
    Header d = None →
    newStages env conf entries last i (pre ++ d :: rest) acc sc
    = Err headersError.
Proof.
  induction pre as [|p pre IH]; intros i acc sc acc' sc' d rest; cbn [newStages app].
  - intros _ Hd. rewrite (newStage_nil_header _ _ _ _ _ _ _ Hd). reflexivity.
  - intros H Hd. destruct (newStage env conf entries last i p sc) as [[s sc1]| |];
      try discriminate.
    cbn [obind] in *. eapply IH; eauto.
Qed.

Lemma setLastAssembler_names stgs asm stgs' :
  setLastAssembler stgs asm = Ok stgs' → name <$> stgs' = name <$> stgs.
Proof.
  unfold setLastAssembler. destruct (reverse stgs) as [|s before] eqn:E;
    [discriminate|].
  intros [= <-]. apply (f_equal reverse) in E. rewrite reverse_involutive in E.
  rewrite E, reverse_cons, !fmap_app. reflexivity.
Qed.

(** C4, as the code has it.  A build is constructed only if every
    definition has a header map, whatever the number of definitions; each
    stage is then named by the [stage] entry of its header, the empty
    string when the header has none.  When construction reaches a
    definition whose header map is nil, it fails with [multiple stages
    detected, all must have headers]. *)
Theorem C4_headers_required (env : NewEnv) (defs : list Def) (conf : Config)
    (w : World) :
  (∀ bd, snd (newBuild env defs conf w) = Ok bd →
     (∀ d, d ∈ defs → Header d ≠ None)
     ∧ name <$> stages bd = headerStage <$> defs)
  ∧ (∀ dest entries pre d rest acc sc,
       Abs env (Dest conf) = Ok dest →
       GetMountInfoEntry env = Ok entries →
       defs = pre ++ d :: rest →
       newStages env (stageConf dest conf) entries
                 (Z.of_nat (length defs) - 1) 0 pre [] false = Ok (acc, sc) →
       Header d = None →
       snd (newBuild env defs conf w) = Err headersError).
Proof.
  split.
  - intros bd. unfold newBuild. cbn [Umask snd]. unfold newBuildBody. intros H.
    apply obind_Ok in H as (dest & _ & H).
    apply obind_Ok in H as (entries & _ & H).
    apply obind_Ok in H as ([stgs sc] & Hst & H).
    apply obind_Ok in H as (stgs' & Hasm & H).
    injection H as <-. cbn [stages].
    apply newStages_Ok in Hst as [Hall Hnames]. split; [exact Hall|].
    transitivity (name <$> stgs); [|exact Hnames].
    destruct (String.eqb _ "sandbox").
    + eapply setLastAssembler_names, Hasm.
    + destruct (String.eqb _ "sif"); [|discriminate].
      repeat (apply obind_Ok in Hasm as (? & _ & Hasm)).
      eapply setLastAssembler_names, Hasm.
  - intros dest entries pre d rest acc sc Habs Hmi -> Hpre Hd.
    unfold newBuild. cbn [Umask snd]. unfold newBuildBody.
    rewrite Habs, Hmi. cbn [orErrorf obind]. fold (stageConf dest conf).
    rewrite (newStages_nil_header _ _ _ _ _ _ _ _ _ _ _ _ Hpre Hd). reflexivity.
Qed.

(** Two definitions with headers that have no [stage] entry: the build is
    constructed, with two stages of empty name. *)
Lemma C4_headers_required_counterexample :
  default ∅ (Header defNoStage) !! "stage" = None
  ∧ ∃ bd, snd (newBuild sampleNewEnv [defNoStage; defNoStage] sampleConf
                        sampleWorld) = Ok bd
          ∧ name <$> stages bd = [""; ""].
Proof. split; [vm_compute; reflexivity|]. eexists. split; vm_compute; reflexivity. Qed.

(** A second definition without a header map stops the construction. *)
Lemma C4_headers_required_witness :
  snd (newBuild sampleNewEnv [defNoStage; zeroDef "" ""] sampleConf sampleWorld)
  = Err headersError.
Proof.
  eapply (proj2 (C4_headers_required sampleNewEnv [defNoStage; zeroDef "" ""]
                   sampleConf sampleWorld)
            "/out/image.sif" [rootEntry] [defNoStage] (zeroDef "" "") []);
    reflexivity.
Defined.

End new_build.

Section labels.
Import types bundle metadata.

Lemma insertAll_union (kvs : list (string * string)) (m1 m2 : gmap string string) :
  insertAll kvs (m1 ∪ m2) = insertAll kvs m1 ∪ m2.
Proof.
  induction kvs as [|[k v] kvs IH]; cbn; trivial.
  fold (insertAll kvs (m1 ∪ m2)). fold (insertAll kvs m1).
  rewrite IH. apply insert_union_l.
Qed.

Lemma insertAll_map_to_list (m1 m2 : gmap string string) :
  insertAll (map_to_list m1) m2 = m1 ∪ m2.
Proof.
  rewrite <- (left_id_L ∅ (∪) m2) at 1. rewrite insertAll_union. f_equal.
  transitivity (list_to_map (map_to_list m1) : gmap string string).
  - unfold insertAll. generalize (map_to_list m1).
    induction l as [|[k v] l IH]; cbn; [reflexivity|]. now rewrite IH.
  - apply list_to_map_to_list.
Qed.

Lemma addBuildLabels_union env b (m : gmap string string) :
  addBuildLabels env b m = autoLabels env b ∪ m.
Proof.
  unfold autoLabels, addBuildLabels.
  destruct (RunSection b "help" && _), (negb (Update (Opts b)) || _),
    (negb (String.eqb (Tag (Opts b)) "") && _);
    rewrite <- ?insert_union_l, <- ?insertAll_union, <- ?insert_union_l,
      ?(left_id_L ∅ (∪)); reflexivity.
Qed.

Lemma foldr_insertRecipeLabel (force : bool) (l : list (string * string))
    (m : gmap string string) (k : string) :
  NoDup l.*1 →
  foldr (insertRecipeLabel force) m l !! k
  = match (list_to_map l : gmap string string) !! k with
    | Some v =>
        match m !! k with
        | Some old => if force then Some v else Some old
        | None => Some v
        end
    | None => m !! k
    end.
Proof.
  induction l as [|[k' v'] l IH]; cbn [foldr list_to_map fmap list_fmap fst].
  - intros _. rewrite lookup_empty. reflexivity.
  - intros [Hnotin Hnd]%NoDup_cons. specialize (IH Hnd).
    assert (Hk' : foldr (insertRecipeLabel force) m l !! k' = m !! k').
    { clear IH. induction l as [|[k2 v2] l IHl]; cbn; trivial.
      cbn in Hnotin. apply not_elem_of_cons in Hnotin as [Hne Hnotin].
      apply NoDup_cons in Hnd as [_ Hnd].
      unfold insertRecipeLabel at 1. cbn [fst snd].
      destruct (foldr _ m l !! k2); [destruct force|];
        rewrite ?lookup_insert_ne by congruence; auto. }
    unfold insertRecipeLabel at 1. cbn [fst snd]. rewrite Hk'.
    destruct (decide (k = k')) as [->|Hne].
    + rewrite lookup_insert_eq.
      destruct (m !! k') eqn:Em; [destruct force|];
        rewrite ?lookup_insert_eq; trivial.
    + rewrite (lookup_insert_ne (list_to_map l)) by congruence. rewrite <- IH.
      destruct (m !! k'); [destruct force|];
        rewrite ?lookup_insert_ne by congruence; reflexivity.
Qed.

Lemma mergedLabels_Ok env b merged :
  mergedLabels env b = Ok merged →
  merged = autoLabels env b ∪ (buildFileLabels env ∪ existingOf env).
Proof.
  unfold mergedLabels, getExistingLabels, buildFileLabels, existingOf.
  destruct (existingLabels env) as [[ex|]| |]; try discriminate;
    destruct (buildLabelsFile env) as [[text|]| |]; try discriminate; cbn;
    try destruct (removeBuildLabels env); try discriminate; cbn;
    intros [= <-]; rewrite addBuildLabels_union, ?insertAll_map_to_list,
      ?(right_id_L ∅ (∪)), ?(left_id_L ∅ (∪)); reflexivity.
Qed.

Lemma insertAll_is_Some kvs (m : gmap string string) k :
  is_Some (m !! k) → is_Some (insertAll kvs m !! k).
Proof.
  intros H. induction kvs as [|[k' v'] kvs IH]; cbn; trivial.
  apply lookup_insert_is_Some. destruct (decide (k' = k)); auto.
Qed.

Lemma insert_here (m : gmap string string) k x : is_Some (<[k:=x]> m !! k).
Proof. rewrite lookup_insert_eq. eauto. Qed.

Lemma insert_keeps (m : gmap string string) i k x :
  is_Some (m !! k) → is_Some (<[i:=x]> m !! k).
Proof. intros H. apply lookup_insert_is_Some. destruct (decide (i = k)); auto. Qed.

Ltac through_inserts :=
  repeat first
    [ apply insert_here
    | apply insert_keeps
    | apply insertAll_is_Some
    | match goal with
      | |- is_Some ((if ?c then _ else _) !! _) => destruct c
      end ].

Lemma autoLabels_always env b :
  ∀ k, k ∈ [schemaVersionKey; buildDateKey; versionKey; buildArchKey] →
       is_Some (autoLabels env b !! k).
Proof.
  intros k Hk. rewrite !elem_of_cons, elem_of_nil in Hk.
  unfold autoLabels, addBuildLabels.
  destruct Hk as [->|[->|[->|[->|[]]]]];
    unfold schemaVersionKey, buildDateKey, versionKey, buildArchKey;
    through_inserts.
Qed.

(** What [insertLabelsJSON] writes, key by key. *)
Lemma insertLabelsJSON_lookup env b labels :
  insertLabelsJSON env b = Ok labels →
  ∀ key,
    labels !! key
    = match recipeLabels b !! key with
      | Some value =>
          match mergedOf env b !! key with
          | Some old => if Force (Opts b) then Some value else Some old
          | None => Some value
          end
      | None => mergedOf env b !! key
      end.
Proof.
  unfold insertLabelsJSON, recipeLabels. intros H key.
  destruct (mergedLabels env b) as [m| |] eqn:Em; try discriminate.
  apply mergedLabels_Ok in Em. fold (mergedOf env b) in Em. subst m.
  cbn [obind] in H. destruct (RunSection b "labels"); cbn [andb] in H.
  - destruct (0 <? size (Labels (Recipe b)))%nat eqn:Es.
    + injection H as <-.
      rewrite foldr_insertRecipeLabel by apply NoDup_fst_map_to_list.
      rewrite list_to_map_to_list. reflexivity.
    + injection H as <-. apply Nat.ltb_ge in Es.
      assert (Labels (Recipe b) = ∅) as -> by (apply map_size_empty_iff; lia).
      rewrite lookup_empty. reflexivity.
  - injection H as <-. rewrite lookup_empty. reflexivity.
Qed.

(** C2, as the code has it.  Before the recipe's labels are read the map
    holds the existing [labels.json], overlaid by the [.build.labels] file,
    overlaid by the build's automatic labels.  For a recipe label whose
    section is run: if its key is in that map and [force] is false the
    map's value stays, and that is the value of the existing [labels.json]
    when the key is neither automatic nor in [.build.labels]; if [force] is
    true or the key is not in the map, the recipe's value is stored.  Every
    other key keeps the map's value, and the four unconditional automatic
    labels are always in the result. *)
Theorem C2_label_precedence (env : LabelEnv) (b : Bundle)
    (labels : gmap string string) :
  insertLabelsJSON env b = Ok labels →
  (∀ key value old,
     recipeLabels b !! key = Some value →
     mergedOf env b !! key = Some old →
     Force (Opts b) = false →
     labels !! key = Some old)
  ∧ (∀ key value,
       recipeLabels b !! key = Some value →
       Force (Opts b) = true ∨ mergedOf env b !! key = None →
       labels !! key = Some value)
  ∧ (∀ key, recipeLabels b !! key = None →
            labels !! key = mergedOf env b !! key)
  ∧ (∀ key, autoLabels env b !! key = None →
            buildFileLabels env !! key = None →
            mergedOf env b !! key = existingOf env !! key)
  ∧ (∀ key, key ∈ [schemaVersionKey; buildDateKey; versionKey; buildArchKey] →
            is_Some (labels !! key)).
Proof.
  intros H. pose proof (insertLabelsJSON_lookup env b labels H) as L.
  repeat split.
  - intros key value old Hr Hm Hf. rewrite L, Hr, Hm, Hf. reflexivity.
  - intros key value Hr [Hf|Hm]; rewrite L, Hr.
    + rewrite Hf. destruct (mergedOf env b !! key); reflexivity.
    + rewrite Hm. reflexivity.
  - intros key Hr. rewrite L, Hr. reflexivity.
  - intros key Ha Hb. unfold mergedOf.
    rewrite lookup_union_r by exact Ha. rewrite lookup_union_r by exact Hb.
    reflexivity.
  - intros key Hk. rewrite L.
    assert (Hm : is_Some (mergedOf env b !! key)).
    { unfold mergedOf. apply lookup_union_is_Some. left.
      apply autoLabels_always, Hk. }
    destruct Hm as [old Hm]. rewrite Hm.
    destruct (recipeLabels b !! key); [destruct (Force (Opts b))|]; eauto.
Qed.

(** The key [A] is in the existing [labels.json] with value 1, in the
    [.build.labels] file with value 2 and in the recipe with value 3; without
    [force] the result holds 2.  The recipe's build-arch label is new to
    [labels.json], and yet the result holds the build's own value. *)
Lemma C2_label_precedence_counterexample :
  existingOf sampleLabelEnv !! "A" = Some "1"
  ∧ existingOf sampleLabelEnv !! buildArchKey = None
  ∧ Labels (Recipe sampleBundle) !! "A" = Some "3"
  ∧ Labels (Recipe sampleBundle) !! buildArchKey = Some "mine"
  ∧ Force (Opts sampleBundle) = false
  ∧ ∃ labels, insertLabelsJSON sampleLabelEnv sampleBundle = Ok labels
              ∧ labels !! "A" = Some "2"
              ∧ labels !! buildArchKey = Some "amd64".
Proof.
  repeat (split; [vm_compute; reflexivity|]).
  exists sampleLabels.
  split; [vm_cast_no_check (eq_refl (Ok sampleLabels))|by_computation].
Qed.

Lemma C2_label_precedence_witness :
  insertLabelsJSON sampleLabelEnv sampleBundle = Ok sampleLabels
  ∧ sampleLabels !! "A" = Some "2".
Proof.
  assert (E : insertLabelsJSON sampleLabelEnv sampleBundle = Ok sampleLabels)
    by (vm_cast_no_check (eq_refl (Ok sampleLabels))).
  split; [exact E|].
  apply (proj1 (C2_label_precedence sampleLabelEnv sampleBundle sampleLabels E)
               "A" "3" "2"); vm_compute; reflexivity.
Defined.

End labels.

Section sections.
Import types parser gostrings.

Lemma ensureSection_lookup key (secs : gmap string Script) k :
  ensureSection key secs !! k
  = match secs !! k with
    | Some sc => Some sc
    | None => if decide (key = k) then Some zeroScript else None
    end.
Proof.
  unfold ensureSection. destruct (decide (key = k)) as [->|Hne].
  - destruct (secs !! k) eqn:E; [exact E|]. apply lookup_insert_eq.
  - destruct (secs !! key); [destruct (secs !! k); reflexivity|].
    rewrite lookup_insert_ne by exact Hne. destruct (secs !! k); reflexivity.
Qed.

Lemma foldr_delete_lookup (ks : list string) (secs : gmap string Script) k :
  foldr delete secs ks !! k = if decide (k ∈ ks) then None else secs !! k.
Proof.
  induction ks as [|a ks IH]; cbn [foldr].
  - rewrite decide_False by apply not_elem_of_nil. reflexivity.
  - destruct (decide (a = k)) as [->|Hne].
    + rewrite lookup_delete_eq, decide_True by apply list_elem_of_here. reflexivity.
    + rewrite lookup_delete_ne, IH by exact Hne.
      destruct (decide (k ∈ ks)) as [Hin|Hin].
      * rewrite decide_True by (apply list_elem_of_further, Hin). reflexivity.
      * rewrite decide_False; [reflexivity|].
        intros [->|?]%elem_of_cons; contradiction.
Qed.

Lemma foldr_ensure_lookup (ks : list string) (secs : gmap string Script) k :
  k ∉ ks → foldr ensureSection secs ks !! k = secs !! k.
Proof.
  induction ks as [|a ks IH]; cbn [foldr]; trivial.
  intros [Hne Hin]%not_elem_of_cons. rewrite ensureSection_lookup, (IH Hin).
  destruct (secs !! k); trivial. rewrite decide_False by congruence. reflexivity.
Qed.

Lemma remaining_lookup (st : pstate) k :
  remaining st !! k
  = if decide (k ∈ validSections) then None else sections st !! k.
Proof.
  unfold remaining, removeStandard, initSections.
  rewrite foldr_delete_lookup. destruct (decide (k ∈ validSections)); trivial.
  apply foldr_ensure_lookup. assumption.
Qed.

Lemma invalidKeys_spec (secs : gmap string Script) k :
  k ∈ invalidKeys secs ↔ is_Some (secs !! k) ∧ firstWordOfKey k ∉ appSections.
Proof.
  unfold invalidKeys. rewrite list_elem_of_filter, list_elem_of_fmap. split.
  - intros [Hp ([k' sc] & -> & Hin)]. apply elem_of_map_to_list in Hin.
    split; [exists sc; exact Hin|exact Hp].
  - intros [[sc Hsc] Hp]. split; [exact Hp|]. exists (k, sc).
    split; [reflexivity|]. apply elem_of_map_to_list, Hsc.
Qed.

Lemma invalidKeys_NoDup (secs : gmap string Script) : NoDup (invalidKeys secs).
Proof. apply NoDup_filter, NoDup_fst_map_to_list. Qed.

Lemma Split_hd (k : string) (c : ascii) :
  hd "" (Split k c)
  = match cut k c with Some (a, _) => a | None => k end.
Proof.
  induction k as [|x s IH]; [reflexivity|]. cbn [Split cut].
  destruct (Ascii.eqb x c); [reflexivity|].
  destruct (Split s c) as [|h t]; cbn [hd] in *;
    destruct (cut s c) as [[a b]|]; now rewrite <- IH.
Qed.

Lemma appSections_no_space (p : string) :
  p ∈ appSections → hasByte " " p = false.
Proof.
  unfold appSections. rewrite elem_of_list_to_set. revert p.
  apply Forall_forall. repeat constructor.
Qed.

(** The test of [populateDefinition], the first of the fields that the
    spaces of a key separate, is the test for a known app prefix. *)
Lemma firstWordOfKey_appPrefixed (k : string) :
  firstWordOfKey k ∈ appSections ↔ appPrefixed k.
Proof.
  unfold firstWordOfKey, appPrefixed. rewrite Split_hd. split.
  - destruct (cut k " ") as [[a b]|] eqn:E; intros Hin.
    + apply cut_Some in E as [-> _]. exists a. split; [exact Hin|].
      right. now exists b.
    + exists k. split; [exact Hin|now left].
  - intros (p & Hin & [->|[more ->]]).
    + now rewrite (hasByte_cut _ _ (appSections_no_space _ Hin)).
    + change (" " +:+ more) with (String " " more).
      now rewrite (cut_app _ _ _ (appSections_no_space _ Hin)).
Qed.

(** C6.  Once the eleven standard sections are taken out, the keys left
    that do not begin with a known app prefix make [populateDefinition]
    fail with an [InvalidSectionError] that lists exactly those keys, each
    once.  When only app sections are left there is no such error: the
    definition is returned with every remaining section in its custom data.
    A recipe with a section [%extra] fails with the sections list
    [[extra]], and one with a section [%appinstall foo] keeps it.  The key
    is tested as it is stored, and an app section is stored under its
    keyword as written: a recipe with a section [%AppInstall foo], which
    the parser takes for an app section, fails with the sections list
    [[AppInstall foo]]. *)
Theorem C6_invalid_sections :
  (∀ st d,
     let rem := remaining st in
     let bad := invalidKeys rem in
     (∀ k, k ∈ bad ↔
           (is_Some (sections st !! k) ∧ (k ∉ validSections)
            ∧ ¬ appPrefixed k))
     ∧ NoDup bad
     ∧ (bad ≠ [] → populateDefinition st d = Err (InvalidSectionError bad))
     ∧ (bad = [] → rem ≠ ∅ →
        ∃ d', populateDefinition st d = Ok d'
              ∧ CustomData d' = Some (Script_Script <$> rem)))
  ∧ ParseDefinitionFile recipeExtra = Err (InvalidSectionError ["extra"])
  ∧ (∃ d, ParseDefinitionFile recipeApp = Ok d
          ∧ AppOrder d = ["foo"]
          ∧ CustomData d = Some {["appinstall foo" := "make" +:+ str1 NL]})
  ∧ ParseDefinitionFile recipeAppCapital
    = Err (InvalidSectionError ["AppInstall foo"]).
Proof.
  split; [|split; [vm_compute; reflexivity|
                   split; [eexists; by_computation|vm_compute; reflexivity]]].
  intros st d. cbv zeta.
  split; [|split; [apply invalidKeys_NoDup|split]].
  - intros k. rewrite invalidKeys_spec, remaining_lookup,
      firstWordOfKey_appPrefixed.
    destruct (decide (k ∈ validSections)) as [Hv|Hv].
    + split; [intros [[? [=]] _]|intros (_ & ? & _); contradiction].
    + tauto.
  - intros Hbad. unfold populateDefinition, remaining in *.
    set (rem := removeStandard (initSections (sections st))) in *.
    assert (Hsz : size rem ≠ 0%nat).
    { intros Hz. apply map_size_empty_iff in Hz. apply Hbad.
      unfold invalidKeys. rewrite Hz, map_to_list_empty. reflexivity. }
    rewrite (bool_decide_eq_true_2 _ Hsz), (bool_decide_eq_true_2 _ Hbad).
    reflexivity.
  - intros Hbad Hne. unfold populateDefinition, remaining in *.
    set (rem := removeStandard (initSections (sections st))) in *.
    assert (Hsz : size rem ≠ 0%nat).
    { intros Hz. apply map_size_empty_iff in Hz. contradiction. }
    rewrite (bool_decide_eq_true_2 _ Hsz), bool_decide_eq_false_2
      by (rewrite Hbad; auto).
    cbn [obind]. unfold isEmpty. rewrite bool_decide_eq_false_2 by discriminate.
    eexists; split; reflexivity.
Qed.

(** Sections [extra], [appinstall foo] and [AppInstall bar]: the error
    lists the first and the last.  The section [appinstall foo] alone is
    kept as custom data. *)
Lemma C6_invalid_sections_witness :
  (let st := mkPstate (<["AppInstall bar" := mkScript "" "make"]>
                       (<["appinstall foo" := mkScript "" "make"]>
                        {["extra" := mkScript "" "echo hi"]})) [] [] in
   populateDefinition st (zeroDef "" "")
   = Err (InvalidSectionError (invalidKeys (remaining st)))
   ∧ ∀ k, k ∈ invalidKeys (remaining st) ↔ k = "extra" ∨ k = "AppInstall bar")
  ∧ (let st := mkPstate {["appinstall foo" := mkScript "" "make"]} [] [] in
     ∃ d', populateDefinition st (zeroDef "" "") = Ok d'
           ∧ CustomData d' = Some (Script_Script <$> remaining st)).
Proof.
  cbv zeta. split; [split|].
  - apply (proj1 (proj2 (proj2 (proj1 C6_invalid_sections
             (mkPstate (<["AppInstall bar" := mkScript "" "make"]>
                        (<["appinstall foo" := mkScript "" "make"]>
                         {["extra" := mkScript "" "echo hi"]})) [] [])
             (zeroDef "" "")))));
      vm_compute; discriminate.
  - intros k.
    assert (invalidKeys (remaining
              (mkPstate (<["AppInstall bar" := mkScript "" "make"]>
                         (<["appinstall foo" := mkScript "" "make"]>
                          {["extra" := mkScript "" "echo hi"]})) [] []))
            = ["extra"; "AppInstall bar"]) as -> by (vm_compute; reflexivity).
    rewrite !elem_of_cons, elem_of_nil. tauto.
  - apply (proj2 (proj2 (proj2 (proj1 C6_invalid_sections
             (mkPstate {["appinstall foo" := mkScript "" "make"]} [] [])
             (zeroDef "" "")))));
      vm_compute; [reflexivity|discriminate].
Defined.

End sections.

Section header_keywords.
Import types parser gostrings.

Lemma validHeaders_list k : k ∈ validHeaders ↔ k ∈ validHeaderList.
Proof. unfold validHeaders. apply elem_of_list_to_set. Qed.

(** The only keyword that ends in [&n] is [otherurl&n]. *)
Lemma valid_amp_n (base : string) :
  base +:+ "&n" ∈ validHeaders → base = "otherurl".
Proof.
  rewrite validHeaders_list. unfold validHeaderList.
  rewrite !elem_of_cons, elem_of_nil.
  intros H.
  repeat (destruct H as [H|H];
          [apply str_app_inv_length in H as [-> H]; vm_compute in H |- *;
           first [discriminate H | reflexivity]|]).
  contradiction.
Qed.

Lemma replaceTrailingDigits_spec (key : string) :
  regexp.replaceTrailingDigits key = key
  ∨ ∃ base ds, key = base +:+ ds ∧ ds ≠ "" ∧ allBytes isDigit ds = true
               ∧ TrimRightFunc isDigit base = base
               ∧ regexp.replaceTrailingDigits key = base +:+ "&n".
Proof.
  unfold regexp.replaceTrailingDigits. fold isDigit.
  change (TrimRightFunc regexp.cls_d key) with (TrimRightFunc isDigit key).
  destruct (String.eqb_spec (TrimRightFunc isDigit key) key) as [E|E]; [left; reflexivity|].
  right. destruct (TrimRightFunc_split isDigit key) as (ds & Hk & Hds).
  exists (TrimRightFunc isDigit key), ds. repeat split; trivial.
  - intros ->. rewrite str_app_nil_r in Hk. congruence.
  - rewrite Hk at 1. rewrite TrimRightFunc_app_all by exact Hds.
    rewrite Hk at 2. rewrite TrimRightFunc_app_all by exact Hds.
    generalize (TrimRightFunc isDigit key). clear.
    induction s as [|c s IH]; [reflexivity|]. cbn [TrimRightFunc].
    destruct (TrimRightFunc isDigit s) as [|c' r] eqn:Er.
    + destruct (isDigit c) eqn:Hc; [reflexivity|]. cbn. now rewrite Hc.
    + cbn [TrimRightFunc]. cbn [TrimRightFunc] in IH.
      destruct r; rewrite IH; reflexivity.
Qed.

(** The keywords [doHeader] accepts: the closed set, and [otherurl]
    followed by one or more digits. *)
Lemma headerKeyOK_spec (key : string) :
  headerKeyOK key = true ↔
  key ∈ validHeaders
  ∨ ∃ ds, ds ≠ "" ∧ allBytes isDigit ds = true ∧ key = "otherurl" +:+ ds.
Proof.
  unfold headerKeyOK. rewrite orb_true_iff, andb_true_iff, negb_true_iff.
  rewrite !bool_decide_eq_true. split.
  - intros [H|[Hne Hin]]; [left; exact H|right].
    destruct (replaceTrailingDigits_spec key) as [E|(base & ds & Hk & Hds & Hall & _ & Hr)].
    + rewrite E, String.eqb_refl in Hne. discriminate.
    + rewrite Hr in Hin. apply valid_amp_n in Hin as ->. eauto.
  - intros [H|(ds & Hne & Hall & ->)]; [left; exact H|right].
    assert (Hb : TrimRightFunc isDigit ("otherurl" +:+ ds) = "otherurl").
    { rewrite TrimRightFunc_app_all by exact Hall. reflexivity. }
    unfold regexp.replaceTrailingDigits.
    change (TrimRightFunc regexp.cls_d ("otherurl" +:+ ds))
      with (TrimRightFunc isDigit ("otherurl" +:+ ds)).
    rewrite Hb.
    assert (Hd : "otherurl" ≠ "otherurl" +:+ ds).
    { intros E. apply (f_equal String.length) in E. rewrite str_length_app in E.
      destruct ds; [contradiction|]. cbn in E. lia. }
    destruct (String.eqb_spec "otherurl" ("otherurl" +:+ ds)) as [?|_]; [contradiction|].
    split.
    + destruct (String.eqb_spec ("otherurl" +:+ "&n") ("otherurl" +:+ ds)) as [E|_]; trivial.
      apply String.app_inj in E. subst ds. discriminate.
    + vm_compute. reflexivity.
Qed.

End header_keywords.

Section header_lines.
Import types parser gostrings.

Lemma HasSuffix_app (a b : string) : HasSuffix (a +:+ b) b = true.
Proof.
  unfold HasSuffix. rewrite str_length_app.
  replace (String.length a + String.length b - String.length b)%nat
    with (String.length a) by lia.
  rewrite str_drop_app_length, String.eqb_refl, andb_true_r.
  apply Nat.leb_le. lia.
Qed.

Lemma TrimSuffix_app (a b : string) : TrimSuffix (a +:+ b) b = a.
Proof.
  unfold TrimSuffix. rewrite HasSuffix_app, str_length_app.
  replace (String.length a + String.length b - String.length b)%nat
    with (String.length a) by lia.
  apply str_take_app_length.
Qed.

Lemma HasSuffix_inv (s b : string) :
  HasSuffix s b = true → s = TrimSuffix s b +:+ b.
Proof.
  intros H. unfold TrimSuffix. rewrite H. unfold HasSuffix in H.
  apply andb_true_iff in H as [_ H]. apply String.eqb_eq in H.
  etrans; [symmetry; apply (str_take_drop (String.length s - String.length b))|].
  f_equal. exact H.
Qed.

Lemma contValue_backslash (w : string) :
  contValue (w +:+ str1 backslash)
  = if HasSuffix w (String backslash "n")
    then TrimSuffix w (String backslash "n") +:+ str1 NL
    else w.
Proof. unfold contValue. rewrite TrimSuffix_app. reflexivity. Qed.

Lemma contValue_newline (u : string) :
  contValue (u +:+ String backslash "n" +:+ str1 backslash) = u +:+ str1 NL.
Proof.
  rewrite <- str_app_assoc, contValue_backslash, HasSuffix_app, TrimSuffix_app.
  reflexivity.
Qed.

Lemma contValue_nonempty (w : string) :
  w ≠ "" → contValue (w +:+ str1 backslash) ≠ "".
Proof.
  intros Hw. rewrite contValue_backslash.
  destruct (HasSuffix w (String backslash "n")); [|exact Hw].
  intros [_ [=]]%str_app_eq_nil.
Qed.

Lemma length_eqb_0 (s : string) : s ≠ "" → (String.length s =? 0)%nat = false.
Proof. destruct s; [contradiction|reflexivity]. Qed.


Lemma hasByte_TrimLeftFunc f c s :
  hasByte c s = false → hasByte c (TrimLeftFunc f s) = false.
Proof.
  induction s as [|a s IH]; [reflexivity|]. cbn [TrimLeftFunc].
  destruct (f a); [|trivial]. cbn. intros [_ Hs]%orb_false_iff. auto.
Qed.

Lemma hasByte_TrimRightFunc f c s :
  hasByte c s = false → hasByte c (TrimRightFunc f s) = false.
Proof.
  induction s as [|a s IH]; [reflexivity|]. cbn [TrimRightFunc hasByte].
  intros [Ha Hs]%orb_false_iff. specialize (IH Hs).
  destruct (TrimRightFunc f s).
  - destruct (f a); [reflexivity|]. cbn. now rewrite Ha.
  - change (Ascii.eqb a c || hasByte c (String a0 s0) = false).
    now rewrite Ha, IH.
Qed.

Lemma hasByte_TrimSpace c s :
  hasByte c s = false → hasByte c (TrimSpace s) = false.
Proof. intros H. now apply hasByte_TrimRightFunc, hasByte_TrimLeftFunc. Qed.

Lemma hasByte_trimComment c s :
  hasByte c s = false → hasByte c (trimComment s) = false.
Proof.
  unfold trimComment. induction s as [|a s IH]; [reflexivity|].
  cbn [Split hasByte]. intros [Ha Hs]%orb_false_iff. specialize (IH Hs).
  destruct (Ascii.eqb a "#"); [reflexivity|].
  destruct (Split s "#"); cbn in *; now rewrite Ha.
Qed.

Lemma Contains_byte (c : ascii) (s : string) :
  Contains s (str1 c) = hasByte c s.
Proof.
  unfold Contains. induction s as [|a s IH]; [reflexivity|].
  cbn [Index hasByte HasPrefix str1].
  assert (Hp : HasPrefix s "" = true) by (destruct s; reflexivity).
  rewrite Hp, andb_true_r, Ascii.eqb_sym.
  destruct (Ascii.eqb a c); [reflexivity|]. cbn [orb]. rewrite <- IH.
  unfold str1.
  destruct (Z.ltb_spec (Index s (String c "")) 0) as [Hlt|Hge].
  - symmetry. apply Z.leb_gt. exact Hlt.
  - rewrite (proj2 (Z.leb_le 0 _) Hge). apply Z.leb_le. lia.
Qed.

Lemma doHeaderLines_app (pre rest : list string) (st : hstate) :
  doHeaderLines (pre ++ rest) st
  = obind (doHeaderLines pre st) (doHeaderLines rest).
Proof.
  revert st; induction pre as [|l pre IH]; intros st; [reflexivity|].
  cbn [app doHeaderLines]. destruct (doHeaderLine st l); cbn [obind]; auto.
Qed.

(** A line that is no continuation and holds no colon. *)
Lemma doHeaderLine_no_colon (st : hstate) (line : string) :
  valCont st = "" →
  isCommentOrBlank (TrimSpace line) = false →
  Contains line ":" = false →
  doHeaderLine st line
  = Err (errorString ("header key " +:+ trimComment (TrimSpace line) +:+
                      " had no val")).
Proof.
  intros Hv Hc Hn. unfold doHeaderLine. rewrite Hc, Hv. cbn [String.length Nat.eqb].
  change ":" with (str1 ":"%char) in Hn. rewrite Contains_byte in Hn.
  assert (Hcut : cut (trimComment (TrimSpace line)) ":" = None)
    by (now apply hasByte_cut, hasByte_trimComment, hasByte_TrimSpace).
  cbn [SplitN]. rewrite Hcut. reflexivity.
Qed.

(** A line that is no continuation, holds a colon and does not end in a
    backslash. *)
Lemma doHeaderLine_key (st : hstate) (line k v : string) :
  valCont st = "" →
  isCommentOrBlank (TrimSpace line) = false →
  SplitN (trimComment (TrimSpace line)) ":" 2 = [k; v] →
  HasSuffix (TrimSpace v) (str1 backslash) = false →
  doHeaderLine st line
  = let key := ToLower (TrimSpace k) in
    if headerKeyOK key
    then Ok (mkHstate (<[key := TrimSpace v]> (header st)) (keyCont st) ""
                      (hdef st))
    else Err (errorString ("invalid header keyword found: " +:+ key)).
Proof.
  intros Hv Hc Hs Hb. unfold doHeaderLine.
  rewrite Hc, Hv, Hs. cbn [String.length Nat.eqb obind]. rewrite Hb.
  reflexivity.
Qed.

(** A backslash-terminated value followed by its continuation line. *)
Lemma doHeaderLines_continue (st : hstate) (l1 l2 : string)
    (rest : list string) (k v w : string) :
  valCont st = "" →
  isCommentOrBlank (TrimSpace l1) = false →
  SplitN (trimComment (TrimSpace l1)) ":" 2 = [k; v] →
  TrimSpace v = w +:+ str1 backslash →
  w ≠ "" →
  isCommentOrBlank (TrimSpace l2) = false →
  let key := ToLower (TrimSpace k) in
  let val := contValue (TrimSpace v) +:+ TrimSpace (trimComment (TrimSpace l2)) in
  HasSuffix val (str1 backslash) = false →
  headerKeyOK key = true →
  doHeaderLines (l1 :: l2 :: rest) st
  = doHeaderLines rest (mkHstate (<[key := val]> (header st)) "" "" (hdef st)).
Proof.
  intros Hv Hc1 Hs Hw Hne Hc2 key val Hb Hk. cbn [doHeaderLines].
  assert (H1 : doHeaderLine st l1
               = Ok (mkHstate (header st) key (contValue (TrimSpace v)) (hdef st))).
  { unfold doHeaderLine. rewrite Hc1, Hv, Hs. cbn [String.length Nat.eqb obind].
    rewrite Hw at 1. rewrite HasSuffix_app. reflexivity. }
  rewrite H1. cbn [obind]. unfold doHeaderLine at 1.
  rewrite Hc2. cbn [valCont keyCont header hdef].
  rewrite length_eqb_0 by (rewrite Hw; now apply contValue_nonempty).
  cbn [obind]. fold val. rewrite Hb, Hk. reflexivity.
Qed.

(** The definition of [doHeader] is the one it was given as long as its
    header is the nil map: no line changes it. *)
Lemma doHeaderLine_hdef (st st' : hstate) (line : string) :
  Header (hdef st) = None →
  doHeaderLine st line = Ok st' → hdef st' = hdef st.
Proof.
  intros Hn. unfold doHeaderLine. destruct (isCommentOrBlank _).
  - destruct (_ <? _)%nat; [|intros [= <-]; auto].
    rewrite Hn. discriminate.
  - destruct (_ =? _)%nat.
    + destruct (SplitN _ _ _) as [|k [|v [|? ?]]]; try discriminate.
      cbn [obind]. destruct (HasSuffix _ _); [intros [= <-]; auto|].
      destruct (headerKeyOK _); [intros [= <-]; auto|discriminate].
    + cbn [obind]. destruct (HasSuffix _ _); [intros [= <-]; auto|].
      destruct (headerKeyOK _); [intros [= <-]; auto|discriminate].
Qed.

Lemma doHeaderLines_hdef (toks : list string) :
  ∀ st st', Header (hdef st) = None →
            doHeaderLines toks st = Ok st' → hdef st' = hdef st.
Proof.
  induction toks as [|l toks IH]; intros st st' Hn; cbn [doHeaderLines].
  - intros [= <-]. reflexivity.
  - destruct (doHeaderLine st l) as [st1| |] eqn:E; try discriminate.
    cbn [obind]. intros H. pose proof (doHeaderLine_hdef _ _ _ Hn E) as E1.
    rewrite <- E1. apply IH; [now rewrite E1|exact H].
Qed.

(** A backslash-terminated value followed by a blank or comment line: the
    pending value is written to the header map of the definition, which is
    the nil map. *)
Lemma doHeaderLines_pending_blank (st : hstate) (l1 l2 : string)
    (rest : list string) (k v : string) :
  Header (hdef st) = None →
  valCont st = "" →
  isCommentOrBlank (TrimSpace l1) = false →
  SplitN (trimComment (TrimSpace l1)) ":" 2 = [k; v] →
  HasSuffix (TrimSpace v) (str1 backslash) = true →
  ToLower (TrimSpace k) ≠ "" →
  isCommentOrBlank (TrimSpace l2) = true →
  doHeaderLines (l1 :: l2 :: rest) st = Panic "assignment to entry in nil map".
Proof.
  intros Hn Hv Hc1 Hs Hb Hk Hc2. cbn [doHeaderLines].
  assert (H1 : doHeaderLine st l1
               = Ok (mkHstate (header st) (ToLower (TrimSpace k))
                       (contValue (TrimSpace v)) (hdef st))).
  { unfold doHeaderLine. rewrite Hc1, Hv, Hs. cbn [String.length Nat.eqb obind].
    now rewrite Hb. }
  rewrite H1. cbn [obind]. unfold doHeaderLine at 1.
  rewrite Hc2. cbn [valCont keyCont header hdef].
  destruct (ToLower (TrimSpace k)) as [|c s]; [contradiction|].
  cbn [String.length Nat.ltb Nat.leb]. rewrite Hn. reflexivity.
Qed.


(** C7, as the code has it.  A key is accepted exactly when it is in the
    closed set or is [otherurl] followed by one or more digits.  A line that
    continues no earlier value, has a colon and does not end in a backslash
    is stored under its lowercased key when that key is accepted, and is an
    invalid-keyword error otherwise; such a line without a colon is an
    error wherever it stands.  So [otherurl2: https://x] is accepted and
    [otherfoo: v] is rejected. *)
Theorem C7_header_keywords :
  (∀ key, headerKeyOK key = true ↔
          (key ∈ validHeaders
           ∨ ∃ ds, ds ≠ "" ∧ allBytes isDigit ds = true
                   ∧ key = "otherurl" +:+ ds))
  ∧ (∀ st line k v,
       valCont st = "" →
       isCommentOrBlank (TrimSpace line) = false →
       SplitN (trimComment (TrimSpace line)) ":" 2 = [k; v] →
       HasSuffix (TrimSpace v) (str1 backslash) = false →
       doHeaderLine st line
       = let key := ToLower (TrimSpace k) in
         if headerKeyOK key
         then Ok (mkHstate (<[key := TrimSpace v]> (header st)) (keyCont st) ""
                           (hdef st))
         else Err (errorString ("invalid header keyword found: " +:+ key)))
  ∧ (∀ pre line rest st st',
       doHeaderLines pre st = Ok st' →
       valCont st' = "" →
       isCommentOrBlank (TrimSpace line) = false →
       Contains line ":" = false →
       doHeaderLines (pre ++ line :: rest) st
       = Err (errorString ("header key " +:+ trimComment (TrimSpace line) +:+
                           " had no val")))
  ∧ doHeader "otherurl2: https://x" (zeroDef "" "")
    = Ok (setHeader (Some {["otherurl2" := "https://x"]}) (zeroDef "" ""))
  ∧ doHeader "otherfoo: v" (zeroDef "" "")
    = Err (errorString "invalid header keyword found: otherfoo").
Proof.
  split; [exact headerKeyOK_spec|]. split; [exact doHeaderLine_key|].
  split; [|split; vm_compute; reflexivity].
  intros pre line rest st st' Hpre Hv Hc Hn.
  rewrite doHeaderLines_app, Hpre. cbn [obind doHeaderLines].
  rewrite (doHeaderLine_no_colon st' line Hv Hc Hn). reflexivity.
Qed.

(** The line [box] has no colon, is neither blank nor a comment, and yet
    the header parses: it continues the value of the line before it. *)
Lemma C7_header_keywords_counterexample :
  isCommentOrBlank (TrimSpace "box") = false
  ∧ Contains "box" ":" = false
  ∧ ∃ d, ParseDefinitionFile recipeContinued = Ok d
         ∧ Header d = Some dockerHeader.
Proof.
  split; [reflexivity|]. split; [reflexivity|].
  eexists. split; vm_compute; reflexivity.
Qed.

(** After the line [Bootstrap: docker], the line [busybox] is an error. *)
Lemma C7_header_keywords_witness :
  doHeaderLines (["Bootstrap: docker"] ++ "busybox" :: [])
                (mkHstate ∅ "" "" (zeroDef "" ""))
  = Err (errorString "header key busybox had no val").
Proof.
  apply (proj1 (proj2 (proj2 C7_header_keywords))
               ["Bootstrap: docker"] "busybox" []
               (mkHstate ∅ "" "" (zeroDef "" ""))
               (mkHstate {["bootstrap" := "docker"]} "" "" (zeroDef "" "")));
    vm_compute; reflexivity.
Defined.

(** C5, as the code has it.  When a value ends in a backslash and has text
    before it, the line that follows, if it is neither blank nor a comment,
    is joined to it: the key gets the value without the backslash followed
    by the trimmed text of that line.  A backslash-n just before the final
    backslash becomes a newline.  A blank or comment line met while a key is
    pending does not let the value go on to the next line: [doHeader]
    writes the pending value to the header map of the definition, which is
    the nil map whenever the parser calls it, and panics. *)
Theorem C5_header_continuation :
  (∀ st l1 l2 rest k v w,
     valCont st = "" →
     isCommentOrBlank (TrimSpace l1) = false →
     SplitN (trimComment (TrimSpace l1)) ":" 2 = [k; v] →
     TrimSpace v = w +:+ str1 backslash →
     w ≠ "" →
     isCommentOrBlank (TrimSpace l2) = false →
     let key := ToLower (TrimSpace k) in
     let val := contValue (TrimSpace v)
                +:+ TrimSpace (trimComment (TrimSpace l2)) in
     HasSuffix val (str1 backslash) = false →
     headerKeyOK key = true →
     doHeaderLines (l1 :: l2 :: rest) st
     = doHeaderLines rest
         (mkHstate (<[key := val]> (header st)) "" "" (hdef st)))
  ∧ (∀ w, contValue (w +:+ str1 backslash)
          = if HasSuffix w (String backslash "n")
            then TrimSuffix w (String backslash "n") +:+ str1 NL
            else w)
  ∧ (∀ u, contValue (u +:+ String backslash "n" +:+ str1 backslash)
          = u +:+ str1 NL)
  ∧ (∀ h d pre st l1 l2 rest k v,
       Header d = None →
       Split (TrimSpace h) NL = pre ++ l1 :: l2 :: rest →
       doHeaderLines pre (mkHstate ∅ "" "" d) = Ok st →
       valCont st = "" →
       isCommentOrBlank (TrimSpace l1) = false →
       SplitN (trimComment (TrimSpace l1)) ":" 2 = [k; v] →
       HasSuffix (TrimSpace v) (str1 backslash) = true →
       ToLower (TrimSpace k) ≠ "" →
       isCommentOrBlank (TrimSpace l2) = true →
       doHeader h d = Panic "assignment to entry in nil map")
  ∧ (∃ d, ParseDefinitionFile recipeContinued = Ok d
          ∧ Header d = Some dockerHeader)
  ∧ ParseDefinitionFile recipeBlankInContinuation
    = Panic "assignment to entry in nil map"
  ∧ ParseDefinitionFile recipeCommentInContinuation
    = Panic "assignment to entry in nil map".
Proof.
  split; [exact doHeaderLines_continue|].
  split; [exact contValue_backslash|]. split; [exact contValue_newline|].
  split; [|split; [eexists; split; vm_compute; reflexivity|
                   split; vm_compute; reflexivity]].
  intros h d pre st l1 l2 rest k v Hn Hsplit Hpre Hv Hc1 Hs Hb Hk Hc2.
  unfold doHeader. rewrite Hsplit, doHeaderLines_app, Hpre. cbn [obind].
  rewrite (doHeaderLines_pending_blank st l1 l2 rest k v); trivial.
  now rewrite (doHeaderLines_hdef pre (mkHstate ∅ "" "" d) st Hn Hpre).
Qed.

(** A [From] line ending in a backslash after [busy], followed by the
    line [box], gives [from] the value [busybox]; followed by an empty
    line, it makes [doHeader] panic. *)
Lemma C5_header_continuation_witness :
  doHeaderLines ["From: busy" +:+ str1 backslash; "box"]
                (mkHstate ∅ "" "" (zeroDef "" ""))
  = Ok (mkHstate {["from" := "busybox"]} "" "" (zeroDef "" ""))
  ∧ doHeader (unlines ["Bootstrap: docker"; "From: busy" +:+ str1 backslash;
                       ""; "box"])
             (zeroDef "" "")
    = Panic "assignment to entry in nil map".
Proof.
  split.
  - apply (proj1 C5_header_continuation (mkHstate ∅ "" "" (zeroDef "" ""))
                 ("From: busy" +:+ str1 backslash) "box" []
                 "From" (" busy" +:+ str1 backslash) "busy");
      vm_compute; try reflexivity; discriminate.
  - apply (proj1 (proj2 (proj2 (proj2 C5_header_continuation)))
                 _ (zeroDef "" "") ["Bootstrap: docker"]
                 (mkHstate {["bootstrap" := "docker"]} "" "" (zeroDef "" ""))
                 ("From: busy" +:+ str1 backslash) "" ["box"]
                 "From" (" busy" +:+ str1 backslash));
      vm_compute; try reflexivity; discriminate.
Defined.

End header_lines.

Section stages.
Import types parser gostrings.

Lemma concatS_app (xs ys : list string) :
  concatS (xs ++ ys) = concatS xs +:+ concatS ys.
Proof.
  induction xs as [|x xs IH]; [reflexivity|].
  cbn [app concatS foldr]. fold (concatS (xs ++ ys)). fold (concatS xs).
  now rewrite IH, str_app_assoc.
Qed.

Lemma matchFold_app_NL (pat : string) :
  hasByte NL pat = false →
  ∀ p t, matchFold pat ((p +:+ str1 NL) +:+ t) = matchFold pat (p +:+ str1 NL).
Proof.
  induction pat as [|x pat IH]; [reflexivity|].
  cbn [hasByte]. intros [Hx Hpat]%orb_false_iff p t. specialize (IH Hpat).
  assert (HNL : ∀ u, matchFold (String x pat) (String NL u) = false).
  { intros u. cbn [matchFold]. change (toLowerByte NL) with NL.
    rewrite Ascii.eqb_sym, Hx. cbn [andb orb].
    change (Ascii.eqb NL "197") with false. now rewrite andb_false_r. }
  destruct p as [|c p].
  - rewrite str_app_nil_l. unfold str1. rewrite str_app_cons, str_app_nil_l, !HNL. reflexivity.
  - rewrite !str_app_cons. cbn [matchFold]. rewrite IH. f_equal. f_equal.
    destruct p as [|c2 p].
    + rewrite str_app_nil_l. unfold str1. rewrite str_app_cons.
      change (Ascii.eqb NL "191") with false. reflexivity.
    + rewrite !str_app_cons. now rewrite IH.
Qed.

Lemma matchBootstrap_app_NL (p t : string) :
  matchBootstrap ((p +:+ str1 NL) +:+ t) = matchBootstrap (p +:+ str1 NL).
Proof. apply matchFold_app_NL. reflexivity. Qed.

Lemma findAllIndexFrom_app_NL (p t : string) :
  ∀ bol pos,
    findAllIndexFrom bol pos ((p +:+ str1 NL) +:+ t)
    = findAllIndexFrom bol pos (p +:+ str1 NL)
      ++ findAllIndexFrom true (pos + String.length (p +:+ str1 NL)) t.
Proof.
  induction p as [|c p IH]; intros bol pos.
  - rewrite str_app_nil_l. unfold str1. rewrite str_app_cons, str_app_nil_l.
    cbn [findAllIndexFrom String.length].
    change (matchBootstrap (String NL t)) with false.
    change (matchBootstrap (String NL "")) with false.
    rewrite andb_false_r. change (Ascii.eqb NL NL) with true. cbn [app].
    destruct t; [reflexivity|]. f_equal; lia.
  - rewrite !str_app_cons. cbn [findAllIndexFrom String.length].
    rewrite <- !str_app_cons, matchBootstrap_app_NL, !str_app_cons, IH, <- app_assoc.
    do 3 f_equal. lia.
Qed.

Lemma findAllIndexFrom_shift (s : string) :
  ∀ bol pos,
    findAllIndexFrom bol pos s = (fun i => pos + i)%nat <$> findAllIndexFrom bol 0 s.
Proof.
  induction s as [|c s IH]; intros bol pos; [reflexivity|].
  cbn [findAllIndexFrom]. rewrite fmap_app, (IH _ (S pos)), (IH _ 1%nat).
  rewrite <- list_fmap_compose. f_equal.
  - destruct (bol && matchBootstrap (String c s)); cbn; [f_equal; lia|reflexivity].
  - apply list_fmap_ext. intros _ i _. cbn. lia.
Qed.

Lemma HasSuffix_NL (s : string) :
  HasSuffix s (str1 NL) = true → ∃ p, s = p +:+ str1 NL.
Proof. intros H. eexists. apply HasSuffix_inv, H. Qed.

Lemma FindAllIndex_concat (ss : list string) :
  Forall stageText ss →
  ∀ pos, findAllIndexFrom true pos (concatS ss) = offsets pos ss.
Proof.
  induction 1 as [|s ss (Hidx & Hnl & _) _ IH]; intros pos; [reflexivity|].
  cbn [concatS foldr offsets]. fold (concatS ss).
  destruct (HasSuffix_NL s Hnl) as [p ->].
  rewrite findAllIndexFrom_app_NL, IH, findAllIndexFrom_shift.
  unfold FindAllIndex in Hidx. rewrite Hidx. cbn. f_equal. lia.
Qed.

Lemma offsets_app (xs ys : list string) (pos : nat) :
  offsets pos (xs ++ ys)
  = offsets pos xs ++ offsets (pos + String.length (concatS xs)) ys.
Proof.
  revert pos; induction xs as [|x xs IH]; intros pos.
  - cbn. now rewrite Nat.add_0_r.
  - cbn [app offsets concatS foldr]. fold (concatS xs).
    rewrite IH, str_length_app. do 3 f_equal. lia.
Qed.

Lemma splitLoop_offsets (ss : list string) :
  ∀ pre acc,
    splitLoop (rev (offsets (String.length pre) ss)) (pre +:+ concatS ss) acc
    = pre :: ss ++ acc.
Proof.
  induction ss as [|s ss IH] using rev_ind; intros pre acc.
  - cbn. now rewrite str_app_nil_r.
  - rewrite offsets_app. cbn [offsets]. rewrite rev_app_distr. cbn [rev app splitLoop].
    rewrite concatS_app. cbn [concatS foldr]. rewrite str_app_nil_r.
    rewrite <- str_length_app, <- str_app_assoc, str_take_app_length, str_drop_app_length.
    rewrite IH, <- app_assoc. reflexivity.
Qed.

Lemma splitStages_concat (ss : list string) :
  Forall stageText ss → splitStages (concatS ss) = "" :: ss.
Proof.
  intros H. unfold splitStages, FindAllIndex.
  rewrite (FindAllIndex_concat ss H).
  pose proof (splitLoop_offsets ss "" []) as H0.
  rewrite app_nil_r in H0. exact H0.
Qed.

Lemma splitLoop_concatS (irev : list nat) :
  ∀ buf acc, concatS (splitLoop irev buf acc) = buf +:+ concatS acc.
Proof.
  induction irev as [|i irev IH]; intros buf acc; [reflexivity|].
  cbn [splitLoop]. rewrite IH. cbn [concatS foldr]. fold (concatS acc).
  now rewrite <- str_app_assoc, str_take_drop.
Qed.

Lemma splitLoop_nonempty (irev : list nat) :
  ∀ buf acc, length (splitLoop irev buf acc) ≠ 0%nat.
Proof. induction irev as [|i irev IH]; intros buf acc; cbn; [lia|apply IH]. Qed.

(** *** The raw bytes survive parsing *)

Lemma doHeaderLine_raw st st' line :
  doHeaderLine st line = Ok st' →
  Raw (hdef st') = Raw (hdef st) ∧ FullRaw (hdef st') = FullRaw (hdef st).
Proof.
  unfold doHeaderLine. destruct (isCommentOrBlank _).
  - destruct (_ <? _)%nat; [|intros [= <-]; auto].
    destruct (Header (hdef st)); [|discriminate]. intros [= <-]. auto.
  - destruct (_ =? _)%nat.
    + destruct (SplitN _ _ _) as [|k [|v [|? ?]]]; try discriminate.
      cbn [obind]. destruct (HasSuffix _ _); [intros [= <-]; auto|].
      destruct (headerKeyOK _); [intros [= <-]; auto|discriminate].
    + cbn [obind]. destruct (HasSuffix _ _); [intros [= <-]; auto|].
      destruct (headerKeyOK _); [intros [= <-]; auto|discriminate].
Qed.

Lemma doHeaderLines_raw toks :
  ∀ st st', doHeaderLines toks st = Ok st' →
  Raw (hdef st') = Raw (hdef st) ∧ FullRaw (hdef st') = FullRaw (hdef st).
Proof.
  induction toks as [|l toks IH]; intros st st'; cbn [doHeaderLines].
  - intros [= <-]. auto.
  - destruct (doHeaderLine st l) as [st1| |] eqn:E; try discriminate.
    cbn [obind]. intros H. apply IH in H as [-> ->].
    eapply doHeaderLine_raw, E.
Qed.

Lemma doHeader_raw h d d' :
  doHeader h d = Ok d' → Raw d' = Raw d ∧ FullRaw d' = FullRaw d.
Proof.
  unfold doHeader. destruct (doHeaderLines _ _) as [st| |] eqn:E; try discriminate.
  apply doHeaderLines_raw in E as [E1 E2]. cbn [obind hdef] in *.
  destruct (bool_decide _); intros [= <-]; auto.
Qed.

Lemma populateDefinition_raw st d d' :
  populateDefinition st d = Ok d' → Raw d' = Raw d ∧ FullRaw d' = FullRaw d.
Proof.
  unfold populateDefinition.
  generalize (removeStandard (initSections (sections st))) as rem.
  generalize (GetLabels (Script_Script
                (section (initSections (sections st)) "labels"))) as labels.
  generalize (initSections (sections st)) as secs.
  intros secs labels rem.
  destruct (bool_decide (size rem ≠ 0%nat)).
  - destruct (bool_decide (invalidKeys rem ≠ [])); [discriminate|].
    cbn [obind].
    match goal with |- context [isEmpty ?x] => destruct (isEmpty x) end;
      [discriminate|].
    intros [= <-]. split; reflexivity.
  - cbn [obind].
    match goal with |- context [isEmpty ?x] => destruct (isEmpty x) end;
      [discriminate|].
    intros [= <-]. split; reflexivity.
Qed.

Lemma doSections_raw text more serr d d' :
  doSections text more serr d = Ok d' →
  Raw d' = Raw d ∧ FullRaw d' = FullRaw d.
Proof.
  unfold doSections. destruct (TrimSpace text) as [|c tok].
  - cbn [obind]. destruct (parseTokens _ _); try discriminate. cbn [obind].
    destruct serr; [discriminate|]. apply populateDefinition_raw.
  - destruct (negb _).
    + destruct (doHeader _ d) as [d1| |] eqn:E; try discriminate;
        [|destruct e; discriminate].
      cbn [wrapErr obind]. destruct (parseTokens _ _); try discriminate.
      cbn [obind]. destruct serr; [discriminate|].
      intros H. apply populateDefinition_raw in H as [-> ->].
      now apply doHeader_raw in E.
    + destruct (parseTokenSection _ _); try discriminate. cbn [obind].
      destruct (parseTokens _ _); try discriminate. cbn [obind].
      destruct serr; [discriminate|]. apply populateDefinition_raw.
Qed.

Lemma ParseDefinitionFile_raw raw d :
  ParseDefinitionFile raw = Ok d → Raw d = raw ∧ FullRaw d = raw.
Proof.
  unfold ParseDefinitionFile.
  destruct (scanTokens _ _) as [toks serr].
  destruct (skipEmptyTokens _); [destruct serr; discriminate|].
  intros H. apply doSections_raw in H. exact H.
Qed.

(** *** The stage loop of [All] *)

Lemma parseStages_all (raw : string) (ss : list string) :
  Forall stageText ss →
  ∀ acc, ∃ ds, parseStages raw ss acc = Ok (acc ++ ds)
               ∧ Forall2 (stageOf raw) ss ds.
Proof.
  induction 1 as [|s ss (_ & Hnl & Hok) _ IH]; intros acc.
  - exists []. rewrite app_nil_r. split; [reflexivity|constructor].
  - cbn [parseStages].
    destruct (HasSuffix_NL s Hnl) as [p Hp].
    assert (Hlen : (String.length s =? 0)%nat = false).
    { rewrite Hp, str_length_app. cbn. apply Nat.eqb_neq. lia. }
    rewrite Hlen. destruct (ParseDefinitionFile s) as [d0| |] eqn:E; try discriminate.
    destruct (IH (acc ++ [setFullRaw raw d0])) as (ds & Hds & Hall).
    exists (setFullRaw raw d0 :: ds). rewrite Hds, <- app_assoc.
    split; [reflexivity|]. constructor; [|exact Hall]. exists d0. auto.
Qed.

Lemma parseStages_none (raw : string) (ss : list string) :
  (∀ s, s ∈ ss → s = "" ∨ ParseDefinitionFile s = Err errEmptyDefinition) →
  ∀ acc, parseStages raw ss acc = Ok acc.
Proof.
  induction ss as [|s ss IH]; intros H acc; [reflexivity|].
  cbn [parseStages]. destruct (H s) as [->|E]; [apply list_elem_of_here| |].
  - cbn. apply IH. intros s' Hs'. apply H. now apply list_elem_of_further.
  - rewrite E. destruct (_ =? _)%nat; apply IH; intros s' Hs'; apply H;
      now apply list_elem_of_further.
Qed.

Lemma parseStages_fullRaw (raw : string) (ss : list string) :
  ∀ acc ds, Forall (fun d => FullRaw d = raw) acc →
            parseStages raw ss acc = Ok ds →
            Forall (fun d => FullRaw d = raw) ds.
Proof.
  induction ss as [|s ss IH]; intros acc ds Hacc; cbn [parseStages].
  - intros [= <-]. exact Hacc.
  - destruct (_ =? _)%nat; [apply IH, Hacc|].
    destruct (ParseDefinitionFile s) as [d0|[]|]; try discriminate.
    + apply IH. apply Forall_app. split; [exact Hacc|]. repeat constructor.
    + apply IH, Hacc.
Qed.

(** The definitions returned are those of the slices that parse, in
    order. *)
Lemma parseStages_raw (raw : string) (ss : list string) :
  ∀ acc ds, parseStages raw ss acc = Ok ds →
            Raw <$> ds
            = (Raw <$> acc) ++ filter (fun s => isOk (ParseDefinitionFile s)) ss.
Proof.
  induction ss as [|s ss IH]; intros acc ds; cbn [parseStages].
  - intros [= <-]. now rewrite filter_nil, app_nil_r.
  - destruct (String.length s =? 0)%nat eqn:El.
    + intros H. rewrite (IH _ _ H). f_equal.
      destruct s; [|discriminate]. rewrite filter_cons_False; [reflexivity|].
      vm_compute. exact id.
    + destruct (ParseDefinitionFile s) as [d0|e|] eqn:E; try discriminate.
      * intros H. rewrite (IH _ _ H), fmap_app, <- app_assoc. f_equal.
        rewrite filter_cons_True by (rewrite E; exact I). cbn. f_equal.
        now apply ParseDefinitionFile_raw in E.
      * destruct e; try discriminate. intros H. rewrite (IH _ _ H). f_equal.
        rewrite filter_cons_False; [reflexivity|]. rewrite E. exact id.
Qed.

Lemma stageOf_raw raw ss ds :
  Forall2 (stageOf raw) ss ds → Raw <$> ds = ss.
Proof.
  induction 1 as [|s d ss ds (d0 & Hd0 & ->) _ IH]; [reflexivity|].
  cbn. rewrite IH. f_equal. now apply ParseDefinitionFile_raw in Hd0.
Qed.

Lemma stageOf_fullRaw raw ss ds :
  Forall2 (stageOf raw) ss ds → Forall (fun d => FullRaw d = raw) ds.
Proof.
  induction 1 as [|s d ss ds (d0 & _ & ->) _ IH]; constructor; auto.
Qed.

(** C1.  For a buffer that is the concatenation of [n >= 1] stage texts,
    [All] returns [n] definitions, in order the parse of each text; the raw
    bytes of each are its text, the full raw bytes of each are the whole
    buffer, and that is the concatenation of the raw fields.  For any
    buffer, the slices [All] cuts add up to the buffer, every returned
    definition carries the whole buffer and the raw fields are the slices
    that parse, in order; when every slice is empty or parses to the empty
    definition, [All] fails with the no-stages error. *)
Theorem C1_All_stages :
  (∀ ss : list string,
     ss ≠ [] → Forall stageText ss →
     ∃ ds, All (concatS ss) = Ok ds
           ∧ length ds = length ss
           ∧ Forall2 (stageOf (concatS ss)) ss ds
           ∧ Raw <$> ds = ss
           ∧ Forall (fun d => FullRaw d = concatS ss) ds
           ∧ concatS (Raw <$> ds) = concatS ss)
  ∧ (∀ raw ds, All raw = Ok ds →
               concatS (splitStages raw) = raw
               ∧ Forall (fun d => FullRaw d = raw) ds
               ∧ Raw <$> ds
                 = filter (fun s => isOk (ParseDefinitionFile s))
                          (splitStages raw))
  ∧ (∀ raw,
       (∀ s, s ∈ splitStages raw →
             s = "" ∨ ParseDefinitionFile s = Err errEmptyDefinition) →
       All raw = Err errNoStages).
Proof.
  split; [|split].
  - intros ss Hne Hall. unfold All. rewrite (splitStages_concat ss Hall).
    cbn [length bool_decide decide_rel]. rewrite bool_decide_eq_false_2 by (cbn; lia).
    cbn [parseStages String.length Nat.eqb].
    destruct (parseStages_all (concatS ss) ss Hall []) as (ds & Hds & H2).
    rewrite Hds. cbn [app obind].
    pose proof (Forall2_length _ _ _ H2) as Hlen.
    rewrite bool_decide_eq_false_2 by (destruct ss; [contradiction|cbn in *; lia]).
    exists ds. pose proof (stageOf_raw _ _ _ H2) as Hraw.
    repeat split; auto.
    + eapply stageOf_fullRaw, H2.
    + now rewrite Hraw.
  - intros raw ds. unfold All, splitStages. intros H. split.
    + now rewrite splitLoop_concatS, str_app_nil_r.
    + destruct (bool_decide _); [discriminate|].
      destruct (parseStages _ _ _) as [ds'| |] eqn:E; try discriminate.
      cbn [obind] in H. destruct (bool_decide _); [discriminate|].
      injection H as <-. split.
      * eapply parseStages_fullRaw; [|exact E]. constructor.
      * apply (parseStages_raw _ _ _ _ E).
  - intros raw H. unfold All.
    rewrite bool_decide_eq_false_2 by apply splitLoop_nonempty.
    rewrite (parseStages_none raw _ H). reflexivity.
Qed.

(** Two stage texts end to end give two definitions. *)
Lemma C1_All_stages_witness :
  ∃ ds, All (concatS [stageBuild; stageFinal]) = Ok ds
        ∧ length ds = 2%nat
        ∧ Forall2 (stageOf (concatS [stageBuild; stageFinal]))
                  [stageBuild; stageFinal] ds
        ∧ Raw <$> ds = [stageBuild; stageFinal]
        ∧ Forall (fun d => FullRaw d = concatS [stageBuild; stageFinal]) ds
        ∧ concatS (Raw <$> ds) = concatS [stageBuild; stageFinal].
Proof.
  apply (proj1 C1_All_stages [stageBuild; stageFinal]);
    [discriminate|repeat constructor; vm_compute; reflexivity].
Defined.

(** C10.  The splitter finds no token in a line that is one double quote,
    so the first-token access of a [%files] body is out of range there and
    parsing such a recipe panics. *)
Theorem C10_files_line_out_of_range :
  isCommentOrBlank (TrimSpace (str1 dquote)) = false
  ∧ regexp.FindAllString fileSplitter (str1 dquote) = []
  ∧ parseFileLine (str1 dquote) = Panic "index out of range [0] with length 0"
  ∧ ParseDefinitionFile recipeQuoteOnly
    = Panic "index out of range [0] with length 0".
Proof. by_computation. Qed.

End stages.

(** ** The scenarios of the specification, evaluated *)

Section scenarios.
Import types parser gostrings bundle metadata build.

(** S1: a header, a post script and a label. *)
Example scenario_S1 :
  ∃ d, ParseDefinitionFile
         (unlines ["Bootstrap: docker"; "From: busybox"; "%post"; "echo hi";
                   "%labels"; "X 1"]) = Ok d
       ∧ Header d = Some dockerHeader
       ∧ Script_Script (Post (BuildData_Scripts d)) = "echo hi" +:+ str1 NL
       ∧ Labels d = {["X" := "1"]}.
Proof. eexists. by_computation. Qed.

(** S4: a quoted source with a destination, and a source alone. *)
Example scenario_S4 :
  ∃ d, ParseDefinitionFile
         (unlines ["%files";
                   str1 dquote +:+ "a b" +:+ str1 dquote +:+ " c"; "d"]) = Ok d
       ∧ BuildData_Files d
         = [mkFiles "" [mkFileTransport "a b" "c"; mkFileTransport "d" ""]].
Proof. eexists. split; vm_compute; reflexivity. Qed.

(** Two [%files] sections with the same arguments make one block. *)
Example scenario_files_merge :
  ∃ d, ParseDefinitionFile
         (unlines ["Bootstrap: docker"; "%files from build"; "/a /b";
                   "%post"; "true"; "%files from build"; "/c"]) = Ok d
       ∧ BuildData_Files d
         = [mkFiles "from build"
              [mkFileTransport "/a" "/b"; mkFileTransport "/c" ""]].
Proof. eexists. split; vm_compute; reflexivity. Qed.

(** App sections are kept as custom data and their apps listed in order. *)
Example scenario_apps :
  ∃ d, ParseDefinitionFile
         (unlines ["Bootstrap: docker"; "%appinstall foo"; "make";
                   "%apprun bar"; "run"; "%appenv foo"; "X=1"]) = Ok d
       ∧ AppOrder d = ["foo"; "bar"]
       ∧ CustomData d
         = Some (<["appenv foo" := "X=1" +:+ str1 NL]>
                 (<["apprun bar" := "run" +:+ str1 NL]>
                  {["appinstall foo" := "make" +:+ str1 NL]})).
Proof. eexists. by_computation. Qed.

(** A definition of comments only is the empty definition. *)
Example scenario_empty :
  ParseDefinitionFile (unlines ["# nothing here"]) = Err errEmptyDefinition.
Proof. vm_compute. reflexivity. Qed.

(** S7: the schema version and the exported header keys are among the
    labels written. *)
Example scenario_S7 :
  sampleLabels !! schemaVersionKey = Some "1.0"
  ∧ sampleLabels !! (deffilePrefix +:+ "bootstrap") = Some "docker"
  ∧ sampleLabels !! buildDateKey = Some "Friday_30_October_2026_18:50:7_UTC".
Proof. by_computation. Qed.

(** The splitter keeps a braced build argument with the text around it and
    a quoted text with its blanks. *)
Example scenario_splitter :
  regexp.FindAllString fileSplitter "/src/{{ name }}.txt /dst"
  = ["/src/{{ name }}.txt"; "/dst"]
  ∧ regexp.FindAllString fileSplitter
      (str1 dquote +:+ "a b" +:+ str1 dquote +:+ " c/d")
    = [str1 dquote +:+ "a b" +:+ str1 dquote; "c/d"].
Proof. split; vm_compute; reflexivity. Qed.

End scenarios.

(** ** The scanner: tokens of a file given by its lines *)

Section scanner_tokens.
Import types parser gostrings.

Lemma str1_app (c : ascii) (s : string) : str1 c +:+ s = String c s.
Proof. reflexivity. Qed.

Lemma unlines_app (xs ys : list string) :
  unlines (xs ++ ys) = unlines xs +:+ unlines ys.
Proof.
  induction xs as [|x xs IH]; [reflexivity|].
  cbn [unlines app]. rewrite IH, !str_app_assoc. reflexivity.
Qed.

Lemma unlines_cons_neq (l : string) (ls : list string) :
  unlines (l :: ls) ≠ "".
Proof.
  cbn [unlines]. intros H. apply str_app_eq_nil in H as [_ H].
  rewrite str1_app in H. discriminate.
Qed.

Lemma lines_app_NL (l rest : string) :
  isLine l →
  bufio.lines (l +:+ String NL rest)
  = (l, l +:+ String NL rest) :: bufio.lines rest.
Proof.
  unfold isLine. induction l as [|c l IH]; intros Hl.
  - reflexivity.
  - cbn [hasByte] in Hl. apply orb_false_iff in Hl as [Hc Hl].
    rewrite str_app_cons. cbn [bufio.lines]. rewrite Hc, (IH Hl). reflexivity.
Qed.

Lemma lines_unlines_cons (l : string) (ls : list string) :
  isLine l →
  bufio.lines (unlines (l :: ls))
  = (l, unlines (l :: ls)) :: bufio.lines (unlines ls).
Proof. intros Hl. cbn [unlines]. rewrite str1_app. now apply lines_app_NL. Qed.

Lemma tokenLines_afterToken (ls : list string) :
  tokenLines ls ++ afterToken ls = ls.
Proof.
  induction ls as [|l ls IH]; [reflexivity|].
  cbn [tokenLines afterToken]. destruct (sectionLine l); [reflexivity|].
  cbn [app]. now rewrite IH.
Qed.

Lemma tokenLines_plain (ls : list string) :
  Forall (fun x => sectionLine x = false) (tokenLines ls).
Proof.
  induction ls as [|l ls IH]; [constructor|].
  cbn [tokenLines]. destruct (sectionLine l) eqn:E; constructor; assumption.
Qed.

Lemma afterToken_head (ls : list string) :
  afterToken ls = [] ∨ sectionGroup (afterToken ls).
Proof.
  induction ls as [|l ls IH]; [now left|].
  cbn [afterToken]. destruct (sectionLine l) eqn:E; [|exact IH].
  right. now exists l, ls.
Qed.

Lemma afterToken_plain (ls : list string) :
  Forall (fun x => sectionLine x = false) ls → afterToken ls = [].
Proof.
  induction 1 as [|l ls Hl _ IH]; [reflexivity|].
  cbn [afterToken]. now rewrite Hl.
Qed.

Lemma afterToken_Forall (P : string → Prop) (ls : list string) :
  Forall P ls → Forall P (afterToken ls).
Proof.
  intros H. rewrite <- (tokenLines_afterToken ls) in H.
  now apply Forall_app in H as [_ H].
Qed.

Lemma afterToken_length (ls : list string) :
  (length (afterToken ls) ≤ length ls)%nat.
Proof.
  rewrite <- (tokenLines_afterToken ls) at 2. rewrite length_app. lia.
Qed.

Lemma afterToken_unlines_length (ls : list string) :
  (String.length (unlines (afterToken ls)) ≤ String.length (unlines ls))%nat.
Proof.
  rewrite <- (tokenLines_afterToken ls) at 2.
  rewrite unlines_app, str_length_app. lia.
Qed.

(** The scanning loop past the first line stops at the first section
    line. *)
Lemma scanLoop_lines (ls : list string) :
  Forall isLine ls →
  ∀ inSection retbuf,
    scanLoop (bufio.lines (unlines ls)) inSection false retbuf
    = (unlines (afterToken ls), retbuf +:+ tokenOf (tokenLines ls)).
Proof.
  induction 1 as [|l ls Hl _ IH]; intros inSection retbuf.
  - cbn. now rewrite str_app_nil_r.
  - rewrite (lines_unlines_cons l ls Hl). cbn [scanLoop tokenLines afterToken].
    fold (sectionLine l). destruct (sectionLine l).
    + unfold tokenOf. cbn [fmap list_fmap unlines]. rewrite str_app_nil_r.
      now destruct inSection.
    + rewrite IH. f_equal. unfold tokenOf. cbn [fmap list_fmap unlines].
      now rewrite !str_app_assoc.
Qed.

Lemma scanDefinitionFile_unlines (l : string) (ls : list string) :
  isLine l → Forall isLine ls →
  scanDefinitionFile (unlines (l :: ls))
  = (unlines (afterToken ls), tokenOf (l :: tokenLines ls)).
Proof.
  intros Hl Hls. unfold scanDefinitionFile.
  rewrite (lines_unlines_cons l ls Hl). cbn [scanLoop].
  assert (∀ inSection,
            scanLoop (bufio.lines (unlines ls)) inSection false
                     ("" +:+ bufio.dropCR l +:+ str1 NL)
            = (unlines (afterToken ls), tokenOf (l :: tokenLines ls))) as E.
  { intros inSection. rewrite (scanLoop_lines ls Hls). f_equal.
    unfold tokenOf. cbn [fmap list_fmap unlines].
    now rewrite str_app_nil_l, !str_app_assoc. }
  destruct (startsSection _); apply E.
Qed.

(** The tokens of a file of lines are its lines cut before every section
    line but a first one. *)
Lemma scanTokens_groups :
  ∀ (n : nat) (ls : list string),
    (length ls ≤ n)%nat → Forall isLine ls →
    ∀ fuel toks,
      (String.length (unlines ls) < fuel)%nat →
      scanTokens fuel (unlines ls) = (toks, None) →
      ∃ gs, concat gs = ls ∧ toks = tokenOf <$> gs
            ∧ Forall tokenGroup gs ∧ Forall sectionGroup (tail gs).
Proof.
  induction n as [|n IH]; intros ls Hn Hls fuel toks Hfuel.
  - destruct ls; [|cbn in Hn; lia].
    destruct fuel; [cbn in Hfuel; lia|]. cbn. intros [= <-].
    exists []. repeat split; constructor.
  - destruct ls as [|l ls]; [destruct fuel; cbn; intros [= <-]; exists [];
                             repeat split; constructor|].
    destruct fuel as [|fuel]; [lia|]. cbn [scanTokens].
    destruct (String.eqb_spec (unlines (l :: ls)) "") as [E|_];
      [now apply unlines_cons_neq in E|].
    apply Forall_cons in Hls as [Hl Hls].
    rewrite (scanDefinitionFile_unlines l ls Hl Hls).
    destruct (_ <=? _)%N; [|discriminate].
    destruct (scanTokens fuel (unlines (afterToken ls))) as [toks' err'] eqn:E.
    intros [= <- ->].
    pose proof (afterToken_length ls) as Hlen.
    pose proof (afterToken_unlines_length ls) as Hulen.
    assert (String.length (unlines ls) < String.length (unlines (l :: ls)))%nat
      as Hstep.
    { cbn [unlines]. rewrite !str_length_app. cbn. lia. }
    destruct (IH (afterToken ls)) with (fuel := fuel) (toks := toks')
      as (gs & Hcat & -> & Hgs & Htl);
      [cbn in Hn; lia|now apply afterToken_Forall|lia|exact E|].
    exists ((l :: tokenLines ls) :: gs). repeat split.
    + cbn [concat]. rewrite Hcat. cbn [app].
      now rewrite tokenLines_afterToken.
    + constructor; [|exact Hgs]. exists l, (tokenLines ls).
      split; [reflexivity|apply tokenLines_plain].
    + cbn [tail]. destruct gs as [|g gs]; [constructor|].
      constructor; [|exact Htl].
      destruct (afterToken_head ls) as [E0|(l0 & t0 & E0 & Hl0)].
      * rewrite E0 in Hcat. apply Forall_cons in Hgs as [(l1 & t1 & -> & _) _].
        discriminate.
      * apply Forall_cons in Hgs as [(l1 & t1 & -> & _) _].
        rewrite E0 in Hcat. cbn in Hcat. injection Hcat as -> _.
        now exists l0, t1.
Qed.

Lemma concatS_tokenOf (gs : list (list string)) :
  concatS (tokenOf <$> gs) = tokenOf (concat gs).
Proof.
  induction gs as [|g gs IH]; [reflexivity|].
  cbn [fmap list_fmap concat]. unfold concatS in *. cbn [foldr].
  fold (list_fmap _ _ tokenOf gs). rewrite IH. unfold tokenOf.
  now rewrite fmap_app, unlines_app.
Qed.

Lemma HasSuffix_hasByte (c : ascii) (s : string) :
  hasByte c s = false → HasSuffix s (str1 c) = false.
Proof.
  intros H. destruct (HasSuffix s (str1 c)) eqn:E; [|reflexivity].
  apply HasSuffix_inv in E. rewrite E in H. clear E.
  induction (TrimSuffix s (str1 c)) as [|a t IH].
  - rewrite str_app_nil_l in H. unfold str1 in H. cbn [hasByte] in H.
    rewrite Ascii.eqb_refl in H. discriminate.
  - rewrite str_app_cons in H. cbn [hasByte] in H.
    apply orb_false_iff in H as [_ H]. exact (IH H).
Qed.

Lemma dropCR_id (l : string) :
  hasByte "013"%char l = false → bufio.dropCR l = l.
Proof.
  intros H. unfold bufio.dropCR, TrimSuffix.
  now rewrite (HasSuffix_hasByte _ _ H).
Qed.

(** The scanner loses no byte.  For a file that ends each of its lines with
    a newline and is scanned to its end, the tokens laid end to end are the
    file with the carriage return before a newline dropped; they are the
    file itself when it holds no carriage return. *)
Theorem scanTokens_lossless (ls toks : list string) :
  Forall isLine ls →
  scanTokens (S (String.length (unlines ls))) (unlines ls) = (toks, None) →
  concatS toks = unlines (bufio.dropCR <$> ls)
  ∧ (Forall (fun l => hasByte "013"%char l = false) ls →
     concatS toks = unlines ls).
Proof.
  intros Hls H.
  destruct (scanTokens_groups (length ls) ls ltac:(lia) Hls (S (String.length (unlines ls))) toks
              ltac:(lia) H) as (gs & Hcat & -> & _).
  rewrite concatS_tokenOf, Hcat. split; [reflexivity|].
  intros Hcr. unfold tokenOf. f_equal.
  clear -Hcr. induction Hcr as [|l ls Hl _ IH]; [reflexivity|].
  cbn [fmap list_fmap]. rewrite (dropCR_id l Hl). f_equal. exact IH.
Qed.

Lemma scanTokens_lossless_witness :
  concatS ["Bootstrap: docker" +:+ str1 NL;
           "%post" +:+ str1 NL +:+ "make" +:+ str1 NL]
  = unlines ["Bootstrap: docker"; "%post"; "make"].
Proof.
  refine (proj2 (scanTokens_lossless ["Bootstrap: docker"; "%post"; "make"] _
                   _ _) _).
  - repeat constructor.
  - vm_compute. reflexivity.
  - repeat constructor.
Defined.

(** Every token holds one section at most.  Under the same conditions the
    tokens are the lines of the file cut into groups: a group is a line
    followed by lines that start no section, and every group but the first
    opens with a section line. *)
Theorem scanTokens_sections (ls toks : list string) :
  Forall isLine ls →
  scanTokens (S (String.length (unlines ls))) (unlines ls) = (toks, None) →
  ∃ gs, concat gs = ls ∧ toks = tokenOf <$> gs
        ∧ Forall tokenGroup gs ∧ Forall sectionGroup (tail gs).
Proof.
  intros Hls H.
  exact (scanTokens_groups (length ls) ls ltac:(lia) Hls (S (String.length (unlines ls))) toks ltac:(lia) H).
Qed.

Lemma scanTokens_sections_witness :
  ∃ gs, concat gs = ["Bootstrap: docker"; "%post"; "make"; "%test"; "true"]
        ∧ ["Bootstrap: docker" +:+ str1 NL;
           "%post" +:+ str1 NL +:+ "make" +:+ str1 NL;
           "%test" +:+ str1 NL +:+ "true" +:+ str1 NL] = tokenOf <$> gs
        ∧ Forall tokenGroup gs ∧ Forall sectionGroup (tail gs).
Proof.
  apply (scanTokens_sections
           ["Bootstrap: docker"; "%post"; "make"; "%test"; "true"]).
  - repeat constructor.
  - vm_compute. reflexivity.
Defined.

End scanner_tokens.

(** ** More about [strings] *)

Section string_trimming.
Import parser gostrings.





Lemma TrimLeftFunc_shape (f : ascii → bool) (s : string) :
  TrimLeftFunc f s = ""
  ∨ ∃ c t, TrimLeftFunc f s = String c t ∧ f c = false.
Proof.
  induction s as [|c s IH]; [now left|]. cbn [TrimLeftFunc].
  destruct (f c) eqn:E; [exact IH|]. right. now exists c, s.
Qed.

Lemma TrimRightFunc_head (f : ascii → bool) (c : ascii) (s : string) :
  f c = false → ∃ t, TrimRightFunc f (String c s) = String c t.
Proof.
  intros Hc. cbn [TrimRightFunc]. destruct (TrimRightFunc f s) as [|a r].
  - rewrite Hc. now exists "".
  - now exists (String a r).
Qed.

Lemma TrimRightFunc_idem (f : ascii → bool) (s : string) :
  TrimRightFunc f (TrimRightFunc f s) = TrimRightFunc f s.
Proof.
  induction s as [|c s IH]; [reflexivity|]. cbn [TrimRightFunc].
  destruct (TrimRightFunc f s) as [|a r] eqn:E.
  - destruct (f c) eqn:Hc; [reflexivity|]. cbn [str1 TrimRightFunc].
    now rewrite Hc.
  - cbn [TrimRightFunc]. cbn [TrimRightFunc] in IH. now rewrite IH.
Qed.

Lemma TrimRightFunc_nil (f : ascii → bool) (s : string) :
  TrimRightFunc f s = "" → allBytes f s = true.
Proof.
  induction s as [|c s IH]; [reflexivity|]. cbn [TrimRightFunc allBytes].
  destruct (TrimRightFunc f s); [|discriminate].
  destruct (f c); [|discriminate]. intros _. now apply IH.
Qed.

(** A trimmed text is empty or starts with a byte that is no white space. *)
Lemma TrimSpace_shape (s : string) :
  TrimSpace s = "" ∨ ∃ c t, TrimSpace s = String c t ∧ isSpace c = false.
Proof.
  unfold TrimSpace.
  destruct (TrimLeftFunc_shape isSpace s) as [->|(c & t & -> & Hc)];
    [now left|].
  right. destruct (TrimRightFunc_head isSpace c t Hc) as [t' ->].
  now exists c, t'.
Qed.

Lemma TrimSpace_idem (s : string) : TrimSpace (TrimSpace s) = TrimSpace s.
Proof.
  unfold TrimSpace.
  destruct (TrimLeftFunc_shape isSpace s) as [->|(c & t & -> & Hc)];
    [reflexivity|].
  destruct (TrimRightFunc_head isSpace c t Hc) as [t' E].
  rewrite E. cbn [TrimLeftFunc]. rewrite Hc, <- E. apply TrimRightFunc_idem.
Qed.

(** Trimming a text that starts with a byte that is no white space keeps
    that byte first. *)
Lemma TrimSpace_head (c : ascii) (t : string) :
  isSpace c = false → ∃ t', TrimSpace (String c t) = String c t'.
Proof.
  intros Hc. unfold TrimSpace. cbn [TrimLeftFunc]. rewrite Hc.
  now apply TrimRightFunc_head.
Qed.

Lemma TrimFunc_none (f : ascii → bool) (s : string) :
  allBytes (fun c => negb (f c)) s = true →
  TrimLeftFunc f s = s ∧ TrimRightFunc f s = s.
Proof.
  induction s as [|c s IH]; [now split|]. cbn [allBytes].
  intros [Hc Hs]%andb_true_iff. apply negb_true_iff in Hc.
  destruct (IH Hs) as [_ IHr]. split.
  - cbn. now rewrite Hc.
  - cbn [TrimRightFunc]. rewrite IHr. destruct s; [now rewrite Hc|reflexivity].
Qed.

Lemma allBytes_hasByte (f : ascii → bool) (c : ascii) (s : string) :
  allBytes (fun x => negb (f x)) s = true → f c = true → hasByte c s = false.
Proof.
  intros Hs Hc. induction s as [|a s IH]; [reflexivity|].
  cbn [allBytes] in Hs. apply andb_true_iff in Hs as [Ha Hs].
  cbn [hasByte]. rewrite (IH Hs), orb_false_r.
  apply Ascii.eqb_neq. intros ->. rewrite Hc in Ha. discriminate.
Qed.

(** [Index line "#" == 0] tells whether the line starts with the sign. *)
Lemma Index_hash (s : string) :
  (Index s "#" =? 0) = HasPrefix s "#".
Proof.
  destruct s as [|c s]; [reflexivity|]. cbn [Index].
  destruct (HasPrefix (String c s) "#"); [reflexivity|].
  destruct (Index s "#" <? 0) eqn:E; [reflexivity|].
  apply Z.ltb_ge in E. apply Z.eqb_neq. lia.
Qed.

Lemma isCommentOrBlank_false (line : string) :
  isCommentOrBlank line = false →
  ∃ c t, line = String c t ∧ Ascii.eqb "#" c = false.
Proof.
  unfold isCommentOrBlank. rewrite Index_hash.
  destruct line as [|c t]; [discriminate|]. cbn [String.eqb HasPrefix orb].
  assert (HasPrefix t "" = true) as -> by (destruct t; reflexivity).
  rewrite andb_true_r. intros H. now exists c, t.
Qed.

End string_trimming.

(** ** Labels *)

Section label_lines.
Import types parser gostrings.

(** What a key and a value of [GetLabels] look like. *)
Lemma getLabelLines_keys (subs : list string) :
  ∀ labels : gmap string string,
    (∀ k v, labels !! k = Some v → labelEntry k v) →
    ∀ k v, getLabelLines subs labels !! k = Some v → labelEntry k v.
Proof.
  induction subs as [|line0 subs IH]; intros labels Hl; [exact Hl|].
  cbn [getLabelLines].
  destruct (isCommentOrBlank (TrimSpace line0)) eqn:Hc; [now apply IH|].
  apply isCommentOrBlank_false in Hc as (c & t & Eline & Hhash).
  assert (isSpace c = false) as Hsp.
  { destruct (TrimSpace_shape line0) as [E|(c' & t' & E & Hc')];
      rewrite E in Eline; [discriminate|]. now injection Eline as <- _. }
  assert (∀ a, a ≠ "" → (∃ b, String c t = a +:+ b) →
               hasByte " " a = false →
               TrimSpace a ≠ "" ∧ hasByte " " (TrimSpace a) = false
               ∧ HasPrefix (TrimSpace a) "#" = false) as Hkey.
  { intros a Ha [b Hb] Hsa. destruct a as [|x a]; [done|].
    rewrite str_app_cons in Hb. injection Hb as <- _.
    destruct (TrimSpace_head c a Hsp) as [a' E].
    split; [now rewrite E|]. split; [now apply hasByte_TrimSpace|].
    rewrite E. cbn [HasPrefix]. now rewrite Hhash. }
  rewrite Eline.
  destruct (SplitN (String c t) " " 2) as [|k0 [|v0 rest]] eqn:Es;
    cbn [SplitN] in Es;
    destruct (cut (String c t) " ") as [[a b]|] eqn:Ecut;
    try discriminate.
  - (* one field *)
    injection Es as <-. cbn [hd]. apply IH. intros k v.
    destruct (decide (k = TrimSpace (String c t))) as [->|Hne].
    + rewrite lookup_insert_eq. intros [= <-].
      destruct (Hkey (String c t)) as (H1 & H2 & H3);
        [done|now exists ""; rewrite str_app_nil_r
        |now apply cut_None|].
      repeat split; assumption.
    + rewrite lookup_insert_ne by congruence. apply Hl.
  - (* a key and a value *)
    injection Es as <- <- <-. apply cut_Some in Ecut as [E Ha].
    apply IH. intros k v.
    destruct (decide (k = TrimSpace a)) as [->|Hne].
    + rewrite lookup_insert_eq. intros [= <-].
      destruct (Hkey a) as (H1 & H2 & H3);
        [|now exists (String " " b)|exact Ha|].
      * intros ->. rewrite str_app_nil_l in E. injection E as -> _.
        discriminate.
      * repeat split; try assumption. apply TrimSpace_idem.
    + rewrite lookup_insert_ne by congruence. apply Hl.
Qed.

End label_lines.

(** ** What a parsed definition looks like *)

Section parsed_definition.
Import types parser gostrings.


Lemma validSections_no_space (k : string) :
  k ∈ validSections → hasByte " " k = false.
Proof.
  revert k. apply Forall_forall. unfold validSections.
  repeat constructor.
Qed.

(** *** The fields [populateDefinition] fills *)

Lemma populateDefinition_fields st d d' :
  populateDefinition st d = Ok d' →
  Header d' = Header d
  ∧ AppOrder d' = appOrder st
  ∧ BuildData_Files d' = files st
  ∧ Labels d'
    = GetLabels (Script_Script (section (initSections (sections st)) "labels"))
  ∧ (CustomData d' = CustomData d ∧ remaining st = ∅
     ∨ CustomData d' = Some (Script_Script <$> remaining st)
       ∧ remaining st ≠ ∅ ∧ invalidKeys (remaining st) = []).
Proof.
  unfold populateDefinition, remaining.
  generalize (removeStandard (initSections (sections st))) as rem.
  generalize (GetLabels (Script_Script
                (section (initSections (sections st)) "labels"))) as labels.
  generalize (initSections (sections st)) as secs.
  intros secs labels rem.
  destruct (bool_decide (size rem ≠ 0%nat)) eqn:Hsz.
  - destruct (bool_decide (invalidKeys rem ≠ [])) eqn:Hbad; [discriminate|].
    cbn [obind].
    match goal with |- context [isEmpty ?x] => destruct (isEmpty x) end;
      [discriminate|].
    intros [= <-]. cbn. repeat split. right.
    apply bool_decide_eq_true in Hsz. apply bool_decide_eq_false in Hbad.
    repeat split.
    + now apply map_size_non_empty_iff.
    + destruct (invalidKeys rem); [reflexivity|]. now destruct Hbad.
  - cbn [obind].
    match goal with |- context [isEmpty ?x] => destruct (isEmpty x) end;
      [discriminate|].
    intros [= <-]. cbn. repeat split. left. split; [reflexivity|].
    apply bool_decide_eq_false in Hsz. apply map_size_empty_iff.
    destruct (size rem); [reflexivity|]. now destruct Hsz.
Qed.

(** *** The working state stays in order *)

Lemma mergeFiles_args (fs : list Files) (f : Files) :
  Files_Args <$> mergeFiles fs f
  = if bool_decide (Files_Args f ∈ Files_Args <$> fs)
    then Files_Args <$> fs
    else (Files_Args <$> fs) ++ [Files_Args f].
Proof.
  induction fs as [|ef fs IH].
  - cbn. rewrite bool_decide_eq_false_2; [reflexivity|]. apply not_elem_of_nil.
  - cbn [mergeFiles fmap list_fmap].
    destruct (String.eqb_spec (Files_Args ef) (Files_Args f)) as [E|E].
    + cbn [fmap list_fmap Files_Args].
      rewrite bool_decide_eq_true_2; [reflexivity|].
      rewrite <- E. apply list_elem_of_here.
    + cbn [fmap list_fmap]. fold (list_fmap _ _ Files_Args (mergeFiles fs f)).
      fold (list_fmap _ _ Files_Args fs). rewrite IH.
      destruct (bool_decide (Files_Args f ∈ Files_Args <$> fs)) eqn:Hin.
      * rewrite bool_decide_eq_true_2; [reflexivity|].
        apply list_elem_of_further. now apply bool_decide_eq_true in Hin.
      * rewrite bool_decide_eq_false_2; [reflexivity|].
        apply bool_decide_eq_false in Hin.
        intros [?|?]%elem_of_cons; [congruence|contradiction].
Qed.

Lemma mergeFiles_NoDup (fs : list Files) (f : Files) :
  NoDup (Files_Args <$> fs) → NoDup (Files_Args <$> mergeFiles fs f).
Proof.
  intros H. rewrite mergeFiles_args.
  destruct (bool_decide _) eqn:E; [exact H|].
  apply bool_decide_eq_false in E. apply NoDup_app. split; [exact H|].
  split; [|apply NoDup_singleton].
  intros x Hx ->%list_elem_of_singleton. contradiction.
Qed.

Lemma ensureSection_is_Some key (secs : gmap string Script) k :
  is_Some (secs !! k) → is_Some (ensureSection key secs !! k).
Proof.
  intros [sc E]. rewrite ensureSection_lookup, E. now exists sc.
Qed.

Lemma ensureSection_here key (secs : gmap string Script) :
  is_Some (ensureSection key secs !! key).
Proof.
  rewrite ensureSection_lookup. destruct (secs !! key); [eauto|].
  rewrite decide_True by reflexivity. eauto.
Qed.

Lemma SplitN_3_head (s name app : string) (rest : list string) :
  SplitN s " " 3 = name :: app :: rest → hasByte " " name = false.
Proof.
  cbn [SplitN]. destruct (cut s " ") as [[a b]|] eqn:E; [|discriminate].
  intros H. injection H as <- _. now apply cut_Some in E as [_ E].
Qed.

Lemma parseTokenSection_OK (tok : string) (st st' : pstate) :
  parseTokenSection tok st = Ok st' → pstateOK st → pstateOK st'.
Proof.
  unfold parseTokenSection, pstateOK.
  destruct (SplitN tok NL 2) as [|split0 [|split1 [|? ?]]]; try discriminate.
  intros H (Happ & Hfiles & Hsec). revert H.
  destruct (String.eqb _ "files").
  { destruct (parseFileLines _ _) as [fs| |]; try discriminate.
    cbn [obind]. intros [= <-]. cbn [appOrder files sections].
    split; [exact Happ|]. split; [now apply mergeFiles_NoDup|exact Hsec]. }
  destruct (bool_decide (_ ∈ appSections)).
  - destruct (SplitN _ " " 3) as [|name [|appName rest]] eqn:Es;
      try discriminate.
    intros [= <-]. cbn [appOrder files sections Join].
    apply SplitN_3_head in Es.
    assert (∀ a, a ∈ appOrder st ∨ a = appName →
                 ∃ name0, hasByte " " name0 = false
                          ∧ is_Some (appendScript (name +:+ " " +:+ appName)
                                       split1
                                       (ensureSection
                                          (name +:+ " " +:+ appName)
                                          (sections st))
                                     !! (name0 +:+ " " +:+ a))) as Hnew.
    { intros a [Ha| ->].
      - destruct (Hsec a Ha) as (name0 & Hn & Hs). exists name0.
        split; [exact Hn|]. apply lookup_alter_is_Some.
        now apply ensureSection_is_Some.
      - exists name. split; [exact Es|]. apply lookup_alter_is_Some.
        apply ensureSection_here. }
    destruct (bool_decide (appName ∈ appOrder st)) eqn:Hin.
    + split; [exact Happ|]. split; [exact Hfiles|]. intros a Ha. auto.
    + apply bool_decide_eq_false in Hin.
      split; [|split; [exact Hfiles|]].
      * apply NoDup_app. split; [exact Happ|].
        split; [|apply NoDup_singleton].
        intros x Hx ->%list_elem_of_singleton. contradiction.
      * intros a [Ha|Ha%list_elem_of_singleton]%elem_of_app; auto.
  - intros [= <-]. cbn [appOrder files sections].
    split; [exact Happ|]. split; [exact Hfiles|].
    intros a Ha. destruct (Hsec a Ha) as (name0 & Hn & Hs). exists name0.
    split; [exact Hn|]. apply lookup_alter_is_Some.
    destruct (cut _ " ") as [[? ?]|];
      try apply lookup_alter_is_Some; now apply ensureSection_is_Some.
Qed.

Lemma parseTokens_OK (toks : list string) :
  ∀ st st', parseTokens toks st = Ok st' → pstateOK st → pstateOK st'.
Proof.
  induction toks as [|tok toks IH]; intros st st'; cbn [parseTokens].
  - now intros [= <-].
  - destruct (parseTokenSection tok st) as [st1| |] eqn:E; try discriminate.
    cbn [obind]. intros H Hst. apply (IH _ _ H).
    exact (parseTokenSection_OK _ _ _ E Hst).
Qed.

Lemma pstateOK_empty : pstateOK (mkPstate ∅ [] []).
Proof.
  split; [constructor|]. split; [constructor|].
  intros a Ha. now apply elem_of_nil in Ha.
Qed.

(** *** The header holds valid keywords only *)

Lemma doHeaderLine_keys st st' line :
  doHeaderLine st line = Ok st' →
  Header (hdef st) = None →
  (∀ k, is_Some (header st !! k) → headerKeyOK k = true) →
  hdef st' = hdef st
  ∧ ∀ k, is_Some (header st' !! k) → headerKeyOK k = true.
Proof.
  intros H Hnil Hkeys. revert H. unfold doHeaderLine.
  assert (∀ key val kc vc,
            headerKeyOK key = true →
            ∀ k, is_Some (header (mkHstate (<[key := val]> (header st)) kc vc
                                          (hdef st)) !! k) →
                 headerKeyOK k = true) as Hins.
  { intros key val kc vc Hok k. cbn [header].
    rewrite lookup_insert_is_Some. intros [<-|[_ Hk]]; auto. }
  destruct (isCommentOrBlank _).
  - destruct (_ <? _)%nat; [|intros [= <-]; auto].
    rewrite Hnil. discriminate.
  - destruct (_ =? _)%nat.
    + destruct (SplitN _ _ _) as [|k [|v [|? ?]]]; try discriminate.
      cbn [obind]. destruct (HasSuffix _ _); [intros [= <-]; auto|].
      destruct (headerKeyOK _) eqn:Hok; [|discriminate].
      intros [= <-]. split; [reflexivity|]. now apply Hins.
    + cbn [obind]. destruct (HasSuffix _ _); [intros [= <-]; auto|].
      destruct (headerKeyOK _) eqn:Hok; [|discriminate].
      intros [= <-]. split; [reflexivity|]. now apply Hins.
Qed.

Lemma doHeaderLines_keys toks :
  ∀ st st',
    doHeaderLines toks st = Ok st' →
    Header (hdef st) = None →
    (∀ k, is_Some (header st !! k) → headerKeyOK k = true) →
    hdef st' = hdef st
    ∧ ∀ k, is_Some (header st' !! k) → headerKeyOK k = true.
Proof.
  induction toks as [|l toks IH]; intros st st'; cbn [doHeaderLines].
  - intros [= <-]. auto.
  - destruct (doHeaderLine st l) as [st1| |] eqn:E; try discriminate.
    cbn [obind]. intros H Hnil Hkeys.
    destruct (doHeaderLine_keys _ _ _ E Hnil Hkeys) as [Hd Hk].
    destruct (IH _ _ H) as [Hd' Hk']; [congruence|exact Hk|].
    split; [congruence|exact Hk'].
Qed.

Lemma doHeader_OK h d d' :
  doHeader h d = Ok d' → Header d = None → headerOK d'.
Proof.
  unfold doHeader, headerOK.
  destruct (doHeaderLines _ _) as [st| |] eqn:E; try discriminate.
  cbn [obind]. intros H Hnil.
  destruct (doHeaderLines_keys _ _ _ E) as [Hd Hk];
    [exact Hnil
    |intros k [x Hx]; cbn [header] in Hx; rewrite lookup_empty in Hx;
     discriminate|].
  cbn [hdef] in Hd. revert H.
  destruct (bool_decide (size (header st) ≠ 0%nat)) eqn:Hsz; intros [= <-].
  - cbn. intros hm [= <-]. apply bool_decide_eq_true in Hsz.
    split; [now apply map_size_non_empty_iff|exact Hk].
  - rewrite Hd, Hnil. discriminate.
Qed.

(** *** From the file to the definition *)

Lemma ParseDefinitionFile_Ok raw d :
  ParseDefinitionFile raw = Ok d →
  ∃ st d0, pstateOK st ∧ headerOK d0 ∧ populateDefinition st d0 = Ok d.
Proof.
  unfold ParseDefinitionFile.
  destruct (scanTokens _ _) as [toks serr].
  destruct (skipEmptyTokens _) as [|text more]; [destruct serr; discriminate|].
  assert (headerOK (zeroDef raw raw)) as Hzero by (intros hm [=]).
  unfold doSections. destruct (TrimSpace text) as [|c tok].
  - cbn [obind]. destruct (parseTokens more _) as [st| |] eqn:E;
      try discriminate.
    cbn [obind]. destruct serr; [discriminate|]. intros H.
    exists st, (zeroDef raw raw). split; [|split; [exact Hzero|exact H]].
    exact (parseTokens_OK _ _ _ E pstateOK_empty).
  - destruct (negb _).
    + destruct (doHeader _ _) as [d1| |] eqn:Eh; try discriminate;
        [|destruct e; discriminate].
      cbn [wrapErr obind].
      destruct (parseTokens more _) as [st| |] eqn:E; try discriminate.
      cbn [obind]. destruct serr; [discriminate|]. intros H.
      exists st, d1. split; [|split; [|exact H]].
      * exact (parseTokens_OK _ _ _ E pstateOK_empty).
      * exact (doHeader_OK _ _ _ Eh eq_refl).
    + destruct (parseTokenSection _ _) as [st0| |] eqn:E0; try discriminate.
      cbn [obind].
      destruct (parseTokens more _) as [st| |] eqn:E; try discriminate.
      cbn [obind]. destruct serr; [discriminate|]. intros H.
      exists st, (zeroDef raw raw). split; [|split; [exact Hzero|exact H]].
      apply (parseTokens_OK _ _ _ E).
      exact (parseTokenSection_OK _ _ _ E0 pstateOK_empty).
Qed.

(** A parsed definition lists every app once and holds one block of files
    for every arguments text of a files section, however often the file
    names them. *)
Theorem ParseDefinitionFile_no_duplicates (raw : string) (d : Def) :
  ParseDefinitionFile raw = Ok d →
  NoDup (AppOrder d) ∧ NoDup (Files_Args <$> BuildData_Files d).
Proof.
  intros H. apply ParseDefinitionFile_Ok in H as (st & d0 & Hst & _ & H).
  apply populateDefinition_fields in H as (_ & -> & -> & _).
  destruct Hst as (Happ & Hfiles & _). now split.
Qed.

Lemma ParseDefinitionFile_no_duplicates_witness :
  NoDup (AppOrder parsedRepeats)
  ∧ NoDup (Files_Args <$> BuildData_Files parsedRepeats).
Proof.
  apply (ParseDefinitionFile_no_duplicates recipeRepeats).
  vm_compute. reflexivity.
Defined.

(** Every app a parsed definition lists has a section in its custom data,
    under a key made of an app section name, a space and the app's name. *)
Theorem ParseDefinitionFile_apps (raw : string) (d : Def) (a : string) :
  ParseDefinitionFile raw = Ok d →
  a ∈ AppOrder d →
  ∃ name cm, name ∈ appSections
             ∧ CustomData d = Some cm
             ∧ is_Some (cm !! (name +:+ " " +:+ a)).
Proof.
  intros H Ha. apply ParseDefinitionFile_Ok in H as (st & d0 & Hst & _ & H).
  apply populateDefinition_fields in H as (_ & Eapp & _ & _ & Hcd).
  rewrite Eapp in Ha. destruct Hst as (_ & _ & Hsec).
  destruct (Hsec a Ha) as (name & Hname & Hs).
  assert (is_Some (remaining st !! (name +:+ " " +:+ a))) as Hrem.
  { rewrite remaining_lookup. rewrite decide_False; [exact Hs|].
    intros Hv%validSections_no_space. rewrite hasByte_app in Hv.
    apply orb_false_iff in Hv as [_ Hv]. discriminate. }
  destruct Hcd as [[_ Hempty]|(Hcd & _ & Hbad)].
  { rewrite Hempty, lookup_empty in Hrem. now destruct Hrem. }
  exists name, (Script_Script <$> remaining st).
  split; [|split; [exact Hcd|rewrite lookup_fmap; now apply fmap_is_Some]].
  destruct (decide (name ∈ appSections)) as [Hin|Hout]; [exact Hin|].
  assert (name +:+ " " +:+ a ∈ invalidKeys (remaining st)) as Hk.
  { apply invalidKeys_spec. split; [exact Hrem|].
    unfold firstWordOfKey.
    change (name +:+ " " +:+ a) with (name +:+ String " " a).
    now rewrite (Split_app _ _ _ Hname). }
  rewrite Hbad in Hk. now apply elem_of_nil in Hk.
Qed.

Lemma ParseDefinitionFile_apps_witness :
  ∃ name cm, name ∈ appSections ∧ CustomData parsedRepeats = Some cm
             ∧ is_Some (cm !! (name +:+ " " +:+ "foo")).
Proof.
  apply (ParseDefinitionFile_apps recipeRepeats).
  - vm_compute. reflexivity.
  - vm_compute. apply list_elem_of_here.
Defined.

(** The header of a parsed definition is nil, or it holds an entry at least
    and every key of it passes the keyword check. *)
Theorem ParseDefinitionFile_header (raw : string) (d : Def)
    (hm : gmap string string) :
  ParseDefinitionFile raw = Ok d →
  Header d = Some hm →
  hm ≠ ∅ ∧ ∀ k, is_Some (hm !! k) → headerKeyOK k = true.
Proof.
  intros H Hh. apply ParseDefinitionFile_Ok in H as (st & d0 & _ & Hd0 & H).
  apply populateDefinition_fields in H as (E & _). rewrite E in Hh.
  exact (Hd0 hm Hh).
Qed.

Lemma ParseDefinitionFile_header_witness :
  dockerHeader ≠ ∅ ∧ ∀ k, is_Some (dockerHeader !! k) → headerKeyOK k = true.
Proof.
  eapply (ParseDefinitionFile_header recipeContinued).
  - vm_compute. reflexivity.
  - vm_compute. reflexivity.
Defined.

(** Every label [GetLabels] reads has a key that is not empty, holds no
    space and does not start with a comment sign, and a value without white
    space at either end; so has every label of a parsed definition. *)
Theorem GetLabels_entries :
  (∀ content k v, GetLabels content !! k = Some v → labelEntry k v)
  ∧ (∀ raw d k v,
       ParseDefinitionFile raw = Ok d → Labels d !! k = Some v →
       labelEntry k v).
Proof.
  assert (∀ content k v, GetLabels content !! k = Some v → labelEntry k v)
    as Hget.
  { intros content. unfold GetLabels. apply getLabelLines_keys. intros k' v'.
    rewrite lookup_empty. discriminate. }
  split; [exact Hget|].
  intros raw d k v H. apply ParseDefinitionFile_Ok in H as (st & d0 & _ & _ & H).
  apply populateDefinition_fields in H as (_ & _ & _ & -> & _).
  apply Hget.
Qed.

Lemma GetLabels_entries_witness :
  labelEntry "maintainer" "Jo  Doe" ∧ labelEntry "X" "1".
Proof.
  split.
  - apply (proj1 GetLabels_entries
             (unlines ["# who"; "  maintainer   Jo  Doe  "; ""; "version 1"])).
    vm_compute. reflexivity.
  - eapply (proj2 GetLabels_entries
              (unlines ["Bootstrap: docker"; "%labels"; "X 1"])).
    + vm_compute. reflexivity.
    + vm_compute. reflexivity.
Defined.

Lemma filter_args_nil (fs : list Files) (args : string) :
  args ∉ Files_Args <$> fs → filter (fun f => Files_Args f = args) fs = [].
Proof.
  induction fs as [|ef fs IH]; [reflexivity|]. cbn [fmap list_fmap].
  intros H. apply not_elem_of_cons in H as [Hne H].
  rewrite filter_cons_False by congruence. now apply IH.
Qed.

(** A files section adds its files to the block that has its arguments,
    after the files the block holds, or makes a new, last block of them;
    the files of the other blocks stay as they are. *)
Theorem mergeFiles_appends (fs : list Files) (f : Files) (args : string) :
  NoDup (Files_Args <$> fs) →
  filesFor args (mergeFiles fs f)
  = filesFor args fs
    ++ (if decide (Files_Args f = args) then Files_Files f else []).
Proof.
  unfold filesFor. induction fs as [|ef fs IH]; intros Hnd.
  - cbn [mergeFiles]. rewrite filter_nil.
    destruct (decide (Files_Args f = args)) as [E|E].
    + rewrite filter_cons_True by exact E. cbn. now rewrite app_nil_r.
    + rewrite filter_cons_False by exact E. reflexivity.
  - cbn [fmap list_fmap] in Hnd. apply NoDup_cons in Hnd as [Hout Hnd].
    cbn [mergeFiles].
    destruct (String.eqb_spec (Files_Args ef) (Files_Args f)) as [E|E].
    + destruct (decide (Files_Args f = args)) as [Ea|Ea].
      * rewrite !filter_cons_True by (cbn; congruence).
        rewrite filter_args_nil by congruence. cbn.
        now rewrite !app_nil_r.
      * rewrite !filter_cons_False by (cbn; congruence).
        now rewrite app_nil_r.
    + destruct (decide (Files_Args ef = args)) as [Ee|Ee].
      * rewrite !filter_cons_True by exact Ee. cbn [fmap list_fmap concat].
        fold (list_fmap _ _ Files_Files
                (filter (fun f0 => Files_Args f0 = args) (mergeFiles fs f))).
        fold (list_fmap _ _ Files_Files
                (filter (fun f0 => Files_Args f0 = args) fs)).
        now rewrite (IH Hnd), app_assoc.
      * rewrite !filter_cons_False by exact Ee. exact (IH Hnd).
Qed.

Lemma mergeFiles_appends_witness :
  filesFor "from build"
    (mergeFiles [mkFiles "" [mkFileTransport "/etc/motd" ""];
                 mkFiles "from build" [mkFileTransport "/a" "/b"]]
                (mkFiles "from build" [mkFileTransport "/c" ""]))
  = [mkFileTransport "/a" "/b"] ++ [mkFileTransport "/c" ""].
Proof.
  apply (mergeFiles_appends
           [mkFiles "" [mkFileTransport "/etc/motd" ""];
            mkFiles "from build" [mkFileTransport "/a" "/b"]]
           (mkFiles "from build" [mkFileTransport "/c" ""]) "from build").
  cbn [fmap list_fmap Files_Args]. apply NoDup_cons.
  split; [intros [=]%list_elem_of_singleton|apply NoDup_singleton].
Defined.

End parsed_definition.

(** ** Section tokens *)

Section section_tokens.
Import types parser gostrings.

Lemma SplitN_2_app (c : ascii) (a b : string) :
  hasByte c a = false → SplitN (a +:+ String c b) c 2 = [a; b].
Proof. intros H. cbn [SplitN]. now rewrite (cut_app c a b H). Qed.

Lemma SplitN_2_none (c : ascii) (s : string) :
  hasByte c s = false → SplitN s c 2 = [s].
Proof. intros H. cbn [SplitN]. now rewrite (hasByte_cut c s H). Qed.

Lemma ToLower_app (a b : string) : ToLower (a +:+ b) = ToLower a +:+ ToLower b.
Proof.
  induction a as [|c a IH]; [reflexivity|].
  rewrite str_app_cons. cbn [ToLower]. now rewrite IH.
Qed.

Lemma toLowerByte_space (c : ascii) :
  Ascii.eqb (toLowerByte c) " " = Ascii.eqb c " ".
Proof. destruct c as [[] [] [] [] [] [] [] []]; reflexivity. Qed.

Lemma hasByte_ToLower_space (s : string) :
  hasByte " " (ToLower s) = hasByte " " s.
Proof.
  induction s as [|c s IH]; [reflexivity|]. cbn [ToLower hasByte].
  now rewrite toLowerByte_space, IH.
Qed.

Lemma TrimLeft_percent (s : string) :
  HasPrefix s "%" = false → TrimLeft s "%" = s.
Proof.
  destruct s as [|c s]; [reflexivity|]. cbn [HasPrefix].
  assert (HasPrefix s "" = true) as -> by (destruct s; reflexivity).
  rewrite andb_true_r. intros H. unfold TrimLeft. cbn [TrimLeftFunc].
  now rewrite H.
Qed.

Lemma HasPrefix_app_l (s t : string) :
  HasPrefix s "%" = false → HasPrefix t "%" = false →
  HasPrefix (s +:+ t) "%" = false.
Proof.
  destruct s as [|c s]; [now rewrite str_app_nil_l|].
  rewrite str_app_cons. cbn [HasPrefix].
  assert (∀ u, HasPrefix u "" = true) as E by (now intros []).
  now rewrite !E.
Qed.

(** The text after the sign of a section's first line. *)
Lemma TrimLeft_sectionHead (name : string) (args : option string) :
  HasPrefix name "%" = false →
  TrimLeft (sectionHead name args) "%"
  = name +:+ match args with Some a => " " +:+ a | None => "" end.
Proof.
  intros H. unfold sectionHead, TrimLeft.
  change ("%" +:+ ?x) with (String "%" x). cbn [TrimLeftFunc].
  rewrite Ascii.eqb_refl. apply TrimLeft_percent.
  apply HasPrefix_app_l; [exact H|]. now destruct args.
Qed.

Lemma getSectionName_sectionHead (name : string) (args : option string) :
  hasByte " " name = false → HasPrefix name "%" = false →
  getSectionName (sectionHead name args) = ToLower name.
Proof.
  intros Hsp Hp. unfold getSectionName.
  rewrite (TrimLeft_sectionHead name args Hp), ToLower_app.
  destruct args as [a|].
  - change (ToLower (" " +:+ a)) with (String " " (ToLower a)).
    rewrite SplitN_2_app; [reflexivity|]. now rewrite hasByte_ToLower_space.
  - rewrite str_app_nil_r, SplitN_2_none; [reflexivity|].
    now rewrite hasByte_ToLower_space.
Qed.

Lemma hasByte_sectionHead (name : string) (args : option string) :
  hasByte NL name = false →
  (∀ a, args = Some a → hasByte NL a = false) →
  hasByte NL (sectionHead name args) = false.
Proof.
  intros Hn Ha. unfold sectionHead. rewrite !hasByte_app, Hn.
  destruct args as [a|]; [|reflexivity].
  rewrite hasByte_app, (Ha a eq_refl). reflexivity.
Qed.

(** A section that is neither a files nor an app section: its name counts
    whatever the case of its letters, its text goes after the text the
    section already has, and its arguments replace the earlier ones when it
    has some. *)
Theorem parseTokenSection_standard (name : string) (args : option string)
    (body : string) (st : pstate) :
  let key := ToLower name in
  let old := section (sections st) key in
  hasByte " " name = false → hasByte NL name = false →
  HasPrefix name "%" = false →
  (∀ a, args = Some a → hasByte NL a = false) →
  key ≠ "files" → key ∉ appSections →
  ∃ st',
    parseTokenSection (sectionHead name args +:+ str1 NL +:+ body) st = Ok st'
    ∧ sections st' !! key
      = Some (mkScript (default (Script_Args old) args)
                       (Script_Script old +:+ body))
    ∧ (∀ k, k ≠ key → sections st' !! k = sections st !! k)
    ∧ files st' = files st ∧ appOrder st' = appOrder st.
Proof.
  intros key old Hsp Hnl Hp Hargs Hfiles Happ.
  unfold parseTokenSection. rewrite str1_app.
  rewrite (SplitN_2_app NL _ body (hasByte_sectionHead name args Hnl Hargs)).
  rewrite (getSectionName_sectionHead name args Hsp Hp). fold key.
  rewrite (proj2 (String.eqb_neq key "files") Hfiles).
  rewrite (bool_decide_eq_false_2 _ Happ).
  rewrite (TrimLeft_sectionHead name args Hp).
  assert (ensureSection key (sections st) !! key = Some old) as Hold.
  { rewrite ensureSection_lookup. unfold old, section.
    destruct (sections st !! key); [reflexivity|].
    now rewrite decide_True. }
  assert (∀ k, k ≠ key → ensureSection key (sections st) !! k
                         = sections st !! k) as Hother.
  { intros k Hk. rewrite ensureSection_lookup.
    destruct (sections st !! k); [reflexivity|].
    rewrite decide_False; congruence. }
  destruct args as [a|]; cbn [default].
  - change (" " +:+ a) with (String " " a).
    rewrite (SplitN_2_app " " name a Hsp).
    eexists. split; [reflexivity|]. cbn [sections files appOrder].
    unfold appendScript, setArgs. split; [|split; [|split; reflexivity]].
    + now rewrite !lookup_alter_eq, Hold.
    + intros k Hk. rewrite !lookup_alter_ne by congruence. now apply Hother.
  - rewrite str_app_nil_r, (SplitN_2_none " " name Hsp).
    eexists. split; [reflexivity|]. cbn [sections files appOrder].
    unfold appendScript. split; [|split; [|split; reflexivity]].
    + now rewrite lookup_alter_eq, Hold.
    + intros k Hk. rewrite lookup_alter_ne by congruence. now apply Hother.
Qed.

Lemma parseTokenSection_standard_witness :
  ∃ st',
    parseTokenSection (sectionHead "Post" (Some "-c /bin/bash") +:+ str1 NL
                       +:+ "make install")
                      (mkPstate {["post" := mkScript "" "make; "]} [] [])
    = Ok st'
    ∧ sections st' !! "post"
      = Some (mkScript "-c /bin/bash" "make; make install").
Proof.
  destruct (parseTokenSection_standard "Post" (Some "-c /bin/bash")
              "make install"
              (mkPstate {["post" := mkScript "" "make; "]} [] []))
    as (st' & H1 & H2 & _);
    [reflexivity|reflexivity|reflexivity|now intros a [= <-]|discriminate
    |vm_compute; discriminate|].
  exists st'. split; [exact H1|exact H2].
Defined.

(** *** Sections stay in the state *)

Lemma parseTokenSection_keeps (tok : string) (st st' : pstate) (k : string) :
  parseTokenSection tok st = Ok st' →
  is_Some (sections st !! k) → is_Some (sections st' !! k).
Proof.
  unfold parseTokenSection.
  destruct (SplitN tok NL 2) as [|split0 [|split1 [|? ?]]]; try discriminate.
  destruct (String.eqb _ "files").
  { destruct (parseFileLines _ _) as [fs| |]; try discriminate.
    cbn [obind]. now intros [= <-]. }
  destruct (bool_decide (_ ∈ appSections)).
  - destruct (SplitN _ " " 3) as [|name [|appName rest]]; try discriminate.
    intros [= <-] Hk. cbn [sections]. apply lookup_alter_is_Some.
    now apply ensureSection_is_Some.
  - intros [= <-] Hk. cbn [sections]. apply lookup_alter_is_Some.
    destruct (cut _ " ") as [[? ?]|];
      try apply lookup_alter_is_Some; now apply ensureSection_is_Some.
Qed.

Lemma parseTokens_keeps (toks : list string) (k : string) :
  ∀ st st', parseTokens toks st = Ok st' →
            is_Some (sections st !! k) → is_Some (sections st' !! k).
Proof.
  induction toks as [|tok toks IH]; intros st st'; cbn [parseTokens].
  - now intros [= <-].
  - destruct (parseTokenSection tok st) as [st1| |] eqn:E; try discriminate.
    cbn [obind]. intros H Hk. apply (IH _ _ H).
    exact (parseTokenSection_keeps _ _ _ _ E Hk).
Qed.

(** A section the state holds that is neither standard nor an app section
    makes [populateDefinition] fail, and the error names it. *)
Lemma populateDefinition_invalid (st : pstate) (d : Def) (k : string) :
  is_Some (sections st !! k) → k ∉ validSections →
  firstWordOfKey k ∉ appSections →
  ∃ bad, populateDefinition st d = Err (InvalidSectionError bad) ∧ k ∈ bad.
Proof.
  intros Hk Hv Hw.
  assert (k ∈ invalidKeys (remaining st)) as Hin.
  { apply invalidKeys_spec. split; [|exact Hw].
    rewrite remaining_lookup. now rewrite decide_False. }
  exists (invalidKeys (remaining st)). split; [|exact Hin].
  unfold populateDefinition, remaining in *.
  set (rem := removeStandard (initSections (sections st))) in *.
  assert (invalidKeys rem ≠ []) as Hbad.
  { intros E. rewrite E in Hin. now apply elem_of_nil in Hin. }
  assert (size rem ≠ 0%nat) as Hsz.
  { intros Hz. apply map_size_empty_iff in Hz. apply Hbad.
    unfold invalidKeys. rewrite Hz, map_to_list_empty. reflexivity. }
  rewrite (bool_decide_eq_true_2 _ Hsz), (bool_decide_eq_true_2 _ Hbad).
  reflexivity.
Qed.

(** An app section is known by its name in lower case but is stored under
    its name as written.  Written with a capital letter it is stored under
    a key that is no app section: whatever sections follow, the definition
    is rejected for an invalid section of that name. *)
Theorem parseTokenSection_app_as_written (name app body : string)
    (st : pstate) :
  hasByte " " name = false → hasByte NL name = false →
  HasPrefix name "%" = false →
  hasByte " " app = false → hasByte NL app = false →
  ToLower name ∈ appSections →
  ∃ st',
    parseTokenSection (sectionHead name (Some app) +:+ str1 NL +:+ body) st
    = Ok st'
    ∧ is_Some (sections st' !! (name +:+ " " +:+ app))
    ∧ (name ∉ appSections →
       ∀ more st'' d,
         parseTokens more st' = Ok st'' →
         ∃ bad, populateDefinition st'' d = Err (InvalidSectionError bad)
                ∧ name +:+ " " +:+ app ∈ bad).
Proof.
  intros Hsp Hnl Hp Hasp Hanl Hin.
  unfold parseTokenSection. rewrite str1_app.
  rewrite (SplitN_2_app NL _ body
             (hasByte_sectionHead name (Some app) Hnl
                ltac:(now intros a [= <-]))).
  rewrite (getSectionName_sectionHead name (Some app) Hsp Hp).
  destruct (String.eqb_spec (ToLower name) "files") as [E|_].
  { rewrite E in Hin. vm_compute in Hin. discriminate. }
  rewrite (bool_decide_eq_true_2 _ Hin).
  rewrite (TrimLeft_sectionHead name (Some app) Hp).
  change (" " +:+ app) with (String " " app).
  assert (SplitN (name +:+ String " " app) " " 3 = [name; app]) as ->.
  { cbn [SplitN]. now rewrite (cut_app " " name app Hsp),
                                (hasByte_cut " " app Hasp). }
  cbn [Join]. change (" " +:+ app) with (String " " app).
  eexists. split; [reflexivity|]. cbn [sections].
  assert (is_Some (appendScript (name +:+ String " " app) body
                     (ensureSection (name +:+ String " " app) (sections st))
                   !! (name +:+ String " " app))) as Hkey.
  { apply lookup_alter_is_Some, ensureSection_here. }
  split; [exact Hkey|].
  intros Hout more st'' d Hmore.
  apply populateDefinition_invalid.
  - exact (parseTokens_keeps more _ _ _ Hmore Hkey).
  - intros Hv%validSections_no_space. rewrite hasByte_app in Hv.
    apply orb_false_iff in Hv as [_ Hv]. cbn [hasByte] in Hv. discriminate.
  - unfold firstWordOfKey. now rewrite (Split_app _ _ _ Hsp).
Qed.

Lemma parseTokenSection_app_as_written_witness :
  ∃ st',
    parseTokenSection (sectionHead "AppInstall" (Some "foo") +:+ str1 NL
                       +:+ "make") (mkPstate ∅ [] []) = Ok st'
    ∧ ∃ bad, populateDefinition st' (zeroDef "" "")
             = Err (InvalidSectionError bad)
             ∧ "AppInstall foo" ∈ bad.
Proof.
  destruct (parseTokenSection_app_as_written "AppInstall" "foo" "make"
              (mkPstate ∅ [] [])) as (st' & H1 & _ & H3);
    [reflexivity|reflexivity|reflexivity|reflexivity|reflexivity
    |vm_compute; reflexivity|].
  exists st'. split; [exact H1|].
  apply (H3 ltac:(vm_compute; discriminate) [] st' (zeroDef "" "") eq_refl).
Defined.

(** *** A first section without text *)

Lemma scanTokens_empty (fuel : nat) : scanTokens fuel "" = ([], None).
Proof. now destruct fuel. Qed.

Lemma TrimSpace_word_NL (c : ascii) (w : string) :
  isSpace c = false → allBytes (fun x => negb (isSpace x)) w = true →
  TrimSpace (String c w +:+ str1 NL) = String c w.
Proof.
  intros Hc Hw. unfold TrimSpace. rewrite str_app_cons.
  cbn [TrimLeftFunc]. rewrite Hc. rewrite <- str_app_cons.
  rewrite TrimRightFunc_app_all by reflexivity.
  apply (TrimFunc_none isSpace (String c w)). cbn [allBytes].
  now rewrite Hc, Hw.
Qed.

(** A token without a newline is no section.  The scanner ends every line
    of a token with a newline, but the first token is trimmed before it is
    read: a file that is one section line and nothing else, the line a
    percent sign and a word of ASCII bytes, fails with this error, while
    the same line after a header is an empty section. *)
Theorem parseTokenSection_without_text :
  (∀ tok st,
     hasByte NL tok = false →
     parseTokenSection tok st
     = Err (errorString ("section " +:+ tok +:+
                         ": could not be split into section name and body")))
  ∧ (∀ w,
       allBytes inWord w = true →
       (N.of_nat (String.length w) + 3 ≤ bufio.MaxScanTokenSize)%N →
       ParseDefinitionFile (unlines ["%" +:+ w])
       = Err (errorString ("section %" +:+ w +:+
                           ": could not be split into section name and body")))
  ∧ (∃ d, ParseDefinitionFile (unlines ["Bootstrap: docker"; "%post"]) = Ok d
          ∧ Script_Script (Post (BuildData_Scripts d)) = "").
Proof.
  assert (∀ tok st,
            hasByte NL tok = false →
            parseTokenSection tok st
            = Err (errorString ("section " +:+ tok +:+
                     ": could not be split into section name and body")))
    as Hsplit.
  { intros tok st H. unfold parseTokenSection.
    now rewrite (SplitN_2_none NL tok H). }
  split; [exact Hsplit|]. split; [|eexists; by_computation].
  intros w Hw0 Hlen.
  assert (allBytes (fun c => negb (isSpace c)) w = true) as Hw.
  { revert Hw0. apply allBytes_impl. unfold inWord.
    now intros c [_ H]%andb_true_iff. }
  assert (hasByte NL w = false) as Hnl
    by (now apply (allBytes_hasByte isSpace)).
  assert (hasByte "013"%char w = false) as Hcr
    by (now apply (allBytes_hasByte isSpace)).
  change ("%" +:+ w) with (String "%" w).
  assert (isLine (String "%" w)) as Hline.
  { unfold isLine. cbn [hasByte]. now rewrite Hnl. }
  unfold ParseDefinitionFile. cbn [scanTokens].
  destruct (String.eqb_spec (unlines [String "%" w]) "") as [E|_];
    [now apply unlines_cons_neq in E|].
  rewrite (scanDefinitionFile_unlines _ [] Hline) by constructor.
  cbn [afterToken tokenLines unlines]. unfold bufferNeeded. cbn [cut].
  assert ((N.of_nat (String.length (String "%" w +:+ str1 NL +:+ "")) + 1
           <=? bufio.MaxScanTokenSize)%N = true) as ->.
  { apply N.leb_le. rewrite !str_length_app. cbn [String.length str1]. lia. }
  rewrite scanTokens_empty. unfold tokenOf. cbn [fmap list_fmap unlines].
  rewrite dropCR_id by (cbn [hasByte]; now rewrite Hcr).
  rewrite str_app_nil_r, str_app_cons. cbn [skipEmptyTokens].
  unfold doSections. rewrite <- str_app_cons.
  rewrite (TrimSpace_word_NL "%" w eq_refl Hw).
  cbn [Ascii.eqb Bool.eqb negb andb]. rewrite Hsplit; [reflexivity|].
  cbn [hasByte]. now rewrite Hnl.
Qed.

Lemma parseTokenSection_without_text_witness :
  ParseDefinitionFile (unlines ["%" +:+ "post"])
  = Err (errorString ("section %" +:+ "post" +:+
                      ": could not be split into section name and body")).
Proof.
  apply (proj1 (proj2 parseTokenSection_without_text) "post").
  - reflexivity.
  - vm_compute. discriminate.
Defined.

(** *** A token the scanner cannot hold *)

Lemma unlines_replicate_length (n : nat) (l : string) :
  String.length (unlines (replicate n l)) = (n * S (String.length l))%nat.
Proof.
  induction n as [|n IH]; [reflexivity|].
  cbn [replicate unlines]. rewrite !str_length_app, IH. cbn. lia.
Qed.

Lemma unlines_cons_length (l : string) (ls : list string) :
  String.length (unlines (l :: ls))
  = (String.length l + 1 + String.length (unlines ls))%nat.
Proof. cbn [unlines]. rewrite !str_length_app. cbn. lia. Qed.

(** A token must fit the 64 KiB buffer of the scanner with a byte to
    spare.  A file of 65536 bytes or more in which no line but the first
    starts a section is one token: parsing it fails with the scanner's
    error. *)
Theorem ParseDefinitionFile_token_too_long (l : string) (ls : list string) :
  isLine l → Forall isLine ls →
  Forall (fun x => sectionLine x = false) ls →
  (65536 ≤ N.of_nat (String.length (unlines (l :: ls))))%N →
  ParseDefinitionFile (unlines (l :: ls)) = Err bufio.ErrTooLong.
Proof.
  intros Hl Hls Hplain Hlen. unfold ParseDefinitionFile. cbn [scanTokens].
  destruct (String.eqb_spec (unlines (l :: ls)) "") as [E|_];
    [now apply unlines_cons_neq in E|].
  rewrite (scanDefinitionFile_unlines l ls Hl Hls).
  rewrite (afterToken_plain ls Hplain). unfold bufferNeeded.
  cbn [unlines cut].
  assert ((N.of_nat (String.length (l +:+ str1 NL +:+ unlines ls)) + 1
           <=? bufio.MaxScanTokenSize)%N = false) as ->.
  { apply N.leb_gt. unfold bufio.MaxScanTokenSize. cbn [unlines] in Hlen. lia. }
  reflexivity.
Qed.

Lemma ParseDefinitionFile_token_too_long_witness :
  ParseDefinitionFile (unlines longPost) = Err bufio.ErrTooLong.
Proof.
  unfold longPost. apply ParseDefinitionFile_token_too_long.
  - reflexivity.
  - apply Forall_replicate. reflexivity.
  - apply Forall_replicate. vm_compute. reflexivity.
  - rewrite unlines_cons_length, unlines_replicate_length.
    change (String.length "%post") with 5%nat.
    change (String.length "true") with 4%nat. lia.
Defined.

(** *** A file without a stage *)

Lemma parseStages_not_empty_error (raw : string) (ss : list string) :
  ∀ acc, parseStages raw ss acc ≠ Err errEmptyDefinition.
Proof.
  induction ss as [|s ss IH]; intros acc; cbn [parseStages]; [discriminate|].
  destruct (_ =? _)%nat; [apply IH|].
  destruct (ParseDefinitionFile s) as [d|e|msg]; [apply IH| |discriminate].
  destruct e; [discriminate|apply IH|discriminate].
Qed.

(** [All] never fails with the empty-definition error: its test for an
    input that splits into nothing cannot hold, and a stage that parses to
    the empty definition is passed over.  The empty file, and any file that
    is white space only, is reported as a file without stages. *)
Theorem All_never_empty_definition :
  (∀ raw, All raw ≠ Err errEmptyDefinition)
  ∧ All "" = Err errNoStages
  ∧ (∀ raw, raw ≠ "" →
            ParseDefinitionFile raw = Err errEmptyDefinition →
            FindAllIndex raw = [] →
            All raw = Err errNoStages).
Proof.
  split; [|split; [by_computation|]].
  - intros raw. unfold All.
    rewrite bool_decide_eq_false_2 by apply splitLoop_nonempty.
    pose proof (parseStages_not_empty_error raw (splitStages raw) []) as H.
    destruct (parseStages _ _ _) as [ds|e|msg]; cbn [obind].
    + destruct (bool_decide _); discriminate.
    + congruence.
    + discriminate.
  - intros raw Hne Hp Hfind. unfold All, splitStages. rewrite Hfind.
    cbn [rev splitLoop]. rewrite bool_decide_eq_false_2 by discriminate.
    cbn [parseStages]. rewrite Hp.
    destruct raw; [contradiction|]. reflexivity.
Qed.

Lemma All_never_empty_definition_witness :
  All (unlines ["# nothing here"]) = Err errNoStages.
Proof.
  apply (proj2 (proj2 All_never_empty_definition)); [discriminate| |];
    vm_compute; reflexivity.
Defined.

End section_tokens.

(** ** The build: stages, binds and the log *)

Section build_more.
Import types bundle build gostrings.

(** *** Looking a stage up by its name *)

Lemma findStageIndexFrom_spec (name0 : string) (stgs : list stage) :
  ∀ i : Z,
    ((name0 ∉ (name <$> stgs))
     ∧ findStageIndexFrom i stgs name0
       = (-1, Some (errorString ("stage " +:+ name0 +:+ " was not found"))))
    ∨ ∃ k : nat,
        findStageIndexFrom i stgs name0 = (i + Z.of_nat k, None)
        ∧ (name <$> stgs) !! k = Some name0
        ∧ ∀ j : nat, (j < k)%nat → (name <$> stgs) !! j ≠ Some name0.
Proof.
  induction stgs as [|s stgs IH]; intros i.
  - left. split; [apply not_elem_of_nil|reflexivity].
  - cbn [findStageIndexFrom]. destruct (String.eqb_spec name0 (name s)) as [E|E].
    + right. exists 0%nat. split; [f_equal; lia|].
      split; [cbn; now rewrite E|intros j Hj; lia].
    + destruct (IH (i + 1)) as [[Hout Hr]|(k & Hr & Hk & Hfirst)].
      * left. split; [|exact Hr]. cbn [fmap list_fmap].
        intros [?|?]%elem_of_cons; [congruence|contradiction].
      * right. exists (S k). split; [rewrite Hr; f_equal; lia|].
        split; [exact Hk|]. intros [|j] Hj; cbn; [congruence|].
        apply Hfirst. lia.
Qed.

(** [findStageIndex] returns the index of the first stage that has the
    name, and fails, with the index -1, exactly when no stage has it. *)
Theorem findStageIndex_first (bd : Build) (name0 : string) :
  ((name0 ∈ (name <$> stages bd)) →
   ∃ k : nat,
     findStageIndex bd name0 = (Z.of_nat k, None)
     ∧ (name <$> stages bd) !! k = Some name0
     ∧ ∀ j : nat, (j < k)%nat → (name <$> stages bd) !! j ≠ Some name0)
  ∧ ((name0 ∉ (name <$> stages bd)) →
     findStageIndex bd name0
     = (-1, Some (errorString ("stage " +:+ name0 +:+ " was not found")))).
Proof.
  unfold findStageIndex.
  destruct (findStageIndexFrom_spec name0 (stages bd) 0)
    as [[Hout Hr]|(k & Hr & Hk & Hfirst)].
  - split; [intros Hin; contradiction|intros _; exact Hr].
  - split.
    + intros _. exists k. rewrite Hr. repeat split; assumption.
    + intros Hout. destruct Hout. apply list_elem_of_lookup. now exists k.
Qed.

Lemma findStageIndex_first_witness :
  ∃ k : nat,
    findStageIndex (mkBuild [sampleStage; sampleStage] sampleConf) ""
    = (Z.of_nat k, None)
    ∧ (name <$> [sampleStage; sampleStage]) !! k = Some ""
    ∧ ∀ j : nat, (j < k)%nat →
                 (name <$> [sampleStage; sampleStage]) !! j ≠ Some "".
Proof.
  apply (proj1 (findStageIndex_first
                  (mkBuild [sampleStage; sampleStage] sampleConf) "")).
  apply list_elem_of_here.
Defined.

(** *** Binds *)


(** The destination of a bind is its second field when it has one and its
    only field otherwise; a list of binds covers a destination when one of
    them has it. *)
Theorem haveBindFor_destination :
  (∀ destination, haveBindFor [] destination = false)
  ∧ (∀ xs ys destination,
       haveBindFor (xs ++ ys) destination
       = haveBindFor xs destination || haveBindFor ys destination)
  ∧ (∀ src destination,
       hasByte ":" src = false →
       haveBindFor [src] destination = String.eqb destination src)
  ∧ (∀ src dst destination,
       hasByte ":" src = false → hasByte ":" dst = false →
       haveBindFor [src +:+ ":" +:+ dst] destination
       = String.eqb destination dst)
  ∧ (∀ src dst opts destination,
       hasByte ":" src = false → hasByte ":" dst = false →
       haveBindFor [src +:+ ":" +:+ dst +:+ ":" +:+ opts] destination
       = String.eqb destination dst).
Proof.
  split; [reflexivity|]. split; [intros; apply existsb_app|].
  unfold haveBindFor. cbn [existsb]. split; [|split].
  - intros src d Hs. now rewrite (Split_none _ _ Hs), orb_false_r.
  - intros src dst d Hs Hd. change (":" +:+ dst) with (String ":" dst).
    now rewrite (Split_app _ _ _ Hs), (Split_none _ _ Hd), orb_false_r.
  - intros src dst opts d Hs Hd.
    change (":" +:+ dst +:+ ":" +:+ opts)
      with (String ":" (dst +:+ String ":" opts)).
    now rewrite (Split_app _ _ _ Hs), (Split_app _ _ _ Hd), orb_false_r.
Qed.

Lemma haveBindFor_destination_witness :
  haveBindFor ["/srv/resolv.conf" +:+ ":" +:+ "/etc/resolv.conf" +:+ ":" +:+
               "ro"] "/etc/resolv.conf"
  = String.eqb "/etc/resolv.conf" "/etc/resolv.conf".
Proof.
  apply (proj2 (proj2 (proj2 (proj2 haveBindFor_destination))));
    reflexivity.
Defined.

End build_more.

(** ** What [newBuild] builds *)

Section new_build_stages.
Import types bundle build gostrings.

Lemma newStage_fields env conf entries last i d sc s sc' :
  newStage env conf entries last i d sc = Ok (s, sc') →
  stageFor (Conf_Opts conf) d s ∧ a s = None.
Proof.
  unfold newStage. case_bool_decide as Hh; [discriminate|]. intros H.
  apply obind_Ok in H as (parentPath & _ & H).
  apply obind_Ok in H as (sb & _ & H).
  apply obind_Ok in H as (sc1 & _ & H).
  apply obind_Ok in H as (? & _ & H).
  apply obind_Ok in H as (oc & Hc & H).
  injection H as <- _. split; [|reflexivity].
  split; [reflexivity|]. split; [reflexivity|]. split; [reflexivity|].
  cbn [c]. destruct (Update (Conf_Opts conf)), (Force (Conf_Opts conf));
    cbn [negb orb] in Hc;
    try (apply obind_Ok in Hc as (cp & _ & Hc)); injection Hc as <-;
    split; eauto; try (intros [? [=]]); intros [[=]|[=]].
Qed.

Lemma newStages_fields env conf entries last :
  ∀ defs i acc sc stgs sc',
    newStages env conf entries last i defs acc sc = Ok (stgs, sc') →
    ∃ new, stgs = acc ++ new
           ∧ Forall2 (stageFor (Conf_Opts conf)) defs new
           ∧ Forall (fun s => a s = None) new.
Proof.
  induction defs as [|d defs IH]; intros i acc sc stgs sc'; cbn [newStages].
  - intros [= <- _]. exists []. rewrite app_nil_r. repeat constructor.
  - intros H. apply obind_Ok in H as ([s sc1] & Hs & H).
    apply newStage_fields in Hs as [Hs Ha].
    apply IH in H as (new & -> & Hnew & Hnone).
    exists (s :: new). rewrite <- app_assoc. split; [reflexivity|].
    split; constructor; assumption.
Qed.

Lemma setLastAssembler_spec stgs asm stgs' :
  setLastAssembler stgs asm = Ok stgs' →
  ∃ init last,
    stgs = init ++ [last]
    ∧ stgs' = init ++ [mkStage (name last) (b last) (c last) (Some asm)].
Proof.
  unfold setLastAssembler. destruct (reverse stgs) as [|s before] eqn:E;
    [discriminate|].
  intros [= <-]. apply (f_equal reverse) in E. rewrite reverse_involutive in E.
  exists (reverse before), s. now rewrite E, reverse_cons.
Qed.

(** The stages and the configuration [newBuildBody] returns, before the
    case analysis on the format. *)
Lemma newBuildBody_Ok env defs conf bd :
  newBuildBody env defs conf = Ok bd →
  ∃ dest init last asm,
    Conf bd = stageConf dest conf
    ∧ stages bd
      = init ++ [mkStage (name last) (b last) (c last) (Some asm)]
    ∧ Forall2 (stageFor (Conf_Opts conf)) defs (init ++ [last])
    ∧ Forall (fun s => a s = None) init
    ∧ match asm with
      | SandboxAssembler _ => Format (stageConf dest conf) = "sandbox"
      | SIFAssembler args _ _ _ =>
          Format (stageConf dest conf) = "sif"
          ∧ args = MksquashfsArgs (Conf_Opts conf)
      end.
Proof.
  unfold newBuildBody. intros H.
  apply obind_Ok in H as (dest & _ & H).
  apply obind_Ok in H as (entries & _ & H).
  apply obind_Ok in H as ([stgs sc] & Hst & H).
  apply obind_Ok in H as (stgs' & Hasm & H).
  injection H as <-. fold (stageConf dest conf) in *.
  apply newStages_fields in Hst as (new & -> & Hnew & Hnone).
  cbn [app] in *.
  assert (Conf_Opts (stageConf dest conf) = Conf_Opts conf) as Eopts.
  { unfold stageConf. now destruct (Update _). }
  rewrite Eopts in Hnew.
  assert (∀ asm, setLastAssembler new asm = Ok stgs' →
            ∃ init last,
              stgs' = init ++ [mkStage (name last) (b last) (c last) (Some asm)]
              ∧ Forall2 (stageFor (Conf_Opts conf)) defs (init ++ [last])
              ∧ Forall (fun s => a s = None) init) as Hset.
  { intros asm (init & last & -> & ->)%setLastAssembler_spec.
    exists init, last. split; [reflexivity|]. split; [exact Hnew|].
    now apply Forall_app in Hnone as [Hnone _]. }
  destruct (String.eqb_spec (Format (stageConf dest conf)) "sandbox") as [Ef|_].
  - destruct (Hset _ Hasm) as (init & last & -> & H2 & H3).
    exists dest, init, last, (SandboxAssembler sc). cbn [Conf stages].
    repeat split; assumption.
  - destruct (String.eqb_spec (Format (stageConf dest conf)) "sif") as [Ef|_];
      [|discriminate].
    apply obind_Ok in Hasm as (p & _ & Hasm).
    apply obind_Ok in Hasm as (procs & _ & Hasm).
    apply obind_Ok in Hasm as (mem & _ & Hasm).
    destruct (Hset _ Hasm) as (init & last & -> & H2 & H3).
    exists dest, init, last,
      (SIFAssembler (MksquashfsArgs (Conf_Opts (stageConf dest conf)))
                    procs mem p).
    cbn [Conf stages]. rewrite Eopts. repeat split; assumption.
Qed.

Lemma stageFor_assembler opts d s asm :
  stageFor opts d s →
  stageFor opts d (mkStage (name s) (b s) (c s) (Some asm)).
Proof. exact id. Qed.

(** A build has one stage for every definition, in their order: the stage
    carries the definition as its recipe and the build's options, is named
    by the [stage] entry of the header, and has a conveyor unless the build
    updates without force.  A build from no definition is never
    returned. *)
Theorem newBuild_stages (env : NewEnv) (defs : list Def) (conf : Config)
    (w : World) (bd : Build) :
  snd (newBuild env defs conf w) = Ok bd →
  Forall2 (stageFor (Conf_Opts conf)) defs (stages bd)
  ∧ Conf_Opts (Conf bd) = Conf_Opts conf
  ∧ defs ≠ [].
Proof.
  unfold newBuild. cbn [Umask snd]. intros H.
  apply newBuildBody_Ok in H
    as (dest & init & last & asm & -> & -> & Hst & _).
  split; [|split].
  - apply Forall2_app_inv_r in Hst as (ds1 & ds2 & H1 & H2 & ->).
    apply Forall2_app; [exact H1|].
    inversion H2 as [|d0 s0 ds ss Hs Hnil]; subst.
    inversion Hnil; subst. constructor; [|constructor].
    now apply stageFor_assembler.
  - unfold stageConf. now destruct (Update _).
  - intros ->. apply Forall2_nil_inv_l in Hst. now destruct init.
Qed.

Lemma newBuild_stages_witness :
  ∃ bd, snd (newBuild sampleNewEnv [defNoStage; defNoStage] sampleConf
                      sampleWorld) = Ok bd
        ∧ Forall2 (stageFor sampleOpts) [defNoStage; defNoStage] (stages bd).
Proof.
  eexists. split; [vm_compute; reflexivity|].
  refine (proj1 (newBuild_stages sampleNewEnv [defNoStage; defNoStage]
                   sampleConf sampleWorld _ _)).
  vm_compute. reflexivity.
Defined.

(** Only the last stage of a build has an assembler, and the assembler is
    the one of the build's format: a sandbox assembler for the format
    [sandbox], which an update always has, and a SIF assembler with the
    build's mksquashfs arguments for the format [sif].  No other format is
    built. *)
Theorem newBuild_assembler (env : NewEnv) (defs : list Def) (conf : Config)
    (w : World) (bd : Build) :
  snd (newBuild env defs conf w) = Ok bd →
  ∃ init last asm,
    stages bd = init ++ [last]
    ∧ Forall (fun s => a s = None) init
    ∧ a last = Some asm
    ∧ Format (Conf bd)
      = (if Update (Conf_Opts conf) then "sandbox" else Format conf)
    ∧ match asm with
      | SandboxAssembler _ => Format (Conf bd) = "sandbox"
      | SIFAssembler args _ _ _ =>
          Format (Conf bd) = "sif" ∧ args = MksquashfsArgs (Conf_Opts conf)
      end.
Proof.
  unfold newBuild. cbn [Umask snd]. intros H.
  apply newBuildBody_Ok in H
    as (dest & init & last & asm & -> & -> & _ & Hnone & Hfmt).
  exists init, (mkStage (name last) (b last) (c last) (Some asm)), asm.
  split; [reflexivity|]. split; [exact Hnone|]. split; [reflexivity|].
  split; [|exact Hfmt]. unfold stageConf. now destruct (Update _).
Qed.

Lemma newBuild_assembler_witness :
  ∃ bd init last asm,
    snd (newBuild sampleNewEnv [defNoStage; defNoStage] updateConf
                  sampleWorld) = Ok bd
    ∧ stages bd = init ++ [last]
    ∧ Forall (fun s => a s = None) init
    ∧ a last = Some asm
    ∧ Format (Conf bd) = "sandbox".
Proof.
  eexists.
  destruct (newBuild_assembler sampleNewEnv [defNoStage; defNoStage]
              updateConf sampleWorld _ ltac:(vm_compute; reflexivity))
    as (init & last & asm & H1 & H2 & H3 & H4 & _).
  exists init, last, asm. split; [vm_compute; reflexivity|].
  repeat split; assumption.
Defined.

End new_build_stages.

(** ** What [Full] does whatever happens *)

Section full_log.
Import types bundle build gostrings.

Lemma logs_ret {A} (r : outcome A) : logsStage (ret r).
Proof.
  intros f f' r' [= <- _]. exists [], []. now rewrite app_nil_r.
Qed.

Lemma logs_sbind {A B} (x : step A) (k : A → step B) :
  logsStage x → (∀ v, logsStage (k v)) → logsStage (sbind x k).
Proof.
  intros Hx Hk f f' r. unfold sbind.
  destruct (x f) as [[f1 [v|e|m]]|] eqn:E; try discriminate.
  - intros H. destruct (Hx _ _ _ E) as (evs1 & ds1 & E1 & D1 & F1 & G1).
    destruct (Hk v _ _ _ H) as (evs2 & ds2 & E2 & D2 & F2 & G2).
    exists (evs1 ++ evs2), (ds2 ++ ds1).
    rewrite E2, E1, D2, D1, !forallb_app, F1, F2, G1, G2, !app_assoc.
    now repeat split.
  - intros [= <- _]. eapply Hx, E.
  - intros [= <- _]. eapply Hx, E.
Qed.

Lemma logs_emit (e : event) : stageEvent e = true → logsStage (inWorld (emit e)).
Proof.
  intros He f f' r [= <- _]. exists [e], []. cbn. now rewrite He.
Qed.

Lemma logs_umask (g : World → World) :
  (∀ w, events (g w) = events w) → logsStage (inWorld g).
Proof.
  intros Hg f f' r [= <- _]. exists [], []. cbn. now rewrite Hg, app_nil_r.
Qed.

Lemma logs_defer (e : event) : removal e = true → logsStage (defer e).
Proof.
  intros He f f' r [= <- _]. exists [], [e]. cbn.
  now rewrite He, app_nil_r.
Qed.

Lemma logs_when (cond : bool) (x : step unit) :
  logsStage x → logsStage (when cond x).
Proof. destruct cond; [trivial|intros _; apply logs_ret]. Qed.

Lemma getLoop_events (get : nat → option error) (i : nat) :
  ∀ fuel a w w' r,
    getLoop fuel get i a w = Some (w', r) →
    ∃ evs, events w' = events w ++ evs ∧ forallb stageEvent evs = true.
Proof.
  induction fuel as [|fuel IH]; intros a w w' r; [discriminate|].
  cbn [getLoop]. destruct (get a) as [e|].
  - destruct (_ || _).
    + intros [= <- _]. now exists [EvGet i a].
    + intros H. apply IH in H as (evs & -> & Hev).
      exists (EvGet i a :: evs). cbn. rewrite <- app_assoc. now split.
  - intros [= <- _]. now exists [EvGet i a].
Qed.

Lemma logs_conveyorGet fuel get i : logsStage (conveyorGet fuel get i).
Proof.
  intros f f' r. unfold conveyorGet.
  destruct (getLoop fuel get i 0 (world f)) as [[w r0]|] eqn:E; [|discriminate].
  intros [= <- _]. apply getLoop_events in E as (evs & E & Hev).
  exists evs, []. now repeat split.
Qed.

Lemma logs_sessionFile binds dest create :
  logsStage (sessionFile binds dest create).
Proof.
  unfold sessionFile. destruct (negb _); [|apply logs_ret].
  apply logs_sbind; [apply logs_ret|intros file].
  apply logs_sbind; [now apply logs_when, logs_defer|intros _; apply logs_ret].
Qed.

Create HintDb buildlog.
#[local] Hint Resolve logs_ret logs_when logs_conveyorGet logs_sessionFile
  : buildlog.

Lemma logs_runStage fuel bd env i s : logsStage (runStage fuel bd env i s).
Proof.
  unfold runStage.
  repeat (apply logs_sbind; [|intros ?]); auto with buildlog.
  destruct (isUpdate bd i s).
  - apply logs_sbind; auto with buildlog.
  - destruct (negb _); auto with buildlog.
    destruct (c s); auto with buildlog.
    repeat (apply logs_sbind; [|intros ?]); auto with buildlog.
    now apply logs_emit.
Qed.

Lemma logs_runStages fuel bd envs :
  ∀ stgs i, logsStage (runStages fuel bd envs i stgs).
Proof.
  induction stgs as [|s stgs IH]; intros i; cbn [runStages].
  - apply logs_ret.
  - apply logs_sbind; [apply logs_runStage|intros _; apply IH].
Qed.

(** However [Full] returns, with or without an error or in a panic, the
    log it leaves is made of the calls of the stages and the assembler,
    then the removal of the session files made on the way, then the clean
    up: the clean up is run once, and last. *)
Theorem Full_cleans_up_last (fuel : nat) (bd : Build) (envs : nat → StageEnv)
    (asm : outcome unit) (w w' : World) (r : outcome unit) :
  Full fuel bd envs asm w = Some (w', r) →
  ∃ evs rms,
    events w' = events w ++ evs ++ rms ++ [EvCleanUp]
    ∧ forallb stageEvent evs = true
    ∧ forallb removal rms = true.
Proof.
  unfold Full.
  destruct (fullBody _ _ _ _ _) as [[f r0]|] eqn:E; [|discriminate].
  intros [= <- <-]. cbn [events].
  assert (logsStage (fullBody fuel bd envs asm)) as Hlog.
  { intros f0 f1 r1. unfold fullBody. cbn [Umask].
    intros H.
    assert (logsStage
              (_ ⇐ runStages fuel bd envs 0 (stages bd) ;;;
               _ ⇐ inWorld (fun w0 => (Umask (umask (world f0)) w0).1) ;;;
               match reverse (stages bd) with
               | [] => ret (Panic "index out of range [-1]")
               | _ :: _ =>
                   _ ⇐ inWorld (emit (EvAssemble (Dest (Conf bd)))) ;;; ret asm
               end)) as Hbody.
    { apply logs_sbind; [apply logs_runStages|intros _].
      apply logs_sbind; [now apply logs_umask|intros _].
      destruct (reverse _); [apply logs_ret|].
      apply logs_sbind; [now apply logs_emit|intros _; apply logs_ret]. }
    exact (Hbody _ _ _ H). }
  destruct (Hlog _ _ _ E) as (evs & ds & Hev & Hds & F & G).
  cbn [world deferred events] in Hev, Hds.
  exists evs, ds. rewrite Hev, Hds, <- !app_assoc. now repeat split.
Qed.

Lemma Full_cleans_up_last_witness :
  ∃ w' evs rms,
    Full 5 sampleBuild (fun _ => flakyStageEnv) (Ok tt) sampleWorld
    = Some (w', Err (errorString "conveyor failed to get: unauthorized"))
    ∧ events w' = events sampleWorld ++ evs ++ rms ++ [EvCleanUp]
    ∧ forallb stageEvent evs = true
    ∧ forallb removal rms = true.
Proof.
  eexists.
  destruct (Full_cleans_up_last 5 sampleBuild (fun _ => flakyStageEnv) (Ok tt)
              sampleWorld _ _ ltac:(vm_compute; reflexivity))
    as (evs & rms & H).
  exists evs, rms. split; [vm_compute; reflexivity|exact H].
Defined.

(** *** An update of several stages *)

Lemma runStage_no_conveyor fuel bd env i s f :
  runPre env = Ok tt →
  isUpdate bd i s = false →
  ImgCache (Conf_Opts (Conf bd)) = true →
  c s = None →
  runStage fuel bd env i s f = Some (f, Panic nilDereference).
Proof.
  intros Hpre Hup Himg Hc. unfold runStage.
  unfold sbind at 1. unfold ret at 1. rewrite Hpre.
  unfold sbind at 1. rewrite Hup, Himg. cbn [negb]. rewrite Hc.
  reflexivity.
Qed.

(** In an update without force no stage is given a conveyor, and [Full]
    takes the update path for the last stage only.  A build of two stages
    or more made for such an update therefore panics in its first stage, on
    the call of the conveyor it does not have, once the pre script has run
    and with an image cache at hand; the clean up is still run. *)
Theorem Full_update_first_stage (env : NewEnv) (defs : list Def)
    (conf : Config) (w0 : World) (bd : Build)
    (fuel : nat) (envs : nat → StageEnv) (asm : outcome unit) (w : World) :
  snd (newBuild env defs conf w0) = Ok bd →
  Update (Conf_Opts conf) = true →
  Force (Conf_Opts conf) = false →
  ImgCache (Conf_Opts conf) = true →
  (2 ≤ length defs)%nat →
  runPre (envs 0%nat) = Ok tt →
  Full fuel bd envs asm w
  = Some (mkWorld buildUmask (events w ++ [EvCleanUp]), Panic nilDereference).
Proof.
  intros Hbd Hu Hf Himg Hlen Hpre. unfold newBuild in Hbd. cbn [Umask snd] in Hbd.
  apply newBuildBody_Ok in Hbd
    as (dest & init & last & a0 & Hconf & Hst & Hfor & _).
  assert (length defs = length (init ++ [last])) as Hl
    by (eapply Forall2_length, Hfor).
  rewrite length_app in Hl. cbn [length] in Hl.
  destruct init as [|s0 init]; [cbn in Hl; lia|].
  apply Forall2_cons_inv_r in Hfor
    as (d0 & defs' & (_ & Ho & _ & Hc) & _ & ->).
  assert (c s0 = None) as Hnone.
  { destruct (c s0) eqn:Ec; [|reflexivity].
    destruct (proj1 Hc (mk_is_Some _ _ eq_refl)); congruence. }
  assert (runStage fuel bd (envs 0%nat) 0 s0
            (mkFrame (mkWorld buildUmask (events w)) [EvCleanUp])
          = Some (mkFrame (mkWorld buildUmask (events w)) [EvCleanUp],
                  Panic nilDereference)) as Hrun.
  { apply runStage_no_conveyor; [exact Hpre| | |exact Hnone].
    - unfold isUpdate. rewrite Hst.
      rewrite (bool_decide_eq_false_2 (Z.of_nat 0 = _)); [apply andb_false_r|].
      cbn [app length]. rewrite length_app. cbn [length]. lia.
    - rewrite Hconf. unfold stageConf. now destruct (Update _). }
  unfold Full, fullBody. cbn [Umask world deferred]. rewrite Hst.
  cbn [app runStages]. unfold sbind at 1. unfold sbind at 1.
  rewrite Hrun. reflexivity.
Qed.

Lemma Full_update_first_stage_witness :
  ∃ bd, snd (newBuild sampleNewEnv [defNoStage; defNoStage] updateConf
                      sampleWorld) = Ok bd
        ∧ Full 5 bd (fun _ => okStageEnv) (Ok tt) sampleWorld
          = Some (mkWorld buildUmask (events sampleWorld ++ [EvCleanUp]),
                  Panic nilDereference).
Proof.
  eexists. split; [vm_compute; reflexivity|].
  eapply (Full_update_first_stage sampleNewEnv [defNoStage; defNoStage]
            updateConf sampleWorld);
    [vm_compute; reflexivity|reflexivity|reflexivity|reflexivity|cbn; lia
    |reflexivity].
Defined.

End full_log.

(** ** Definitions with build arguments *)

Section make_all_defs.
Import types parser bundle build gostrings.

Lemma readAll_Ok {A} (r : Reader) (k : string → outcome A) (v : A) :
  readAll r k = Ok v → ∃ raw, r = Ok raw ∧ k raw = Ok v.
Proof. destruct r as [raw|e|m]; try discriminate. intros H. now exists raw. Qed.

Lemma foldl_append_Raw (ds : list Def) (acc : string) :
  foldl (fun acc def => acc +:+ Raw def) acc ds = acc +:+ concatS (Raw <$> ds).
Proof.
  revert acc. induction ds as [|d ds IH]; intros acc.
  - cbn. now rewrite str_app_nil_r.
  - cbn [foldl fmap list_fmap]. rewrite IH. unfold concatS. cbn [foldr].
    now rewrite str_app_assoc.
Qed.

Lemma lo_Uniq_elem (l : list string) (x : string) : x ∈ lo_Uniq l ↔ x ∈ l.
Proof.
  induction l as [|y l IH]; [reflexivity|]. cbn [lo_Uniq].
  rewrite !elem_of_cons, list_elem_of_filter, IH.
  destruct (decide (x = y)); tauto.
Qed.

(** The revising loop: every definition is parsed again from the text the
    reader for the build arguments makes of its raw text, that text is the
    raw text of the revised definition, and the readers hand the consumed
    arguments on. *)
Lemma reviseDefs_Ok env args :
  ∀ defs acc consumed revised consumed',
    reviseDefs env args defs acc consumed = Ok (revised, consumed') →
    ∃ new,
      revised = acc ++ new
      ∧ ∀ fullRaw,
          revisedFrom env args defs (setFullRaw fullRaw <$> new)
                      consumed consumed'.
Proof.
  induction defs as [|def defs IH]; intros acc consumed revised consumed';
    cbn [reviseDefs].
  - intros [= <- <-]. exists []. rewrite app_nil_r. now split.
  - intros H. apply obind_Ok in H as ([reader c1] & Hr & H).
    apply obind_Ok in H as (rev & Hp & H).
    apply readAll_Ok in Hp as (raw & -> & Hp).
    pose proof (ParseDefinitionFile_raw _ _ Hp) as [Eraw Efull].
    apply IH in H as (new & -> & Hnew).
    exists (rev :: new). rewrite <- app_assoc. split; [reflexivity|].
    intros fullRaw. cbn [fmap list_fmap revisedFrom]. exists c1.
    assert (Raw (setFullRaw fullRaw rev) = raw) as -> by now destruct rev.
    split; [exact Hr|]. split; [|apply Hnew].
    rewrite Hp. f_equal. destruct rev. unfold setFullRaw. cbn in *.
    now rewrite Efull.
Qed.

(** When the spec names a definition file and [MakeAllDefs] returns without
    error, it returns one definition for every stage [All] finds in the
    file.  The raw text of each is the text its stage has once the build
    arguments are substituted, and the full raw text of every one of them
    is those texts laid end to end, not the text of the file.  The unused
    arguments are the keys of the argument map that are not in the list of
    consumed arguments the last reader leaves, each listed once. *)
Theorem MakeAllDefs_file (env : DefsEnv) (spec : string)
    (args : gmap string string) (defs : list Def) (unused : list string) :
  uriIsValid env spec = false →
  imageInit env spec = false →
  MakeAllDefs env spec args = Returned defs unused None →
  ∃ (found : list Def) (consumed : list string),
    (∃ raw, osOpen env spec = Ok (Ok raw) ∧ All raw = Ok found)
    ∧ revisedFrom env args found defs [] consumed
    ∧ Forall (fun d => FullRaw d = concatS (Raw <$> defs)) defs
    ∧ (∀ k, k ∈ unused ↔ is_Some (args !! k) ∧ k ∉ consumed)
    ∧ NoDup unused.
Proof.
  intros Huri Himg. unfold MakeAllDefs. rewrite Huri, Himg.
  destruct (osOpen env spec) as [defFile|e|m] eqn:Eopen; try discriminate.
  destruct (AllFrom defFile) as [pre|e|m] eqn:Eall; try discriminate.
  destruct (reviseDefs env args pre [] []) as [[revised consumed]|e|m] eqn:Erev;
    try discriminate.
  intros [= <- <-].
  apply readAll_Ok in Eall as (raw & -> & Eall).
  apply reviseDefs_Ok in Erev as (new & -> & Hnew). cbn [app] in *.
  rewrite foldl_append_Raw, str_app_nil_l.
  set (fullRaw := concatS (Raw <$> new)).
  assert (Raw <$> (setFullRaw fullRaw <$> new) = Raw <$> new) as Eraws.
  { rewrite <- list_fmap_compose. now apply list_fmap_ext. }
  exists pre, consumed. split; [now exists raw|]. split; [|split; [|split]].
  - apply Hnew.
  - rewrite Eraws. apply Forall_fmap, Forall_true. intros d. reflexivity.
  - intros k. unfold lo_Difference, lo_Keys. cbn [fst].
    rewrite list_elem_of_filter, lo_Uniq_elem, list_elem_of_fmap.
    split.
    + intros [Hc ([k' v] & -> & Hin)]. apply elem_of_map_to_list in Hin.
      split; [now exists v|exact Hc].
    + intros [[v Hv] Hc]. split; [exact Hc|]. exists (k, v).
      split; [reflexivity|]. now apply elem_of_map_to_list.
  - unfold lo_Difference, lo_Keys. cbn [fst].
    apply NoDup_filter, NoDup_fst_map_to_list.
Qed.

(** A file of two stages read with the arguments [VERSION] and [UNUSED]:
    every reader consumes [VERSION], and [UNUSED] is reported. *)
Lemma MakeAllDefs_file_witness :
  ∃ defs unused,
    MakeAllDefs sampleDefsEnv "app.def" sampleBuildArgs
    = Returned defs unused None
    ∧ unused = ["UNUSED"]
    ∧ ∃ found consumed,
        revisedFrom sampleDefsEnv sampleBuildArgs found defs [] consumed
        ∧ Forall (fun d => FullRaw d = concatS (Raw <$> defs)) defs
        ∧ ∀ k, k ∈ unused ↔ is_Some (sampleBuildArgs !! k) ∧ k ∉ consumed.
Proof.
  eexists. eexists. split; [vm_compute; reflexivity|].
  split; [reflexivity|].
  destruct (MakeAllDefs_file sampleDefsEnv "app.def" sampleBuildArgs _ _
              eq_refl eq_refl ltac:(vm_compute; reflexivity))
    as (found & consumed & _ & Hrev & Hfull & Hun & _).
  exists found, consumed. split; [exact Hrev|]. split; [exact Hfull|exact Hun].
Defined.

End make_all_defs.

(** ** The image drivers *)

Section squashfuse_polling.
Import squashfuse gostrings.

Lemma pollLoop_Mounted (env : HelperEnv) (target : string) :
  ∀ n i k,
    pollLoop env target n i = Mounted k ↔
    (i < k ≤ i + n)%nat
    ∧ mountedAt env target (k - 1)
    ∧ ∀ j, (i ≤ j < k - 1)%nat → notYetMounted env target j.
Proof.
  unfold mountedAt, notYetMounted.
  induction n as [|n IH]; intros i k; cbn [pollLoop].
  - split; [discriminate|]. intros (Hk & _). lia.
  - assert (∀ (P : Prop), (∀ ps, polls env i ≠ MountPoints ps) →
              (i < k ≤ i + S n)%nat
              ∧ (∃ ps, polls env (k - 1) = MountPoints ps ∧ target ∈ ps)
              ∧ (∀ j, (i ≤ j < k - 1)%nat →
                      ∃ ps, polls env j = MountPoints ps ∧ target ∉ ps) →
              P) as Hdead.
    { intros P Hp (Hk & (ps & Hps & _) & Hbefore).
      destruct (decide (k - 1 = i)%nat) as [E|E].
      - rewrite E in Hps. now destruct (Hp ps).
      - destruct (Hbefore i) as (ps' & Hps' & _); [lia|]. now destruct (Hp ps'). }
    destruct (polls env i) as [we se|msg|ps] eqn:Ei.
    + split; [discriminate|]. apply Hdead. discriminate.
    + split; [discriminate|]. apply Hdead. discriminate.
    + case_bool_decide as Hin.
      * split.
        -- intros [= <-]. replace (S i - 1)%nat with i by lia.
           split; [lia|]. split; [now exists ps|]. intros j Hj. lia.
        -- intros (Hk & _ & Hbefore).
           destruct (decide (k = S i)) as [->|Hne]; [reflexivity|].
           destruct (Hbefore i) as (ps' & Hps' & Hout); [lia|].
           rewrite Ei in Hps'. injection Hps' as <-. contradiction.
      * rewrite IH. split.
        -- intros (Hk & Hat & Hbefore). split; [lia|]. split; [exact Hat|].
           intros j Hj. destruct (decide (j = i)) as [->|Hne].
           ++ now exists ps.
           ++ apply Hbefore. lia.
        -- intros (Hk & (ps' & Hps' & Hin') & Hbefore).
           assert (k ≠ S i) as Hne.
           { intros ->. replace (S i - 1)%nat with i in Hps' by lia.
             rewrite Ei in Hps'. injection Hps' as <-. contradiction. }
           split; [lia|]. split; [now exists ps'|].
           intros j Hj. apply Hbefore. lia.
Qed.

Lemma pollLoop_timeout (env : HelperEnv) (target : string) :
  ∀ n i,
    (∀ j, (i ≤ j < i + n)%nat → notYetMounted env target j) →
    pollLoop env target n i
    = MountFailed ("squashfuse failed to mount " +:+ target +:+ " in 2s") true.
Proof.
  induction n as [|n IH]; intros i H; cbn [pollLoop]; [reflexivity|].
  destruct (H i) as (ps & -> & Hout); [lia|].
  rewrite bool_decide_eq_false_2 by exact Hout. apply IH.
  intros j Hj. apply H. lia.
Qed.

(** [Mount] succeeds exactly when the helper starts and one of its eighty
    polls, 25 ms apart, finds the helper alive and the target in the mount
    table, every poll before it having found the helper alive and the
    target not yet mounted.  When all eighty polls find the target not yet
    mounted, [Mount] gives up after two seconds and kills the helper. *)
Theorem squashfuse_Mount_polls (cmdpath : string) (params : MountParams)
    (env : HelperEnv) :
  (∀ k, snd (Mount cmdpath params env) = Mounted k ↔
        StartErr env = None
        ∧ (1 ≤ k ≤ 80)%nat
        ∧ mountedAt env (Target params) (k - 1)
        ∧ ∀ j, (j < k - 1)%nat → notYetMounted env (Target params) j)
  ∧ (StartErr env = None →
     (∀ j, (j < 80)%nat → notYetMounted env (Target params) j) →
     snd (Mount cmdpath params env)
     = MountFailed ("squashfuse failed to mount " +:+ Target params +:+
                    " in 2s") true).
Proof.
  unfold Mount. split.
  - intros k. destruct (StartErr env) as [[err stderr]|]; cbn [snd].
    + split; [discriminate|]. intros [[=] _].
    + rewrite pollLoop_Mounted. split.
      * intros (Hk & Hat & Hbefore). split; [reflexivity|].
        split; [lia|]. split; [exact Hat|]. intros j Hj. apply Hbefore. lia.
      * intros (_ & Hk & Hat & Hbefore). split; [lia|].
        split; [exact Hat|]. intros j Hj. apply Hbefore. lia.
  - intros -> H. cbn [snd]. apply pollLoop_timeout.
    intros j Hj. apply H. lia.
Qed.

Lemma squashfuse_Mount_polls_witness :
  snd (Mount squashfusePath fdMount slowHelper) = Mounted 3.
Proof.
  apply (proj1 (squashfuse_Mount_polls squashfusePath fdMount slowHelper)).
  split; [reflexivity|]. split; [lia|]. split.
  - exists ["/"; "/mnt/x"]. split; [reflexivity|].
    apply list_elem_of_further, list_elem_of_here.
  - intros j Hj. exists ["/"]. split.
    + cbn. destruct j as [|[|j]]; [reflexivity|reflexivity|lia].
    + intros [=]%list_elem_of_singleton.
Defined.

End squashfuse_polling.

Section overlayfsfuse_mount.
Import squashfuse gostrings.

Lemma Split_Join (opts : list string) :
  opts ≠ [] → Forall (fun o => hasByte "," o = false) opts →
  Split (Join opts ",") "," = opts.
Proof.
  intros Hne H. induction H as [|o opts Ho _ IH]; [contradiction|].
  destruct opts as [|o' opts].
  - cbn [Join]. now apply Split_none.
  - change (Join (o :: o' :: opts) ",")
      with (o +:+ String "," (Join (o' :: opts) ",")).
    rewrite (Split_app _ _ _ Ho), IH; [reflexivity|discriminate].
Qed.

(** The overlay helper is started with the mount options joined by commas
    and the mount point, and with nothing else: no source and no extra
    file.  The options can be read back from the argument when none of them
    holds a comma. *)
Theorem overlayfsfuse_Mount_command (cmdpath : string)
    (params : overlayfsfuse.MountParams) (env : HelperEnv) :
  let cmd := fst (overlayfsfuse.Mount cmdpath params env) in
  Args cmd = [cmdpath; "-f"; "-o";
              Join (overlayfsfuse.FSOptions params) ",";
              overlayfsfuse.Target params]
  ∧ ExtraFiles cmd = []
  ∧ (∀ n, childFd cmd n = None)
  ∧ (overlayfsfuse.FSOptions params ≠ [] →
     Forall (fun o => hasByte "," o = false) (overlayfsfuse.FSOptions params) →
     ∃ opts, Args cmd !! 3%nat = Some opts
             ∧ Split opts "," = overlayfsfuse.FSOptions params).
Proof.
  cbv zeta.
  assert ((overlayfsfuse.Mount cmdpath params env).1
          = overlayfsfuse.mountCmd cmdpath params) as ->.
  { unfold overlayfsfuse.Mount. now destruct (StartErr env) as [[? ?]|]. }
  split; [reflexivity|]. split; [reflexivity|]. split.
  - intros n. unfold childFd. destruct (n <? 3)%nat; [reflexivity|].
    cbn. now rewrite lookup_nil.
  - intros Hne Hopts. eexists. split; [reflexivity|].
    now apply Split_Join.
Qed.

Lemma overlayfsfuse_Mount_command_witness :
  ∃ opts,
    Args (fst (overlayfsfuse.Mount "/usr/bin/fuse-overlayfs"
                 (overlayfsfuse.mkMountParams "/mnt/x"
                    ["lowerdir=/l"; "upperdir=/u"; "workdir=/w"])
                 helperMounts)) !! 3%nat = Some opts
    ∧ Split opts "," = ["lowerdir=/l"; "upperdir=/u"; "workdir=/w"].
Proof.
  apply (overlayfsfuse_Mount_command "/usr/bin/fuse-overlayfs"
           (overlayfsfuse.mkMountParams "/mnt/x"
              ["lowerdir=/l"; "upperdir=/u"; "workdir=/w"]) helperMounts).
  - discriminate.
  - repeat constructor.
Defined.

End overlayfsfuse_mount.

Section fuseapps_driver.
Import squashfuse fuseapps gostrings.

(** The driver that [InitImageDrivers] registers knows no helper until its
    [Features] is called: until then every mount request is refused.  After
    that call a request for the file system [overlay] goes to the driver
    registered as [overlayfsfuse] and a request for any other file system
    to the driver registered as [squashfuse]; a request whose helper is not
    registered is refused. *)
Theorem fuseapps_Mount_dispatch (GetDriver : string → option Driver)
    (d : fuseappsDriver) (params : MountParams) :
  Mount (mkFuseappsDriver None None) params
  = Some (errorString ("No image driver registered for type " +:+
                       Filesystem params))
  ∧ Mount (fst (Features GetDriver d)) params
    = match GetDriver (if String.eqb (Filesystem params) "overlay"
                       then "overlayfsfuse" else "squashfuse") with
      | Some drv => Driver_Mount drv params
      | None =>
          Some (errorString ("No image driver registered for type " +:+
                             Filesystem params))
      end.
Proof.
  unfold Mount, Features. cbn [fst squashImageDriver overlayfsImageDriver].
  split; now destruct (String.eqb _ "overlay").
Qed.

Lemma squashfuse_Init_spec env register df active err evs :
  squashfuse.Init env register df = (active, err, evs) →
  (active = true → is_Some (FindBin env "squashfuse"))
  ∧ ∀ name, Registered name ∈ evs → name = "squashfuse" ∧ register = true.
Proof.
  unfold squashfuse.Init. destruct (FindBin env "squashfuse") as [p|].
  - destruct register; cbn [negb]; intros [= <- <- <-];
      (split; [eauto|]); intros name Hin.
    + apply list_elem_of_singleton in Hin. now injection Hin as ->.
    + now apply elem_of_nil in Hin.
  - intros [= <- <- <-]. split; [discriminate|]. intros name Hin.
    destruct (negb _).
    + apply list_elem_of_singleton in Hin. discriminate.
    + now apply elem_of_nil in Hin.
Qed.

Lemma overlayfsfuse_Init_spec env register df active err evs :
  overlayfsfuse.Init env register df = (active, err, evs) →
  (active = true → is_Some (FindBin env "fuse-overlayfs"))
  ∧ ∀ name, Registered name ∈ evs → name = "overlayfsfuse" ∧ register = true.
Proof.
  unfold overlayfsfuse.Init. destruct (FindBin env "fuse-overlayfs") as [p|].
  - destruct register; cbn [negb]; intros [= <- <- <-];
      (split; [eauto|]); intros name Hin.
    + apply list_elem_of_singleton in Hin. now injection Hin as ->.
    + now apply elem_of_nil in Hin.
  - intros [= <- <- <-]. split; [discriminate|]. intros name Hin.
    destruct (negb _).
    + apply list_elem_of_singleton in Hin. discriminate.
    + now apply elem_of_nil in Hin.
Qed.

(** [InitImageDrivers] leaves a configuration that names another driver
    alone.  Run with privileges it registers nothing and takes its own name
    out of the configuration.  Whatever it registers, it registers its own
    driver last, and only without privileges and with a helper found; it
    does so even when asked not to register, which only keeps the helpers'
    drivers from being registered; and once it has, the configuration names
    it. *)
Theorem fuseapps_InitImageDrivers (env : InitEnv) (register unprivileged : bool)
    (ImageDriver : string) (desiredFeatures : Z) :
  let '(ImageDriver', err, evs) :=
    InitImageDrivers env register unprivileged ImageDriver desiredFeatures in
  (ImageDriver ≠ "" → ImageDriver ≠ driverName →
   ImageDriver' = ImageDriver ∧ err = None ∧ evs = [])
  ∧ (unprivileged = false →
     err = None ∧ evs = [] ∧ ImageDriver' ≠ driverName)
  ∧ (Registered driverName ∈ evs →
     unprivileged = true
     ∧ ImageDriver' = driverName
     ∧ (is_Some (FindBin env "squashfuse")
        ∨ is_Some (FindBin env "fuse-overlayfs"))
     ∧ ∃ before, evs = before ++ [Registered driverName]
                 ∧ Registered driverName ∉ before)
  ∧ (register = false →
     ∀ name, Registered name ∈ evs → name = driverName).
Proof.
  unfold InitImageDrivers.
  destruct (String.eqb_spec ImageDriver "") as [E1|E1];
    destruct (String.eqb_spec ImageDriver driverName) as [E2|E2];
    cbn [negb andb].
  4:{ (* another driver is configured *)
      split; [now intros|]. split; [now intros|].
      split; [intros []%elem_of_nil|intros _ name []%elem_of_nil]. }
  all: destruct unprivileged; cbn [negb];
    [|split; [intros; congruence|]; split; [now intros|];
      split; [intros []%elem_of_nil|intros _ name []%elem_of_nil]].
  all: destruct (squashfuse.Init env register desiredFeatures)
         as [[a1 err1] evs1] eqn:I1;
       apply squashfuse_Init_spec in I1 as [Hf1 Hr1];
       assert (Registered driverName ∉ evs1) as Hn1
         by (intros [[=] _]%Hr1);
       (destruct err1 as [e1|];
        [split; [intros; congruence|]; split; [discriminate|];
         split; [now intros|];
         intros -> name [_ [=]]%Hr1|]).
  all: destruct (overlayfsfuse.Init env register desiredFeatures)
         as [[a2 err2] evs2] eqn:I2;
       apply overlayfsfuse_Init_spec in I2 as [Hf2 Hr2];
       assert (Registered driverName ∉ evs1 ++ evs2) as Hn2
         by (intros [?|[[=] _]%Hr2]%elem_of_app; contradiction);
       (destruct err2 as [e2|];
        [split; [intros; congruence|]; split; [discriminate|];
         split; [now intros|];
         intros -> name [[_ [=]]%Hr1|[_ [=]]%Hr2]%elem_of_app|]).
  all: destruct (a1 || a2) eqn:Ha;
    [|split; [intros; congruence|]; split; [discriminate|];
      split; [now intros|];
      intros -> name [[_ [=]]%Hr1|[_ [=]]%Hr2]%elem_of_app].
  all: split; [intros; congruence|]; split; [discriminate|]; split;
    [intros _; split; [reflexivity|]; split; [reflexivity|];
     split;
     [apply orb_true_iff in Ha as [->| ->]; [left|right]; auto|
      exists (evs1 ++ evs2); split; [now rewrite app_assoc|exact Hn2]]
    |intros -> name
       [[_ [=]]%Hr1|[[_ [=]]%Hr2|Hin%list_elem_of_singleton]%elem_of_app]
         %elem_of_app;
     now injection Hin].
Qed.

Lemma fuseapps_InitImageDrivers_witness :
  InitImageDrivers squashOnlyEnv false true "" 1
  = (driverName, None, [Registered driverName]).
Proof.
  pose proof (fuseapps_InitImageDrivers squashOnlyEnv false true "" 1) as H.
  destruct (InitImageDrivers squashOnlyEnv false true "" 1)
    as [[drv err] evs] eqn:E.
  vm_compute in E. injection E as <- <- <-.
  destruct H as (_ & _ & H & _).
  destruct (H ltac:(apply list_elem_of_here)) as (_ & _ & _ & _).
  reflexivity.
Defined.

End fuseapps_driver.

(** ** Scripts in the image *)

Section shebang_scripts.
Import types parser bundle metadata gostrings.

Lemma HasPrefix_nil (s : string) : HasPrefix s "" = true.
Proof. now destruct s. Qed.

Lemma TrimLeftFunc_all (f : ascii → bool) (s : string) :
  allBytes f s = true → TrimLeftFunc f s = "".
Proof.
  induction s as [|c s IH]; [reflexivity|]. cbn [allBytes TrimLeftFunc].
  intros [-> Hs]%andb_true_iff. auto.
Qed.

Lemma TrimLeftFunc_app (f : ascii → bool) (a b : string) :
  TrimLeftFunc f (a +:+ b)
  = if allBytes f a then TrimLeftFunc f b else TrimLeftFunc f a +:+ b.
Proof.
  induction a as [|c a IH]; [reflexivity|].
  rewrite str_app_cons. cbn [TrimLeftFunc allBytes].
  destruct (f c); [exact IH|reflexivity].
Qed.

Lemma TrimSpace_all (s : string) : allBytes isSpace s = true → TrimSpace s = "".
Proof. intros H. unfold TrimSpace. now rewrite TrimLeftFunc_all. Qed.

(** The interpreter line of a script, with the arguments of its section. *)
Lemma handleShebangScript_unfold (s : Script) :
  handleShebangScript s
  = let r :=
      if HasPrefix (TrimSpace (Script_Script s)) "#!" then
        match cut (Script_Script s) NL with
        | Some (l, rest) => (TrimSpace l, rest)
        | None => (TrimSpace (Script_Script s), "")
        end
      else ("#!/bin/sh", Script_Script s) in
    (withArgs (Script_Args s) r.1, r.2).
Proof.
  unfold handleShebangScript, withArgs. cbn [SplitN].
  destruct (HasPrefix _ "#!"); [|now destruct (String.eqb _ "")].
  destruct (cut _ NL) as [[l rest]|]; now destruct (String.eqb _ "").
Qed.

(** [handleShebangScript], case by case.  A script that does not start
    with an interpreter line, white space apart, is kept whole and run by
    [/bin/sh].  Of a script that does, the first line, trimmed, is the
    interpreter line and the text after it is the script.  The arguments of
    the section, up to a comment sign, go after the interpreter. *)
Theorem handleShebangScript_cases (s : Script) :
  let text := Script_Script s in
  (HasPrefix (TrimSpace text) "#!" = false →
   handleShebangScript s = (withArgs (Script_Args s) "#!/bin/sh", text))
  ∧ (HasPrefix (TrimSpace text) "#!" = true →
     ∀ l rest, text = l +:+ str1 NL +:+ rest → hasByte NL l = false →
     handleShebangScript s = (withArgs (Script_Args s) (TrimSpace l), rest))
  ∧ (HasPrefix (TrimSpace text) "#!" = true →
     hasByte NL text = false →
     handleShebangScript s = (withArgs (Script_Args s) (TrimSpace text), "")).
Proof.
  cbv zeta. rewrite handleShebangScript_unfold. split; [|split].
  - now intros ->.
  - intros -> l rest E Hl. rewrite E, str1_app, (cut_app NL l rest Hl).
    reflexivity.
  - intros -> Hn. now rewrite (hasByte_cut NL _ Hn).
Qed.

Lemma handleShebangScript_cases_witness :
  handleShebangScript
    (mkScript "-e # stop at the first error"
              ("#!/bin/bash" +:+ str1 NL +:+ "make"))
  = ("#!/bin/bash -e ", "make").
Proof.
  apply (proj1 (proj2 (handleShebangScript_cases
           (mkScript "-e # stop at the first error"
                     ("#!/bin/bash" +:+ str1 NL +:+ "make"))))
           eq_refl "#!/bin/bash" "make" eq_refl eq_refl).
Defined.

Lemma TrimRightFunc_prefix (f : ascii → bool) (c : ascii) (u : string) :
  ∃ w, u = (match TrimRightFunc f (String c u) with
            | String _ r => r
            | "" => ""
            end) +:+ w.
Proof.
  destruct (TrimRightFunc_split f (String c u)) as (w & E & _).
  destruct (TrimRightFunc f (String c u)) as [|c' r].
  - now exists u.
  - rewrite str_app_cons in E. injection E as _ E. now exists w.
Qed.

Lemma TrimSpace_shebang (l rest : string) :
  hasByte NL l = false →
  HasPrefix (TrimSpace (l +:+ String NL rest)) "#!" = true →
  TrimSpace l = "" ∨ HasPrefix (TrimSpace l) "#!" = true.
Proof.
  intros Hl. unfold TrimSpace at 1 3. rewrite TrimLeftFunc_app.
  destruct (allBytes isSpace l) eqn:Hall;
    [intros _; left; now apply TrimSpace_all|].
  destruct (TrimLeftFunc_shape isSpace l) as [E|(c & t & E & Hc)].
  { unfold TrimSpace. rewrite E. now left. }
  intros H. right. rewrite E in *. rewrite str_app_cons in H.
  destruct (TrimRightFunc_head isSpace c (t +:+ String NL rest) Hc) as [u Eu].
  destruct (TrimRightFunc_prefix isSpace c (t +:+ String NL rest)) as [w Ew].
  rewrite Eu in H, Ew. cbn [HasPrefix] in H.
  apply andb_true_iff in H as [Hhash H].
  destruct u as [|b u]; [discriminate|].
  apply andb_true_iff in H as [Hbang _].
  apply Ascii.eqb_eq in Hhash, Hbang. subst c b.
  destruct t as [|b t].
  { rewrite str_app_nil_l, str_app_cons in Ew. injection Ew as E0 _.
    unfold NL in E0. discriminate E0. }
  rewrite !str_app_cons in Ew. injection Ew as -> _.
  destruct (TrimRightFunc_head isSpace "!" t eq_refl) as [t' Et].
  cbn [TrimRightFunc] in Et |- *. 
  destruct (TrimRightFunc isSpace t) as [|x r].
  - reflexivity.
  - reflexivity.
Qed.

Lemma TrimSpace_keeps_shebang (x : string) :
  HasPrefix (TrimSpace (String "#" (String "!" x))) "#!" = true.
Proof.
  unfold TrimSpace. cbn [TrimLeftFunc].
  assert (isSpace "#" = false) as -> by reflexivity.
  destruct (TrimRightFunc_head isSpace "!" x eq_refl) as [t Et].
  cbn [TrimRightFunc] in Et |- *.
  destruct (TrimRightFunc isSpace x); reflexivity.
Qed.

(** The interpreter line starts with the two bytes of an interpreter
    line, unless the first line of the script is trimmed to nothing and an
    interpreter line comes further down: then the interpreter line is
    empty, and the interpreter line the script has is left in its text. *)
Theorem handleShebangScript_interpreter (s : Script) :
  Script_Args s = "" →
  let text := Script_Script s in
  let '(shebang, script) := handleShebangScript s in
  HasPrefix shebang "#!" = true
  ∨ (shebang = ""
     ∧ ∃ l, text = l +:+ str1 NL +:+ script
            ∧ hasByte NL l = false
            ∧ TrimSpace l = ""
            ∧ HasPrefix (TrimSpace script) "#!" = true).
Proof.
  intros Hargs. cbv zeta. rewrite handleShebangScript_unfold.
  unfold withArgs. rewrite Hargs. cbn [String.eqb fst snd].
  destruct (HasPrefix (TrimSpace (Script_Script s)) "#!") eqn:Hp;
    [|now left].
  destruct (cut (Script_Script s) NL) as [[l rest]|] eqn:Ecut;
    cbn [fst snd]; [|now left].
  apply cut_Some in Ecut as [E Hl]. rewrite E in Hp.
  destruct (TrimSpace_shebang l rest Hl Hp) as [Hblank|Hok]; [|now left].
  right. split; [exact Hblank|]. exists l. split; [exact E|].
  assert (allBytes isSpace l = true) as Hall.
  { pose proof Hblank as Hblank0.
    unfold TrimSpace in Hblank. apply TrimRightFunc_nil in Hblank.
    destruct (TrimLeftFunc_shape isSpace l) as [E0|(c & t & E0 & Hc)].
    - clear -E0. induction l as [|c l IH]; [reflexivity|].
      cbn [TrimLeftFunc allBytes] in *.
      destruct (isSpace c); [auto|discriminate].
    - rewrite E0 in Hblank. cbn [allBytes] in Hblank.
      rewrite Hc in Hblank. discriminate. }
  split; [exact Hl|]. split; [exact Hblank|].
  unfold TrimSpace in Hp |- *. rewrite TrimLeftFunc_app, Hall in Hp.
  cbn [TrimLeftFunc] in Hp. exact Hp.
Qed.

Lemma handleShebangScript_interpreter_witness :
  let text := str1 NL +:+ "#!/bin/bash" +:+ str1 NL +:+ "make" in
  let '(shebang, script) := handleShebangScript (mkScript "" text) in
  HasPrefix shebang "#!" = true
  ∨ (shebang = ""
     ∧ ∃ l, text = l +:+ str1 NL +:+ script
            ∧ hasByte NL l = false
            ∧ TrimSpace l = ""
            ∧ HasPrefix (TrimSpace script) "#!" = true).
Proof.
  exact (handleShebangScript_interpreter
           (mkScript "" (str1 NL +:+ "#!/bin/bash" +:+ str1 NL +:+ "make"))
           eq_refl).
Defined.

(** The run script of an image is written when its section is run and not
    empty, with mode 0o755, and so are the start and the test script.  A
    script without an interpreter line and without arguments is written
    after the line of [/bin/sh] and an empty line; a script whose first
    line is an interpreter line is written with an empty line put after
    that line. *)
Theorem insertRunScript_file (b : Bundle) :
  let s := Runscript (ImageData_Scripts (Recipe b)) in
  (RunSection b "runscript" = false ∨ Script_Script s = "" →
   insertRunScript b = None)
  ∧ (RunSection b "runscript" = true → Script_Script s ≠ "" →
     ∃ w, insertRunScript b = Some w
          ∧ wname w = filepath.Join [RootfsPath b; "/.singularity.d/runscript"]
          ∧ wperm w = 493
          ∧ (Script_Args s = "" →
             HasPrefix (TrimSpace (Script_Script s)) "#!" = false →
             wdata w = "#!/bin/sh" +:+ str1 NL +:+ str1 NL +:+
                       Script_Script s +:+ str1 NL)
          ∧ (Script_Args s = "" →
             ∀ l rest,
               Script_Script s = l +:+ str1 NL +:+ rest →
               hasByte NL l = false → TrimSpace l = l →
               HasPrefix l "#!" = true →
               wdata w = l +:+ str1 NL +:+ str1 NL +:+ rest +:+ str1 NL)).
Proof.
  cbv zeta. unfold insertRunScript. split.
  - intros [-> | ->]; [reflexivity|]. now rewrite andb_false_r.
  - intros -> Hne. rewrite (proj2 (String.eqb_neq _ _) Hne). cbn [negb andb].
    eexists. split; [reflexivity|]. unfold writeScript.
    rewrite handleShebangScript_unfold. cbn [wname wperm wdata].
    split; [reflexivity|]. split; [reflexivity|]. split.
    + intros -> ->. reflexivity.
    + intros -> l rest E Hl Htrim Hp. rewrite E, str1_app.
      assert (HasPrefix (TrimSpace (l +:+ String NL rest)) "#!" = true) as ->.
      { destruct l as [|c [|c2 l]]; [discriminate| |].
        { cbn [HasPrefix] in Hp. rewrite andb_false_r in Hp. discriminate. }
        cbn [HasPrefix] in Hp. apply andb_true_iff in Hp as [Hc Hp].
        apply andb_true_iff in Hp as [Hc2 _].
        apply Ascii.eqb_eq in Hc, Hc2. subst c c2.
        rewrite !str_app_cons. apply TrimSpace_keeps_shebang. }
      rewrite (cut_app NL l rest Hl). cbn [fst snd withArgs String.eqb].
      now rewrite Htrim.
Qed.

Lemma insertRunScript_file_witness :
  ∃ w, insertRunScript runBundle = Some w
       ∧ wdata w = "#!/bin/bash" +:+ str1 NL +:+ str1 NL +:+ "make" +:+ str1 NL.
Proof.
  destruct (proj2 (insertRunScript_file runBundle) eq_refl
              ltac:(discriminate)) as (w & Hw & _ & _ & _ & H).
  exists w. split; [exact Hw|].
  exact (H eq_refl "#!/bin/bash" "make" eq_refl eq_refl eq_refl eq_refl).
Defined.

End shebang_scripts.

(** ** A file of comments *)

Section comment_files.
Import types parser gostrings.

Lemma Split_last (s : string) (c : ascii) :
  ∃ I L, Split s c = I ++ [L]
         ∧ ∀ b, Split (s +:+ b) c
                = I ++ (L +:+ hd "" (Split b c)) :: tail (Split b c).
Proof.
  induction s as [|x s (I & L & E & H)].
  - exists [], "". split; [reflexivity|]. intros b. rewrite !str_app_nil_l.
    cbn [app]. destruct b as [|y b]; [reflexivity|]. cbn [Split].
    destruct (Ascii.eqb y c); [reflexivity|]. now destruct (Split b c).
  - cbn [Split]. destruct (Ascii.eqb x c) eqn:Ex.
    + exists ("" :: I), L. split; [now rewrite E|]. intros b.
      rewrite str_app_cons. cbn [Split]. now rewrite Ex, H.
    + rewrite E. destruct I as [|i I].
      * exists [], (String x L). split; [reflexivity|]. intros b.
        rewrite str_app_cons. cbn [Split]. now rewrite Ex, H.
      * exists (String x i :: I), L. split; [reflexivity|]. intros b.
        rewrite str_app_cons. cbn [Split]. now rewrite Ex, H.
Qed.

Lemma Split_cons (s : string) (c : ascii) : ∃ h t, Split s c = h :: t.
Proof.
  destruct (Split_last s c) as (I & L & E & _). rewrite E.
  destruct I; eauto.
Qed.

Lemma Split_allBytes (f : ascii → bool) (s : string) (c : ascii) :
  allBytes f s = true → Forall (fun l => allBytes f l = true) (Split s c).
Proof.
  induction s as [|x s IH]; [repeat constructor|]. cbn [allBytes Split].
  intros [Hx Hs]%andb_true_iff. specialize (IH Hs).
  destruct (Ascii.eqb x c); [now constructor|].
  destruct (Split s c) as [|h t]; [repeat constructor; cbn; now rewrite Hx|].
  apply Forall_cons in IH as [Hh Ht]. constructor; [|exact Ht].
  cbn. now rewrite Hx.
Qed.

Lemma Split_unlines (ls : list string) :
  Forall isLine ls → Split (unlines ls) NL = ls ++ [""].
Proof.
  induction 1 as [|l ls Hl _ IH]; [reflexivity|].
  cbn [unlines]. rewrite str1_app, (Split_app NL l _ Hl), IH. reflexivity.
Qed.

Lemma TrimLeftFunc_split (f : ascii → bool) (s : string) :
  ∃ w, s = w +:+ TrimLeftFunc f s ∧ allBytes f w = true.
Proof.
  induction s as [|c s (w & E & Hw)]; [now exists ""|].
  cbn [TrimLeftFunc]. destruct (f c) eqn:Hc.
  - exists (String c w). rewrite str_app_cons, <- E. cbn. now rewrite Hc.
  - now exists "".
Qed.

Lemma TrimSpace_app_l (w x : string) :
  allBytes isSpace w = true → TrimSpace (w +:+ x) = TrimSpace x.
Proof. intros H. unfold TrimSpace. now rewrite TrimLeftFunc_app, H. Qed.

Lemma TrimSpace_app_r (x w : string) :
  allBytes isSpace w = true → TrimSpace (x +:+ w) = TrimSpace x.
Proof.
  intros H. unfold TrimSpace. rewrite TrimLeftFunc_app.
  destruct (allBytes isSpace x) eqn:Hx.
  - now rewrite !TrimLeftFunc_all.
  - now apply TrimRightFunc_app_all.
Qed.

(** Trimming a text of blank and comment lines leaves such lines. *)
Lemma blankOrComment_trimmed (s : string) :
  Forall blankOrComment (Split s NL) →
  Forall blankOrComment (Split (TrimSpace s) NL).
Proof.
  intros H. unfold TrimSpace.
  destruct (TrimLeftFunc_split isSpace s) as (w1 & E1 & Hw1).
  set (u := TrimLeftFunc isSpace s) in *.
  assert (Forall blankOrComment (Split u NL)) as Hu.
  { rewrite E1 in H. destruct (Split_last w1 NL) as (I & L & EI & HI).
    rewrite HI in H. apply Forall_app in H as [_ H].
    apply Forall_cons in H as [HL Ht].
    destruct (Split_cons u NL) as (h & t & Eu). rewrite Eu in *.
    cbn [hd tail] in *. constructor; [|exact Ht].
    unfold blankOrComment in *. rewrite TrimSpace_app_l in HL; [exact HL|].
    pose proof (Split_allBytes isSpace w1 NL Hw1) as Hall.
    rewrite EI in Hall. apply Forall_app in Hall as [_ Hall].
    now apply Forall_cons in Hall as [Hall _]. }
  destruct (TrimRightFunc_split isSpace u) as (w2 & E2 & Hw2).
  set (r := TrimRightFunc isSpace u) in *.
  rewrite E2 in Hu. destruct (Split_last r NL) as (I & L & EI & HI).
  rewrite HI in Hu. rewrite EI.
  apply Forall_app in Hu as [HIs Hu]. apply Forall_cons in Hu as [HL _].
  apply Forall_app. split; [exact HIs|]. constructor; [|constructor].
  unfold blankOrComment in *. rewrite TrimSpace_app_r in HL; [exact HL|].
  pose proof (Split_allBytes isSpace w2 NL Hw2) as Hall.
  destruct (Split_cons w2 NL) as (h & t & Ew). rewrite Ew in *.
  now apply Forall_cons in Hall as [Hall _].
Qed.

Lemma doHeaderLines_comments (toks : list string) (st : hstate) :
  Forall blankOrComment toks → keyCont st = "" →
  doHeaderLines toks st = Ok st.
Proof.
  intros H Hk. induction H as [|l toks Hl _ IH]; [reflexivity|].
  cbn [doHeaderLines]. unfold doHeaderLine. rewrite Hl, Hk. cbn [obind].
  exact IH.
Qed.

Lemma doHeader_comments (h : string) (d : Def) :
  Forall blankOrComment (Split h NL) → doHeader h d = Ok d.
Proof.
  intros H. unfold doHeader.
  rewrite doHeaderLines_comments; [reflexivity| |reflexivity].
  now apply blankOrComment_trimmed.
Qed.

Lemma populateDefinition_nothing (raw : string) :
  populateDefinition (mkPstate ∅ [] []) (zeroDef raw raw)
  = Err errEmptyDefinition.
Proof. vm_compute. reflexivity. Qed.

Lemma blankOrComment_head (c : ascii) (t : string) :
  isSpace c = false → blankOrComment (String c t) → c = "#"%char.
Proof.
  intros Hc. unfold blankOrComment.
  destruct (TrimSpace_head c t Hc) as [t' ->].
  unfold isCommentOrBlank. rewrite Index_hash. cbn [String.eqb orb HasPrefix].
  rewrite HasPrefix_nil, andb_true_r. intros H. symmetry.
  now apply Ascii.eqb_eq.
Qed.

Lemma blankOrComment_plain (l : string) :
  hasByte "013"%char l = false → blankOrComment l → sectionLine l = false.
Proof.
  intros Hcr Hl. unfold sectionLine, startsSection, bufio.ScanWords.
  rewrite (dropCR_id l Hcr).
  destruct (TrimLeftFunc_split isSpace l) as (w & E & Hw).
  destruct (TrimLeftFunc_shape isSpace l) as [->|(c & t & Et & Hc)];
    [reflexivity|].
  rewrite Et in *. unfold blankOrComment in Hl.
  rewrite E, TrimSpace_app_l in Hl by exact Hw.
  apply (blankOrComment_head c t Hc) in Hl. subst c.
  reflexivity.
Qed.

Lemma tokenLines_plain_id (ls : list string) :
  Forall (fun x => sectionLine x = false) ls → tokenLines ls = ls.
Proof.
  induction 1 as [|l ls Hl _ IH]; [reflexivity|].
  cbn [tokenLines]. now rewrite Hl, IH.
Qed.

Lemma dropCR_lines (ls : list string) :
  Forall (fun l => hasByte "013"%char l = false) ls → bufio.dropCR <$> ls = ls.
Proof.
  induction 1 as [|l ls Hl _ IH]; [reflexivity|].
  cbn [fmap list_fmap]. rewrite (dropCR_id l Hl). f_equal. exact IH.
Qed.

Lemma skipEmptyTokens_single (tok : string) :
  tok ≠ "" → skipEmptyTokens [tok] = [tok].
Proof. now destruct tok. Qed.

(** A file that holds blank lines and comments only, and that fits the
    scanner's buffer, is an empty definition. *)
Theorem ParseDefinitionFile_comments_only (ls : list string) :
  Forall isLine ls →
  Forall (fun l => hasByte "013"%char l = false) ls →
  Forall blankOrComment ls →
  (N.of_nat (String.length (unlines ls)) + 1 ≤ bufio.MaxScanTokenSize)%N →
  ParseDefinitionFile (unlines ls) = Err errEmptyDefinition.
Proof.
  intros Hls Hcr Hbc Hlen.
  destruct ls as [|l ls]; [reflexivity|].
  assert (Forall (fun x => sectionLine x = false) (l :: ls)) as Hplain.
  { apply Forall_forall. intros x Hx.
    apply blankOrComment_plain;
      [exact (proj1 (Forall_forall _ _) Hcr x Hx)
      |exact (proj1 (Forall_forall _ _) Hbc x Hx)]. }
  apply Forall_cons in Hplain as [_ Hplain].
  pose proof (Forall_inv Hls) as Hl. pose proof (Forall_inv_tail Hls) as Hls'.
  unfold ParseDefinitionFile. cbn [scanTokens].
  destruct (String.eqb_spec (unlines (l :: ls)) "") as [E|_];
    [now apply unlines_cons_neq in E|].
  rewrite (scanDefinitionFile_unlines l ls Hl Hls').
  rewrite (afterToken_plain ls Hplain), (tokenLines_plain_id ls Hplain).
  unfold bufferNeeded. cbn [unlines cut].
  assert ((N.of_nat (String.length (l +:+ str1 NL +:+ unlines ls)) + 1
           <=? bufio.MaxScanTokenSize)%N = true) as ->.
  { apply N.leb_le. cbn [unlines] in Hlen. exact Hlen. }
  rewrite scanTokens_empty. unfold tokenOf. rewrite (dropCR_lines _ Hcr).
  rewrite (skipEmptyTokens_single _ (unlines_cons_neq l ls)).
  assert (Forall blankOrComment (Split (TrimSpace (unlines (l :: ls))) NL))
    as Htrim.
  { apply blankOrComment_trimmed. rewrite (Split_unlines _ Hls).
    apply Forall_app. split; [exact Hbc|]. now repeat constructor. }
  unfold doSections.
  destruct (TrimSpace_shape (unlines (l :: ls))) as [E|(c & t & E & Hc)].
  - rewrite E. cbn [obind parseTokens]. apply populateDefinition_nothing.
  - assert (c = "#"%char) as ->.
    { rewrite E in Htrim. cbn [Split] in Htrim.
      assert (Ascii.eqb c NL = false) as Hnl.
      { apply Ascii.eqb_neq. intros ->. discriminate. }
      rewrite Hnl in Htrim. destruct (Split t NL) as [|h tl].
      - apply Forall_inv in Htrim. now apply (blankOrComment_head c "" Hc).
      - apply Forall_inv in Htrim. now apply (blankOrComment_head c h Hc). }
    rewrite E in Htrim |- *. cbn [Ascii.eqb Bool.eqb negb andb].
    rewrite (doHeader_comments _ _ Htrim). cbn [wrapErr obind parseTokens].
    apply populateDefinition_nothing.
Qed.

Lemma ParseDefinitionFile_comments_only_witness :
  ParseDefinitionFile (unlines ["# a recipe to come"; ""; "   # soon"])
  = Err errEmptyDefinition.
Proof.
  apply ParseDefinitionFile_comments_only.
  - repeat constructor.
  - repeat constructor.
  - repeat constructor.
  - vm_compute. discriminate.
Defined.

End comment_files.

(** ** The header in the labels *)

Section header_labels.
Import types bundle metadata gostrings.

Lemma str_app_inj (a x y : string) : a +:+ x = a +:+ y → x = y.
Proof.
  induction a as [|c a IH]; [now rewrite !str_app_nil_l|].
  rewrite !str_app_cons. intros [= H]. auto.
Qed.

Lemma insertAll_prefixed (pre : string) (l : list (string * string))
    (m : gmap string string) (k : string) :
  insertAll (prod_map (fun k => pre +:+ k) id <$> l) m !! (pre +:+ k)
  = match (list_to_map l : gmap string string) !! k with
    | Some v => Some v
    | None => m !! (pre +:+ k)
    end.
Proof.
  induction l as [|[k0 v0] l IH]; [reflexivity|].
  cbn [fmap list_fmap insertAll foldr prod_map fst snd id list_to_map].
  fold (insertAll (prod_map (fun k => pre +:+ k) id <$> l) m).
  destruct (decide (k0 = k)) as [->|Hne].
  - now rewrite !lookup_insert_eq.
  - rewrite !lookup_insert_ne; [exact IH|congruence|].
    intros E%str_app_inj. congruence.
Qed.

Ltac other_key :=
  let E := fresh in
  intros E; unfold deffilePrefix in E; cbn [String.append] in E;
  discriminate E.

Lemma autoLabels_deffile (env : LabelEnv) (b : Bundle) (k : string) :
  autoLabels env b !! (deffilePrefix +:+ k)
  = if negb (Update (Opts b)) || Force (Opts b)
    then default ∅ (Header (Recipe b)) !! k
    else None.
Proof.
  unfold autoLabels, addBuildLabels.
  destruct (negb (String.eqb (Tag (Opts b)) "") && _);
    destruct (RunSection b "help" && _);
    destruct (negb (Update (Opts b)) || Force (Opts b));
    rewrite ?lookup_insert_ne by other_key;
    rewrite ?insertAll_prefixed, ?list_to_map_to_list;
    rewrite ?lookup_insert_ne by other_key;
    rewrite ?lookup_empty;
    try reflexivity;
    now destruct (default ∅ (Header (Recipe b)) !! k).
Qed.

(** A build that bootstraps, one that is no update or is forced, records
    every entry of the recipe's header as a label, the key after the
    deffile prefix; the labels of that prefix that the header does not set
    stay as they were.  An update without force leaves all the labels of
    that prefix as they were. *)
Theorem addBuildLabels_header (env : LabelEnv) (b : Bundle)
    (labels : gmap string string) (k : string) :
  let bootstrapped := negb (Update (Opts b)) || Force (Opts b) in
  let label := addBuildLabels env b labels !! (deffilePrefix +:+ k) in
  (bootstrapped = true →
   ∀ h v, Header (Recipe b) = Some h → h !! k = Some v → label = Some v)
  ∧ (bootstrapped = true →
     default ∅ (Header (Recipe b)) !! k = None →
     label = labels !! (deffilePrefix +:+ k))
  ∧ (bootstrapped = false → label = labels !! (deffilePrefix +:+ k)).
Proof.
  cbv zeta. rewrite addBuildLabels_union.
  pose proof (autoLabels_deffile env b k) as Hauto.
  split; [|split].
  - intros Hb h v Hh Hk. rewrite Hb, Hh in Hauto. cbn [default] in Hauto.
    apply lookup_union_Some_l. now rewrite Hauto.
  - intros Hb Hk. rewrite Hb, Hk in Hauto. now apply lookup_union_r.
  - intros Hb. rewrite Hb in Hauto. now apply lookup_union_r.
Qed.

Lemma addBuildLabels_header_witness :
  addBuildLabels sampleLabelEnv sampleBundle ∅ !! (deffilePrefix +:+ "from")
  = Some "busybox".
Proof.
  apply (proj1 (addBuildLabels_header sampleLabelEnv sampleBundle ∅ "from")
           eq_refl dockerHeader "busybox" eq_refl).
  vm_compute. reflexivity.
Defined.

End header_labels.

(** ** Lines of a files section *)

Section files_lines.
Import types parser gostrings.

Lemma m_Cat (a b : regexp.re) (k : string → option string) (s : string) :
  regexp.m (regexp.Cat a b) k s = regexp.m a (regexp.m b k) s.
Proof. reflexivity. Qed.

Lemma m_Alt (a b : regexp.re) (k : string → option string) (s : string) :
  regexp.m (regexp.Alt a b) k s =
  match regexp.m a k s with Some x => Some x | None => regexp.m b k s end.
Proof. reflexivity. Qed.

Lemma m_Cls_cons (f : ascii → bool) (k : string → option string)
    (c : ascii) (t : string) :
  regexp.m (regexp.Cls f) k (String c t) = if f c then k t else None.
Proof. reflexivity. Qed.

Lemma m_star_cls (f : ascii → bool) (k : string → option string) (s : string) :
  regexp.m (regexp.Star (regexp.Cls f)) k s = starCls f k s.
Proof.
  cbn [regexp.m].
  generalize (Nat.lt_succ_diag_r (String.length s)).
  generalize (S (String.length s)) as n. intros n. revert s.
  induction n as [|n IH]; intros s Hn; [lia|].
  destruct s as [|c s]; [reflexivity|]. cbn [starCls].
  destruct (f c) eqn:Hc; [|reflexivity].
  cbn [String.length] in *.
  rewrite (proj2 (Nat.ltb_lt _ _) (Nat.lt_succ_diag_r _)).
  rewrite IH by lia. reflexivity.
Qed.

Lemma wordByte_spec (c : ascii) :
  wordByte c = true →
  notSpaceQuote c = true ∧ isSpace c = false ∧ Ascii.eqb "{" c = false.
Proof.
  unfold wordByte, inWord.
  intros [[[_ H2]%andb_true_iff H1]%andb_true_iff H3]%andb_true_iff.
  apply negb_true_iff in H2, H3. rewrite Ascii.eqb_sym in H3. auto.
Qed.

Lemma notSpaceQuote_spec (c : ascii) :
  notSpaceQuote c = true →
  regexp.cls_s c = false ∧ Ascii.eqb dquote c = false
  ∧ Ascii.eqb squote c = false.
Proof.
  unfold notSpaceQuote. intros H. apply negb_true_iff in H.
  apply orb_false_iff in H as [[H1 H2]%orb_false_iff H3].
  rewrite Ascii.eqb_sym in H2, H3. auto.
Qed.

Lemma cls_s_spec (c : ascii) :
  regexp.cls_s c = true →
  notSpaceQuote c = false ∧ Ascii.eqb "{" c = false
  ∧ Ascii.eqb dquote c = false ∧ Ascii.eqb squote c = false.
Proof.
  intros H.
  assert (c = "009" ∨ c = "010" ∨ c = "012" ∨ c = "013" ∨ c = " ")%char
    as Hc.
  { rewrite <- (ascii_nat_embedding c). unfold regexp.cls_s in H.
    destruct (nat_of_ascii c) as [|[|[|[|[|[|[|[|[|[|[|[|[|[|n]]]]]]]]]]]]]];
      try discriminate; auto.
    do 18 (destruct n as [|n]; [discriminate|]).
    destruct n as [|n]; [auto 6|discriminate]. }
  destruct Hc as [->|[->|[->|[->| ->]]]]; repeat split; reflexivity.
Qed.

(** A word, then its end: the braced alternative finds no opening brace
    wherever it gives bytes back. *)
Lemma starCls_word_none (f : ascii → bool) (k : string → option string)
    (w rest : string) :
  k "" = None →
  (∀ c t, Ascii.eqb "{" c = false → k (String c t) = None) →
  allBytes (fun c => negb (Ascii.eqb "{" c)) w = true →
  (rest = "" ∨ ∃ c t, rest = String c t ∧ f c = false
                      ∧ Ascii.eqb "{" c = false) →
  starCls f k (w +:+ rest) = None.
Proof.
  intros Hk0 Hk Hw Hrest. induction w as [|a w IH].
  - rewrite str_app_nil_l. destruct Hrest as [->|(c & t & -> & Hc & Hb)].
    + exact Hk0.
    + cbn [starCls]. rewrite Hc. now apply Hk.
  - cbn [allBytes] in Hw. apply andb_true_iff in Hw as [Ha Hw].
    apply negb_true_iff in Ha.
    rewrite str_app_cons. cbn [starCls]. rewrite (IH Hw).
    rewrite (Hk _ _ Ha). now destruct (f a).
Qed.

Lemma starCls_word_some (f : ascii → bool) (w rest : string) :
  allBytes f w = true →
  (rest = "" ∨ ∃ c t, rest = String c t ∧ f c = false) →
  starCls f Some (w +:+ rest) = Some rest.
Proof.
  intros Hw Hrest. induction w as [|a w IH].
  - rewrite str_app_nil_l. destruct Hrest as [->|(c & t & -> & Hc)];
      [reflexivity|]. cbn [starCls]. now rewrite Hc.
  - cbn [allBytes] in Hw. apply andb_true_iff in Hw as [Ha Hw].
    rewrite str_app_cons. cbn [starCls]. now rewrite Ha, (IH Hw).
Qed.


Lemma lit_first (c0 : ascii) (b : regexp.re) (k : string → option string) :
  regexp.m (regexp.Cat (regexp.Lit c0) b) k "" = None
  ∧ ∀ c t, Ascii.eqb c0 c = false →
      regexp.m (regexp.Cat (regexp.Lit c0) b) k (String c t) = None.
Proof.
  split; [reflexivity|]. intros c t Hc. rewrite m_Cat. unfold regexp.Lit.
  rewrite m_Cls_cons. now rewrite Hc.
Qed.

Lemma wordEnds_spec (rest : string) :
  wordEnds rest →
  rest = "" ∨ ∃ c t, rest = String c t ∧ notSpaceQuote c = false
                     ∧ Ascii.eqb "{" c = false.
Proof.
  intros [->|(c & t & -> & Hc)]; [now left|right].
  destruct (cls_s_spec _ Hc) as (H1 & H2 & _). eauto.
Qed.

Lemma matchPrefix_word (w rest : string) :
  w ≠ "" → allBytes wordByte w = true → wordEnds rest →
  regexp.matchPrefix fileSplitter (w +:+ rest) = Some w.
Proof.
  intros Hne Hw Hrest%wordEnds_spec. unfold regexp.matchPrefix.
  assert (regexp.m fileSplitter Some (w +:+ rest) = Some rest) as ->.
  { cbv beta delta [fileSplitter regexp.Plus] zeta.
    rewrite m_Alt, !m_Cat, m_star_cls, starCls_word_none.
    - rewrite m_Alt, m_Cat. destruct w as [|a w]; [congruence|].
      cbn [allBytes] in Hw. apply andb_true_iff in Hw as [Ha Hw].
      apply wordByte_spec in Ha as (Ha & _).
      rewrite str_app_cons, m_Cls_cons, Ha, m_star_cls, starCls_word_some;
        [reflexivity| |].
      + revert Hw. apply allBytes_impl. now intros c (H & _)%wordByte_spec.
      + destruct Hrest as [->|(c & t & -> & Hc & _)]; eauto.
    - apply lit_first.
    - apply lit_first.
    - revert Hw. apply allBytes_impl. intros c (_ & _ & H)%wordByte_spec.
      now rewrite H.
    - exact Hrest. }
  rewrite str_length_app, Nat.add_sub. now rewrite str_take_app_length.
Qed.

Lemma matchPrefix_space (c : ascii) (t : string) :
  regexp.cls_s c = true →
  regexp.matchPrefix fileSplitter (String c t) = None.
Proof.
  intros (H1 & H2 & H3 & H4)%cls_s_spec. unfold regexp.matchPrefix.
  assert (regexp.m fileSplitter Some (String c t) = None) as ->;
    [|reflexivity].
  cbv beta delta [fileSplitter regexp.Plus] zeta.
  rewrite m_Alt, !m_Cat, m_star_cls. cbn [starCls]. rewrite H1.
  rewrite (proj2 (lit_first _ _ _) _ _ H2).
  rewrite m_Alt, m_Cat, m_Cls_cons, H1.
  rewrite m_Alt, (proj2 (lit_first _ _ _) _ _ H3).
  now rewrite (proj2 (lit_first _ _ _) _ _ H4).
Qed.

Lemma findAllFrom_skip (r : regexp.re) (w rest : string) :
  regexp.findAllFrom r (String.length w) (w +:+ rest)
  = regexp.findAllFrom r 0 rest.
Proof.
  induction w as [|a w IH].
  - rewrite str_app_nil_l. now destruct rest.
  - rewrite str_app_cons. cbn [String.length regexp.findAllFrom]. exact IH.
Qed.

Lemma findAllFrom_word (w rest : string) :
  w ≠ "" → allBytes wordByte w = true → wordEnds rest →
  regexp.findAllFrom fileSplitter 0 (w +:+ rest)
  = w :: regexp.findAllFrom fileSplitter 0 rest.
Proof.
  intros Hne Hw Hrest. pose proof (matchPrefix_word w rest Hne Hw Hrest) as Hm.
  destruct w as [|a w]; [congruence|]. rewrite str_app_cons in Hm |- *.
  cbn [regexp.findAllFrom]. rewrite Hm. now rewrite findAllFrom_skip.
Qed.

Lemma findAllFrom_sep (sep t : string) :
  allBytes regexp.cls_s sep = true →
  regexp.findAllFrom fileSplitter 0 (sep +:+ t)
  = regexp.findAllFrom fileSplitter 0 t.
Proof.
  induction sep as [|c sep IH]; intros Hs; [now rewrite str_app_nil_l|].
  cbn [allBytes] in Hs. apply andb_true_iff in Hs as [Hc Hs].
  rewrite str_app_cons. cbn [regexp.findAllFrom].
  rewrite (matchPrefix_space _ _ Hc). exact (IH Hs).
Qed.

Lemma word_untrimmed (w : string) :
  allBytes wordByte w = true → Trim (TrimSpace w) dquote = w.
Proof.
  intros Hw. unfold TrimSpace, Trim.
  destruct (TrimFunc_none isSpace w) as [-> ->].
  { revert Hw. apply allBytes_impl. intros c (_ & H & _)%wordByte_spec.
    now rewrite H. }
  destruct (TrimFunc_none (Ascii.eqb dquote) w) as [-> ->]; [|reflexivity].
  revert Hw. apply allBytes_impl. intros c (H & _)%wordByte_spec.
  apply notSpaceQuote_spec in H as (_ & H & _). now rewrite H.
Qed.

(** A files line of plain words (a word of ASCII bytes without white
    space, quote or opening brace): the first word is the source and the
    second the destination, whatever follows the second word; a line of
    one word has the empty destination. *)
Theorem parseFileLine_words (w1 sep w2 tail : string) :
  w1 ≠ "" → allBytes wordByte w1 = true →
  sep ≠ "" → allBytes regexp.cls_s sep = true →
  w2 ≠ "" → allBytes wordByte w2 = true →
  wordEnds tail →
  parseFileLine (w1 +:+ sep +:+ w2 +:+ tail) = Ok (mkFileTransport w1 w2)
  ∧ parseFileLine w1 = Ok (mkFileTransport w1 "").
Proof.
  intros Hne1 Hw1 Hnes Hsep Hne2 Hw2 Htail. unfold parseFileLine,
    regexp.FindAllString. split.
  - assert (wordEnds (sep +:+ w2 +:+ tail)) as Hends.
    { destruct sep as [|c sep]; [congruence|]. right.
      cbn [allBytes] in Hsep. apply andb_true_iff in Hsep as [Hc _].
      rewrite str_app_cons. eauto. }
    rewrite findAllFrom_word, findAllFrom_sep, findAllFrom_word by assumption.
    cbn [obind]. now rewrite !word_untrimmed.
  - rewrite <- (str_app_nil_r w1) at 1.
    rewrite findAllFrom_word by first [assumption|now left].
    cbn [obind regexp.findAllFrom]. now rewrite word_untrimmed.
Qed.

Lemma parseFileLine_words_witness :
  parseFileLine "a.txt   /opt/a.txt keep" = Ok (mkFileTransport "a.txt" "/opt/a.txt")
  ∧ parseFileLine "a.txt" = Ok (mkFileTransport "a.txt" "").
Proof.
  apply (parseFileLine_words "a.txt" "   " "/opt/a.txt" " keep");
    first [reflexivity | discriminate
          | right; exists " "%char, "keep"; split; reflexivity].
Defined.

End files_lines.
